(** * y2t: the filter engine and the value normaliser

    A shallow embedding of [src/js/common.js], [src/js/filtersort.js] and
    the data handling of [src/js/main.js].
    JavaScript strings are modelled as [string] (one [ascii] per UTF-16 code
    unit, so the development speaks about ASCII text), arrays as lists,
    plain objects used as dictionaries as [gmap string _]. *)

From Stdlib Require Import ZArith QArith Qabs Qcanon Ascii Bool Lia DecimalString.
From Stdlib Require String.
From Stdlib Require Import Sorting.Sorted.
From Stdlib Require DecimalPos DecimalFacts.
From stdpp Require Import base option list gmap strings.

Local Open Scope Z_scope.

(** ** JavaScript string primitives *)

Module JsString.

Fixpoint repeat (c : ascii) (n : nat) : string :=
  match n with
  | O => EmptyString
  | S n' => String c (repeat c n')
  end.

(** [s.substring(0, n)] *)
Fixpoint prefix (n : nat) (s : string) : string :=
  match n, s with
  | S n', String c s' => String c (prefix n' s')
  | _, _ => EmptyString
  end.

(** [s.padStart(n, c)] for a one-character filler [c] *)
Definition padStart (n : nat) (c : ascii) (s : string) : string :=
  repeat c (n - String.length s) +:+ s.

(** [s.padEnd(n, c)] for a one-character filler [c] *)
Definition padEnd (n : nat) (c : ascii) (s : string) : string :=
  s +:+ repeat c (n - String.length s).

Definition code (c : ascii) : N := N_of_ascii c.

Definition is_digit (c : ascii) : bool :=
  (48 <=? code c)%N && (code c <=? 57)%N.

(** [a < b] on strings: code unit by code unit, a proper prefix first *)
Fixpoint ltb (a b : string) : bool :=
  match a, b with
  | EmptyString, EmptyString => false
  | EmptyString, String _ _ => true
  | String _ _, EmptyString => false
  | String x a', String y b' =>
      if (code x <? code y)%N then true
      else if (code y <? code x)%N then false
      else ltb a' b'
  end.

End JsString.

(** ** The version hasher ([version2hash], common.js) *)

Module Version.
Import JsString.

Definition groups : nat := 6.
Definition padNum : nat := 6.
Definition padAlph : nat := 2.
Definition padChrLo : ascii := " "%char.
Definition padChrHi : ascii := "~"%char.
Definition hl : nat := groups * padNum.
Definition hlExt : nat := hl + padAlph.
Definition hlFull : nat := hlExt + padNum.

(** The hash of an empty or missing version. *)
Definition emptyHash : string :=
  repeat padChrLo hl +:+ repeat padChrHi padAlph +:+ repeat padChrLo padNum.

(** Loop state: the variables [hash] and [group]. *)
Record scan := Scan { hash : string; group : string }.

Definition dump (g : string) : string := padStart padNum padChrLo (prefix padNum g).

(** One iteration of [for (char of String(ver))]. *)
Definition step (st : scan) (char : ascii) : scan :=
  if (String.length (hash st) <? hl)%nat then
    if Ascii.eqb char "."%char then
      Scan (hash st +:+ dump (group st)) ""
    else if Ascii.eqb char "-"%char then
      let h := hash st +:+ dump (group st) in
      let h := if (String.length h <? hl)%nat then padEnd hl padChrLo h else h in
      Scan h ""
    else
      Scan (hash st) (group st +:+ String char "")
  else if (String.length (hash st) <? hlExt)%nat then
    if (code char <? code "0"%char)%N || (code "9"%char <? code char)%N then
      Scan (hash st) (group st +:+ String char "")
    else
      Scan (hash st +:+ padEnd padAlph padChrHi (prefix padAlph (group st)))
      (String char "")
  else
    Scan (hash st) (group st +:+ String char "").

Fixpoint scan_chars (st : scan) (s : string) : scan :=
  match s with
  | EmptyString => st
  | String c s' => scan_chars (step st c) s'
  end.

(** The two [if]s after the loop. *)
Definition finish (st : scan) : string :=
  let h := hash st in
  let h :=
    if (String.length h <? hl)%nat then
      let h := h +:+ dump (group st) in
      if (String.length h <? hl)%nat then
        padEnd hl padChrLo h +:+ repeat padChrHi padAlph +:+ repeat padChrLo padNum
      else h
    else h in
  if (String.length h <? hlFull)%nat then h +:+ dump (group st) else h.

(** [version2hash] on a truthy argument already converted by [String(ver)]. *)
Definition hash_of_string (ver : string) : string :=
  finish (scan_chars (Scan "" "") ver).

End Version.

(** ** JavaScript numbers and values *)

Module Js.
Import JsString.

(** A Number: [NaN], the two infinities, or a finite value.  Finite values
    are kept as exact reduced fractions, so integer arithmetic below 2^53
    is the arithmetic of the engine; binary64 rounding is not modelled. *)
Inductive number :=
  | NaN
  | PInf
  | NInf
  | Fin (q : Q).

Definition int (z : Z) : number := Fin (inject_Z z).

Definition isNaN (n : number) : bool :=
  match n with NaN => true | _ => false end.

Definition sgn (q : Q) : Z := Z.sgn (Qnum q).

Definition neg (n : number) : number :=
  match n with
  | NaN => NaN | PInf => NInf | NInf => PInf
  | Fin q => Fin (Qred (Qopp q))
  end.

Definition mul (a b : number) : number :=
  match a, b with
  | NaN, _ | _, NaN => NaN
  | Fin x, Fin y => Fin (Qred (x * y))
  | Fin x, PInf | PInf, Fin x =>
      match sgn x with 0 => NaN | Zpos _ => PInf | Zneg _ => NInf end
  | Fin x, NInf | NInf, Fin x =>
      match sgn x with 0 => NaN | Zpos _ => NInf | Zneg _ => PInf end
  | PInf, PInf | NInf, NInf => PInf
  | PInf, NInf | NInf, PInf => NInf
  end.

Definition add (a b : number) : number :=
  match a, b with
  | NaN, _ | _, NaN => NaN
  | Fin x, Fin y => Fin (Qred (x + y))
  | PInf, NInf | NInf, PInf => NaN
  | PInf, _ | _, PInf => PInf
  | NInf, _ | _, NInf => NInf
  end.

(** [a < b] on Numbers; false as soon as one side is [NaN]. *)
Definition lt (a b : number) : bool :=
  match a, b with
  | NaN, _ | _, NaN => false
  | Fin x, Fin y => negb (Qle_bool y x)
  | NInf, NInf | PInf, _ | _, NInf => false
  | NInf, _ | _, PInf => true
  end.

(** [a === b] on Numbers. *)
Definition eqb (a b : number) : bool :=
  match a, b with
  | Fin x, Fin y => Qeq_bool x y
  | PInf, PInf | NInf, NInf => true
  | _, _ => false
  end.

(** Truthiness of a Number: [NaN] and zero are falsy. *)
Definition nonzero (n : number) : bool :=
  match n with
  | NaN => false
  | Fin q => negb (Qeq_bool q 0)
  | _ => true
  end.

(** Truncation toward zero of a finite value; 0 for the others. *)
Definition trunc (n : number) : Z :=
  match n with
  | Fin q => Z.quot (Qnum q) (Zpos (Qden q))
  | _ => 0
  end.

Definition ToUint32 (n : number) : Z := trunc n mod 2 ^ 32.
Definition ToInt32 (n : number) : Z := (trunc n + 2 ^ 31) mod 2 ^ 32 - 2 ^ 31.

(** *** Strings to numbers *)

(** [\s] and StrWhiteSpace within ASCII: TAB, LF, VT, FF, CR, space. *)
Definition is_space (c : ascii) : bool :=
  ((9 <=? code c)%N && (code c <=? 13)%N) || (code c =? 32)%N.

Fixpoint trimStart (s : string) : string :=
  match s with
  | String c s' => if is_space c then trimStart s' else s
  | EmptyString => EmptyString
  end.

(** Drops trailing white space. *)
Fixpoint trimEnd (s : string) : string :=
  match s with
  | EmptyString => EmptyString
  | String c s' =>
      match trimEnd s' with
      | EmptyString => if is_space c then EmptyString else String c EmptyString
      | t => String c t
      end
  end.

Definition trim (s : string) : string := trimEnd (trimStart s).

(** Value of a digit in the given radix, if it is one. *)
Definition digit_val (radix : Z) (c : ascii) : option Z :=
  let n := Z.of_N (code c) in
  let v := if (48 <=? n) && (n <=? 57) then n - 48
           else if (97 <=? n) && (n <=? 122) then n - 87
           else if (65 <=? n) && (n <=? 90) then n - 55
           else radix in
  if v <? radix then Some v else None.

(** Longest run of digits at the front of [s]: accumulated value, number
    of digits read, and the rest of the string. *)
Fixpoint digits (radix : Z) (acc : Z) (cnt : nat) (s : string) : Z * nat * string :=
  match s with
  | String c s' =>
      match digit_val radix c with
      | Some v => digits radix (acc * radix + v) (S cnt) s'
      | None => (acc, cnt, s)
      end
  | EmptyString => (acc, cnt, s)
  end.

(** [m * 10^e] as a Number. *)
Definition scale10 (m e : Z) : number :=
  if 0 <=? e then int (m * 10 ^ e)
  else Fin (Qred (Qmake m (Z.to_pos (10 ^ (- e))))).

Definition strip_sign (s : string) : bool * string :=
  match s with
  | String "-" s' => (true, s')
  | String "+" s' => (false, s')
  | _ => (false, s)
  end.

Definition signed (negative : bool) (n : number) : number :=
  if negative then neg n else n.

(** An integer literal in a fixed radix, the whole of [s]. *)
Definition radix_literal (radix : Z) (s : string) : number :=
  match digits radix 0 0 s with
  | (v, S _, EmptyString) => int v
  | _ => NaN
  end.

(** The optional ExponentPart and the end of the literal. *)
Definition exponent (s : string) : option Z :=
  match s with
  | EmptyString => Some 0
  | String c s' =>
      if Ascii.eqb c "e" || Ascii.eqb c "E" then
        let '(negative, t) := strip_sign s' in
        match digits 10 0 0 t with
        | (v, S _, EmptyString) => Some (if negative then - v else v)
        | _ => None
        end
      else None
  end.

(** StrUnsignedDecimalLiteral *)
Definition unsigned_decimal (s : string) : number :=
  if String.eqb s "Infinity" then PInf else
    let '(ip, ni, r) := digits 10 0 0 s in
    let '(fp, nf, r) :=
      match r with
      | String "." r' => digits 10 0 0 r'
      | _ => (0, O, r)
      end in
    match (ni + nf)%nat, exponent r with
    | S _, Some e => scale10 (ip * 10 ^ Z.of_nat nf + fp) (e - Z.of_nat nf)
    | _, _ => NaN
    end.

(** [Number(s)], [+s]: the StringNumericLiteral grammar. *)
Definition StringToNumber (s : string) : number :=
  match trim s with
  | EmptyString => int 0
  | String "0" (String "x" r) | String "0" (String "X" r) => radix_literal 16 r
  | String "0" (String "o" r) | String "0" (String "O" r) => radix_literal 8 r
  | String "0" (String "b" r) | String "0" (String "B" r) => radix_literal 2 r
  | t => let '(negative, u) := strip_sign t in signed negative (unsigned_decimal u)
  end.

(** [parseInt(s)] without a radix argument. *)
Definition parseInt (s : string) : number :=
  let '(negative, t) := strip_sign (trimStart s) in
  let '(radix, t) :=
    match t with
    | String "0" (String "x" r) | String "0" (String "X" r) => (16, r)
    | _ => (10, t)
    end in
  match digits radix 0 0 t with
  | (v, S _, _) => signed negative (int v)
  | _ => NaN
  end.

(** *** Values *)

(** The values that reach the engine.  [VObject c] is any other object,
    [c] being the class name that [Object.prototype.toString] reports. *)
#[warnings="-register-all"]
Inductive jsval :=
  | VUndefined
  | VNull
  | VBool (b : bool)
  | VNum (n : number)
  | VStr (s : string)
  | VDate (time : number)
  | VRegExp (source : string)
  | VArray (items : list jsval)
  | VObject (class : string).

(** [$typeOf(v)] *)
Definition typeOf (v : jsval) : string :=
  match v with
  | VUndefined => "Undefined"
  | VNull => "Null"
  | VBool _ => "Boolean"
  | VNum _ => "Number"
  | VStr _ => "String"
  | VDate _ => "Date"
  | VRegExp _ => "RegExp"
  | VArray _ => "Array"
  | VObject c => c
  end.

(** Truthiness, as tested by [!v], [v || d] and [v ? a : b]. *)
Definition truthy (v : jsval) : bool :=
  match v with
  | VUndefined | VNull => false
  | VBool b => b
  | VNum n => nonzero n
  | VStr s => negb (String.eqb s "")
  | _ => true
  end.

Definition upper_char (c : ascii) : ascii :=
  if ((97 <=? code c)%N && (code c <=? 122)%N)%bool
  then ascii_of_N (code c - 32) else c.

(** [s.toUpperCase()] on ASCII text. *)
Fixpoint toUpperCase (s : string) : string :=
  match s with
  | EmptyString => EmptyString
  | String c s' => String (upper_char c) (toUpperCase s')
  end.

(** [s.substring(a, b)]: both ends clamped to the string, swapped when
    they come in the wrong order. *)
Definition substring (a b : Z) (s : string) : string :=
  let len := Z.of_nat (String.length s) in
  let a := Z.max 0 (Z.min a len) in
  let b := Z.max 0 (Z.min b len) in
  let lo := Z.min a b in
  let hi := Z.max a b in
  String.substring (Z.to_nat lo) (Z.to_nat (hi - lo)) s.

(** [s.split(sep)] for a one-character separator. *)
Fixpoint split (sep : ascii) (s : string) : list string :=
  match s with
  | EmptyString => [EmptyString]
  | String c s' =>
      if Ascii.eqb c sep then EmptyString :: split sep s'
      else match split sep s' with
        | x :: xs => String c x :: xs
        | [] => [String c EmptyString]
        end
  end.

Fixpoint includes (c : ascii) (s : string) : bool :=
  match s with
  | EmptyString => false
  | String x s' => Ascii.eqb x c || includes c s'
  end.

(** What the platform supplies: the regular-expression engine, the date
    parser and formatter, the DOM helper element behind [escapeHtml] and
    [html2text], and the coercions of floats and objects. *)
Class Host := {
  (** [n.toString()] for a finite Number that is not a small integer *)
  float_to_string : Q -> string;
  (** [Number(o)] and [String(o)] for arrays and other objects *)
  object_to_number : jsval -> number;
  object_to_string : jsval -> string;
  (** whether [new RegExp(src, "i")] is accepted *)
  regexp_ok : string -> bool;
  (** [new RegExp(src, "i").test(subject)] *)
  regexp_test : string -> string -> bool;
  (** [new Date(text).getTime()] *)
  date_parse : string -> number;
  (** [$htmlHelper.textContent = t; $htmlHelper.innerHTML] *)
  escapeHtml : string -> string;
  (** [$htmlHelper.innerHTML = h; $htmlHelper.textContent] *)
  html2text : string -> string;
  (** [window.moment(date).format(fmt)], when moment.js is loaded *)
  moment_format : option (number -> string -> string);
  (** [date.toISOString().replace(/T.*/, "")]; [None] is the RangeError
      of an invalid date *)
  iso_date : number -> option string
}.

(** The decimal digits of an integer, with its sign. *)
Definition decimal (z : Z) : string :=
  DecimalString.NilZero.string_of_int (Z.to_int z).

Section Coercions.
Context `{Host}.

(** [n.toString()] *)
Definition number_to_string (n : number) : string :=
  match n with
  | NaN => "NaN"
  | PInf => "Infinity"
  | NInf => "-Infinity"
  | Fin q =>
      if (Zpos (Qden q) =? 1) && (Z.abs (Qnum q) <? 10 ^ 21)
      then decimal (Qnum q)
      else float_to_string q
  end.

(** [String(v)], also the property key that [obj[v]] looks up. *)
Definition ToString (v : jsval) : string :=
  match v with
  | VUndefined => "undefined"
  | VNull => "null"
  | VBool true => "true"
  | VBool false => "false"
  | VNum n => number_to_string n
  | VStr s => s
  | VRegExp src => "/" +:+ src +:+ "/i"
  | _ => object_to_string v
  end.

(** [Number(v)] *)
Definition ToNumber (v : jsval) : number :=
  match v with
  | VUndefined => NaN
  | VNull => int 0
  | VBool true => int 1
  | VBool false => int 0
  | VNum n => n
  | VStr s => StringToNumber s
  | VDate t => t
  | _ => object_to_number v
  end.

(** The global [isNaN(v)] *)
Definition isNaN_value (v : jsval) : bool := isNaN (ToNumber v).

(** [a & b], [a | b], [x >>> 0], [~x] *)
Definition bitand (a b : jsval) : Z := Z.land (ToInt32 (ToNumber a)) (ToInt32 (ToNumber b)).
Definition bitor (a b : jsval) : Z := Z.lor (ToInt32 (ToNumber a)) (ToInt32 (ToNumber b)).
Definition bitnot (a : jsval) : Z := Z.lnot (ToInt32 (ToNumber a)).
Definition ushr0 (z : Z) : number := int (z mod 2 ^ 32).

(** [a < b]: two strings compare as text, any other pair as Numbers. *)
Definition less (a b : jsval) : bool :=
  match a, b with
  | VStr x, VStr y => ltb x y
  | _, _ => lt (ToNumber a) (ToNumber b)
  end.

(** [a === b]; two distinct objects are never equal. *)
Definition strict_eq (a b : jsval) : bool :=
  match a, b with
  | VUndefined, VUndefined | VNull, VNull => true
  | VBool x, VBool y => Bool.eqb x y
  | VNum x, VNum y => eqb x y
  | VStr x, VStr y => String.eqb x y
  | _, _ => false
  end.

End Coercions.

End Js.

(** ** Shared helpers and the value normaliser (common.js) *)

Module Common.
Import JsString Js.

(** A call either returns or is cut short by an exception. *)
Inductive outcome (A : Type) :=
  | Done (a : A)
  | Thrown (error : string).
Arguments Done {A} a.
Arguments Thrown {A} error.

Definition bind {A B} (m : outcome A) (k : A -> outcome B) : outcome B :=
  match m with
  | Done a => k a
  | Thrown e => Thrown e
  end.

Notation "'let!' x ':=' m 'in' k" := (bind m (fun x => k))
    (at level 10, x name, m at level 100, k at level 200).

(** [ip2long(ip)] for a string argument *)
Definition ip2long (ip : string) : number :=
  match split "." ip with
  | [o0; o1; o2; o3] =>
      add (mul (add (mul (add (mul (StringToNumber o0) (int 256))
                          (StringToNumber o1)) (int 256))
                (StringToNumber o2)) (int 256))
      (StringToNumber o3)
  | _ => int 0
  end.

(** [CIDRmasks[bits]], that is [~(0xFFFFFFFF >>> bits) >>> 0] *)
Definition CIDRmask (bits : Z) : Z :=
  Z.lnot (ToInt32 (int (Z.shiftr 4294967295 bits))) mod 2 ^ 32.

(** [cidr2long(suffix)]; the array has no entry at a fractional index. *)
Definition cidr2long (suffix : number) : jsval :=
  if lt (int 0) suffix && lt suffix (int 32) then
    match suffix with
    | Fin q => if (Zpos (Qden q) =? 1) then VNum (int (CIDRmask (Qnum q))) else VUndefined
    | _ => VUndefined
    end
  else VNum (int 4294967295).

(** *** The regular expressions of the normaliser *)

(** Longest run of decimal digits at the front, and the rest. *)
Fixpoint span_digits (s : string) : string * string :=
  match s with
  | String c s' =>
      if is_digit c then let '(d, r) := span_digits s' in (String c d, r)
      else (EmptyString, s)
  | EmptyString => (EmptyString, EmptyString)
  end.

Fixpoint span_nondigits (s : string) : string * string :=
  match s with
  | String c s' =>
      if is_digit c then (EmptyString, s)
      else let '(d, r) := span_nondigits s' in (String c d, r)
  | EmptyString => (EmptyString, EmptyString)
  end.

(** [RegExp("([0-9]+)([^0-9]+([0-9]+))?").exec(s)]: groups 1 and 3. *)
Definition intrange_exec (s : string) : option (string * option string) :=
  let '(_, from_digit) := span_nondigits s in
  match span_digits from_digit with
  | (EmptyString, _) => None
  | (g1, rest) =>
      let '(sep, rest) := span_nondigits rest in
      match sep, span_digits rest with
      | String _ _, (String c g3, _) => Some (g1, Some (String c g3))
      | _, _ => Some (g1, None)
      end
  end.

(** [\d{1,3}] followed by something that is not a fourth digit taken
    over: the digits and the rest, when there are one to three. *)
Definition digits_1_3 (s : string) : option (string * string) :=
  match span_digits s with
  | (String a EmptyString as d, r)
  | (String a (String _ EmptyString) as d, r)
  | (String a (String _ (String _ EmptyString)) as d, r) => Some (d, r)
  | _ => None
  end.

(** At most three digits, however many follow. *)
Definition digits_upto3 (s : string) : option (string * string) :=
  match span_digits s with
  | (EmptyString, _) => None
  | (d, r) => let p := prefix 3 d in
      Some (p, String.substring 3 (String.length d - 3) d +:+ r)
  end.

(** [\d{1,3}\.] *)
Definition octet_dot (s : string) : option (string * string) :=
  match digits_1_3 s with
  | Some (d, String "." r) => Some (d +:+ ".", r)
  | _ => None
  end.

(** [\d{1,3}\.\d{1,3}\.\d{1,3}\.\d{1,3}(?!\d)] at the front of [s] *)
Definition quad_here (s : string) : option (string * string) :=
  match octet_dot s with
  | Some (a, r) =>
      match octet_dot r with
      | Some (b, r) =>
          match octet_dot r with
          | Some (c, r) =>
              match digits_1_3 r with
              | Some (d, r) => Some (a +:+ b +:+ c +:+ d, r)
              | None => None
              end
          | None => None
          end
      | None => None
      end
  | None => None
  end.

(** [(\d{1,3})(\.\d{1,3}\.\d{1,3}\.\d{1,3})?] at the front of [s] *)
Definition mask_here (s : string) : option string :=
  match digits_upto3 s with
  | None => None
  | Some (a, r) =>
      let tail :=
        match r with
        | String "." r1 =>
            match octet_dot r1 with
            | Some (b, r2) =>
                match octet_dot r2 with
                | Some (c, r3) =>
                    match digits_upto3 r3 with
                    | Some (d, _) => Some ("." +:+ b +:+ c +:+ d)
                    | None => None
                    end
                | None => None
                end
            | None => None
            end
        | _ => None
        end in
      Some (a +:+ default "" tail)
  end.

(** The address/mask expression of the [ip] branch, searched from the
    left: groups 1 and 3 of the first match. *)
Fixpoint ip_exec (s : string) : option (string * option string) :=
  match quad_here s with
  | Some (addr, r) =>
      match trimStart r with
      | String "/" m => Some (addr, mask_here m)
      | _ => Some (addr, None)
      end
  | None =>
      match s with
      | String _ s' => ip_exec s'
      | EmptyString => None
      end
  end.

(** [s.match(/^\d{4}-\d{2}-\d{2}$/)] *)
Definition is_ymd (s : string) : bool :=
  match s with
  | String y1 (String y2 (String y3 (String y4 (String "-"
      (String m1 (String m2 (String "-" (String d1 (String d2 EmptyString))))))))) =>
      forallb is_digit [y1; y2; y3; y4; m1; m2; d1; d2]
  | _ => false
  end.

(** *** Cells, columns, rows *)

(** A cell object: its own properties, [None] when the property is
    missing.  [match_] is the property [match]. *)
Record cell := Cell {
  value : option jsval;
  html : option jsval;
  match_ : option jsval;
  cmp : option jsval;
  cmpMin : option jsval;
  cmpMax : option jsval;
  mask : option jsval;
  htmlAlt : option jsval;
  cssClass : option jsval;
  type : option jsval
}.

Definition emptyCell : cell :=
  Cell None None None None None None None None None None.

Definition set_value v c :=
  Cell v (html c) (match_ c) (cmp c) (cmpMin c)
    (cmpMax c) (mask c) (htmlAlt c) (cssClass c) (type c).
Definition set_html v c :=
  Cell (value c) v (match_ c) (cmp c) (cmpMin c)
    (cmpMax c) (mask c) (htmlAlt c) (cssClass c) (type c).
Definition set_match v c :=
  Cell (value c) (html c) v (cmp c) (cmpMin c)
    (cmpMax c) (mask c) (htmlAlt c) (cssClass c) (type c).
Definition set_cmp v c :=
  Cell (value c) (html c) (match_ c) v (cmpMin c)
    (cmpMax c) (mask c) (htmlAlt c) (cssClass c) (type c).
Definition set_cmpMin v c :=
  Cell (value c) (html c) (match_ c) (cmp c) v
    (cmpMax c) (mask c) (htmlAlt c) (cssClass c) (type c).
Definition set_cmpMax v c :=
  Cell (value c) (html c) (match_ c) (cmp c) (cmpMin c)
    v (mask c) (htmlAlt c) (cssClass c) (type c).
Definition set_mask v c :=
  Cell (value c) (html c) (match_ c) (cmp c) (cmpMin c)
    (cmpMax c) v (htmlAlt c) (cssClass c) (type c).
Definition set_cssClass v c :=
  Cell (value c) (html c) (match_ c) (cmp c) (cmpMin c)
    (cmpMax c) (mask c) (htmlAlt c) v (type c).
Definition set_type v c :=
  Cell (value c) (html c) (match_ c) (cmp c) (cmpMin c)
    (cmpMax c) (mask c) (htmlAlt c) (cssClass c) v.

(** What a row holds under a key: a plain object, or any other value
    (the shorthand form). *)
Inductive slot :=
  | Obj (c : cell)
  | Raw (v : jsval).

(** An entry of [yaml.specs.table]. *)
Record column := Column {
  col_key : string;
  col_type : option string;
  col_htmlAlt : option jsval;
  col_dateFormat : option string
}.

(** [yaml.specs.options] *)
Record options := Options {
  opt_htmlAlt : option jsval;
  opt_dateFormat : option string
}.

(** [obj.p] read as a value *)
Definition read (p : option jsval) : jsval :=
  match p with Some v => v | None => VUndefined end.

(** [$hasProp(cell, p) && $typeOf(cell.p) === "String"] *)
Definition is_string (p : option jsval) : bool :=
  match p with Some (VStr _) => true | _ => false end.

(** [$hasProp(cell, p) && $typeOf(cell.p) === "Number" && !isNaN(cell.p)] *)
Definition is_number (p : option jsval) : bool :=
  match p with Some (VNum n) => negb (isNaN n) | _ => false end.

(** [if (!$hasProp(..) || $typeOf(..) !== "String") cell.p = derived] *)
Definition keep_string (p : option jsval) (derived : jsval) : option jsval :=
  if is_string p then p else Some derived.

Definition keep_number (p : option jsval) (derived : jsval) : option jsval :=
  if is_number p then p else Some derived.

(** [value2array(cell, "cssClass")] *)
Definition value2array (p : option jsval) : jsval :=
  match p with
  | Some (VArray l) => VArray l
  | Some (VStr s) => if (0 <? String.length s)%nat then VArray [VStr s] else VArray []
  | _ => VArray []
  end.

(** [cell.cssClass.push(tag)] *)
Definition push_class (tag : string) (c : cell) : cell :=
  match cssClass c with
  | Some (VArray l) => set_cssClass (Some (VArray (l ++ [VStr tag]))) c
  | _ => c
  end.

(** [new Date(n)]'s time value *)
Definition TimeClip (n : number) : number :=
  match n with
  | Fin q => if Qle_bool (Qabs q) (inject_Z 8640000000000000) then int (trunc n) else NaN
  | _ => NaN
  end.

Section Normalise.
Context `{Host}.
(** [yaml.specs.options] *)
Variable opts : options.

(** [formatDate(date, dateFormat)] on a Date with the given time value *)
Definition formatDate (date : number) (dateFormat : option string) : outcome string :=
  let fmt :=
    match dateFormat with
    | Some (String _ _ as f) => Some f
    | _ => match opt_dateFormat opts with
      | Some (String _ _ as f) => Some f
      | _ => None
      end
    end in
  match moment_format, fmt with
  | Some format, Some f => Done (format date f)
  | _, _ =>
      match iso_date date with
      | Some text => Done text
      | None => Thrown "RangeError: Invalid time value"
      end
  end.

(** [version2hash(ver)] *)
Definition version2hash (ver : jsval) : string :=
  if truthy ver then Version.hash_of_string (ToString ver) else Version.emptyHash.

(** Lines 301-322: the cell object under [row[column.key]], its [type]
    and its [cssClass] array. *)
Definition prepare (entry : option slot) : cell :=
  let as_object :=
    match entry with
    | Some (Obj c) => Some c
    | Some (Raw v) => if String.eqb (typeOf v) "Object" then Some emptyCell else None
    | None => None
    end in
  let c :=
    match as_object, entry with
    | Some c, _ =>
        match value c, html c with
        | None, Some (VStr h) => set_value (Some (VStr (html2text h))) c
        | _, _ => c
        end
    | None, Some (Raw v) => set_value (Some v) emptyCell
    | None, _ => set_value (Some VUndefined) emptyCell
    end in
  let c := set_type (Some (VStr (typeOf (read (value c))))) c in
  set_cssClass (Some (value2array (cssClass c))) c.

(** [column.type === "int"] *)
Definition normalize_int (c : cell) : cell :=
  match read (value c) with
  | VNum n =>
      if negb (isNaN n) then
        let c := set_html (keep_string (html c) (VStr (number_to_string n))) c in
        let c := set_cmp (keep_number (cmp c) (VNum n)) c in
        set_match (keep_string (match_ c) (VStr (toUpperCase (number_to_string n)))) c
      else
        set_match (Some VUndefined) (set_cmp (Some (VNum NInf)) (set_html (Some VUndefined) c))
  | VStr s =>
      if negb (isNaN (StringToNumber s)) then
        let c := set_html (Some (VStr (number_to_string (parseInt s)))) c in
        let c := set_cmp (Some (VNum (parseInt s))) c in
        set_match (cmp c) c
      else
        let c := set_html (Some (VStr (escapeHtml s))) c in
        let c := set_cmp (Some (VNum NInf)) c in
        let c := set_match (Some (VStr (toUpperCase (html2text (escapeHtml s))))) c in
        push_class "bad-value" c
  | _ =>
      set_match (Some VUndefined) (set_cmp (Some (VNum NInf)) (set_html (Some VUndefined) c))
  end.

Definition bad_range (c : cell) : cell :=
  set_match (Some VUndefined)
  (set_cmpMax (Some (VNum NInf)) (set_cmpMin (Some (VNum NInf)) (set_html (Some VUndefined) c))).

(** [column.type === "intrange"] *)
Definition normalize_intrange (c : cell) : cell :=
  match read (value c) with
  | VNum n =>
      if negb (isNaN n) then
        let c := set_html (keep_string (html c) (VStr (number_to_string n))) c in
        let c := set_cmpMin (keep_number (cmpMin c) (VNum n)) c in
        let c := set_cmpMax (keep_number (cmpMax c) (VNum n)) c in
        set_match (keep_string (match_ c) (VStr (toUpperCase (number_to_string n)))) c
      else bad_range c
  | VStr s =>
      match intrange_exec s with
      | Some (g1, g3) =>
          let rangeMin := parseInt g1 in
          let rangeMax := match g3 with Some g => parseInt g | None => rangeMin end in
          let c := set_html (keep_string (html c) (VStr (escapeHtml s))) c in
          let c := set_cmpMin (keep_number (cmpMin c) (VNum rangeMin)) c in
          let c := set_cmpMax (keep_number (cmpMax c) (VNum rangeMax)) c in
          set_match (keep_string (match_ c) (VStr (toUpperCase s))) c
      | None =>
          let c := set_html (Some (VStr (escapeHtml s))) c in
          let c := set_cmpMin (Some (VNum NInf)) c in
          let c := set_cmpMax (Some (VNum NInf)) c in
          let c := set_match (Some (VStr (toUpperCase (html2text (escapeHtml s))))) c in
          push_class "bad-value" c
      end
  | _ => bad_range c
  end.

(** The text under [cell.html] once it is known to be a string. *)
Definition html_text (c : cell) : string :=
  match html c with Some (VStr h) => h | _ => "" end.

(** [column.type === "ip"] *)
Definition normalize_ip (c : cell) : cell :=
  match read (value c) with
  | VStr s =>
      let c := set_html (keep_string (html c) (VStr (escapeHtml s))) c in
      let c := set_match (keep_string (match_ c) (VStr (toUpperCase (html2text (html_text c))))) c in
      let matches := ip_exec s in
      let ipAddr := match matches with Some (addr, _) => ip2long addr | None => int 0 end in
      let maskStr := match matches with Some (_, Some m) => m | _ => "32" end in
      let ipMask := if includes "." maskStr then VNum (ip2long maskStr)
                    else cidr2long (parseInt maskStr) in
      let c := set_cmpMin (keep_number (cmpMin c)
                           (VNum (ushr0 (bitand (VNum ipAddr) ipMask)))) c in
      let c := set_cmpMax (keep_number (cmpMax c)
                           (VNum (ushr0 (Z.lor (ToInt32 ipAddr) (bitnot ipMask))))) c in
      let c :=
        match mask c with
        | Some m =>
            if negb (String.eqb (typeOf (read (cmpMax c))) "Number") || isNaN_value m
            then set_mask (Some ipMask) c else c
        | None => set_mask (Some ipMask) c
        end in
      if nonzero ipAddr then c else push_class "bad-value" c
  | _ => bad_range c
  end.

Definition bad_scalar (fallback : jsval) (c : cell) : cell :=
  set_html (Some VUndefined) (set_match (Some VUndefined) (set_cmp (Some fallback) c)).

(** [column.type === "date"] *)
Definition normalize_date (dateFormat : option string) (c : cell) : outcome cell :=
  let v := read (value c) in
  let dated (date : number) : outcome cell :=
    let! c := (if is_string (html c) then Done c
               else let! text := formatDate date dateFormat in
                 Done (set_html (Some (VStr (escapeHtml text))) c)) in
    let c := set_cmp (keep_number (cmp c) (VNum date)) c in
    Done (set_match (keep_string (match_ c) (VStr (toUpperCase (html2text (html_text c))))) c) in
  match v with
  | VDate t => if negb (isNaN t) then dated t else Done (bad_scalar (VNum (int 0)) c)
  | VNum n =>
      if lt (int 0) n then
        dated (TimeClip (if lt n (int 10000000000) then mul n (int 1000) else n))
      else Done (bad_scalar (VNum (int 0)) c)
  | VStr s =>
      let c := set_html (keep_string (html c) (VStr (escapeHtml s))) c in
      let c := set_match (keep_string (match_ c) (VStr (toUpperCase (html2text (html_text c))))) c in
      let date := date_parse (if is_ymd s then s +:+ "T12:00:00Z" else s) in
      if negb (isNaN date) then Done (set_cmp (keep_number (cmp c) (VNum date)) c)
      else Done (push_class "bad-value" (set_cmp (Some (VNum (int 0))) c))
  | _ => Done (bad_scalar (VNum (int 0)) c)
  end.

(** [column.type === "version"] *)
Definition normalize_version (c : cell) : cell :=
  let v := read (value c) in
  let ok := match v with
    | VStr _ => true
    | VNum n => lt (int 0) n
    | _ => false
    end in
  if ok then
    let c := set_html (keep_string (html c) (VStr (escapeHtml (ToString v)))) c in
    let c := set_cmp (keep_string (cmp c) (VStr (version2hash v))) c in
    set_match (keep_string (match_ c) (VStr (toUpperCase (html2text (html_text c))))) c
  else bad_scalar (VStr "") c.

(** The fallback branch: [str] and every other declared type. *)
Definition normalize_str (c : cell) : cell :=
  match read (value c) with
  | VStr s =>
      let c := set_html (keep_string (html c) (VStr (escapeHtml s))) c in
      let c := set_cmp (keep_string (cmp c) (VStr (toUpperCase s))) c in
      set_match (keep_string (match_ c) (VStr (toUpperCase (html2text (html_text c))))) c
  | VNum n =>
      if negb (isNaN n) then
        let c := set_html (Some (VStr (escapeHtml (number_to_string n)))) c in
        let c := set_cmp (Some (VStr (toUpperCase (number_to_string n)))) c in
        set_match (cmp c) c
      else bad_scalar (VStr "") c
  | VBool b =>
      let c := set_html (Some (VStr (escapeHtml (ToString (VBool b))))) c in
      let c := set_cmp (Some (VStr (toUpperCase (ToString (VBool b))))) c in
      set_match (cmp c) c
  | _ => bad_scalar (VStr "") c
  end.

(** The display text of a bad value: the cell's, the column's or the
    table's [htmlAlt] if it is a string, else the class name of the value. *)
Definition fallback_choice (column_htmlAlt cell_htmlAlt cell_type : option jsval)
    : option jsval :=
  if is_string cell_htmlAlt then cell_htmlAlt
  else if is_string column_htmlAlt then column_htmlAlt
  else if is_string (opt_htmlAlt opts) then opt_htmlAlt opts
  else cell_type.

(** Lines 595-612: what happens to a cell whose [html] is [undefined]. *)
Definition fallback_html (column_htmlAlt : option jsval) (c : cell) : cell :=
  match read (html c) with
  | VUndefined =>
      let c := set_html (fallback_choice column_htmlAlt (htmlAlt c) (type c)) c in
      let c := set_match (Some (VStr (toUpperCase (html2text (html_text c))))) c in
      push_class "bad-value" c
  | _ => c
  end.

Definition type_is (col : column) (t : string) : bool :=
  match col_type col with Some x => String.eqb x t | None => false end.

(** Lines 614-631: the representations that must not exist go away. *)
Definition cleanse (col : column) (c : cell) : cell :=
  let c :=
    if type_is col "intrange" || type_is col "ip" then set_cmp None c
    else set_cmpMax None (set_cmpMin None c) in
  if negb (type_is col "ip") then set_mask None c else c.

(** [normalizeValue] from line 318 on, on the cell object. *)
Definition normalize_cell (col : column) (c : cell) : outcome cell :=
  let! c :=
    (if type_is col "int" then Done (normalize_int c)
     else if type_is col "intrange" then Done (normalize_intrange c)
     else if type_is col "ip" then Done (normalize_ip c)
     else if type_is col "date" then normalize_date (col_dateFormat col) c
     else if type_is col "version" then Done (normalize_version c)
     else Done (normalize_str c)) in
  Done (cleanse col (fallback_html (col_htmlAlt col) c)).

(** [normalizeValue(row, column)]: the row with the cell normalised
    in place. *)
Definition normalizeValue (row : gmap string slot) (col : column)
    : outcome (gmap string slot) :=
  let! c := normalize_cell col (prepare (row !! col_key col)) in
  Done (<[col_key col := Obj c]> row).

End Normalise.

End Common.

(** ** Filtering and sorting (filtersort.js) *)

Module FilterSort.
Import JsString Js Common.

(** The operator table [op] with its precedences, in insertion order. *)
Definition op : list (string * Z) :=
  [("==", 3); ("=", 3); ("!=", 3); ("~", 3); ("!~", 3); ("@=", 3);
   ("<", 3); (">", 3); ("AND", 2); ("OR", 1)].

Fixpoint assoc (k : string) (l : list (string * Z)) : option Z :=
  match l with
  | [] => None
  | (k', v) :: l' => if String.eqb k k' then Some v else assoc k l'
  end.

(** [$hasProp(op, token)] for a string *)
Definition is_op (token : string) : bool :=
  match assoc token op with Some _ => true | None => false end.

(** [$hasProp(op, token)] for any array element: the key of a number, a
    boolean or a regular expression is never an operator. *)
Definition has_op (token : jsval) : bool :=
  match token with VStr s => is_op s | _ => false end.

(** *** The tokenizer *)

Definition is_word (c : ascii) : bool :=
  is_digit c
  || ((65 <=? code c)%N && (code c <=? 90)%N)
  || ((97 <=? code c)%N && (code c <=? 122)%N)
  || (code c =? 95)%N.

Fixpoint drop (n : nat) (s : string) : string :=
  match n, s with
  | S n', String _ s' => drop n' s'
  | _, _ => s
  end.

(** Number of white-space characters at the front. *)
Fixpoint spaces (s : string) : nat :=
  match s with
  | String c s' => if is_space c then S (spaces s') else O
  | EmptyString => O
  end.

(** Whether [t] is at the front of [s]; with [ci], up to letter case. *)
Fixpoint starts_with (ci : bool) (t s : string) : bool :=
  match t, s with
  | EmptyString, _ => true
  | String x t', String y s' =>
      (if ci then Ascii.eqb (upper_char x) (upper_char y) else Ascii.eqb x y)
      && starts_with ci t' s'
  | String _ _, EmptyString => false
  end.

(** The double quote character. *)
Definition dquote : ascii := "034"%char.

(** Characters up to and including the next double quote. *)
Fixpoint until_quote (s : string) : option nat :=
  match s with
  | EmptyString => None
  | String c s' =>
      if Ascii.eqb c dquote then Some 1%nat
      else option_map S (until_quote s')
  end.

(** Length of a quoted literal at the front of [s]: a double quote, any
    characters but a double quote, a double quote. *)
Definition quoted (s : string) : option nat :=
  match s with
  | String c s' => if Ascii.eqb c dquote then option_map S (until_quote s') else None
  | EmptyString => None
  end.

(** First alternative of the list at the front of [s], its length. *)
Fixpoint first_literal (alts : list string) (s : string) : option nat :=
  match alts with
  | [] => None
  | t :: alts' =>
      if starts_with false t s then Some (String.length t) else first_literal alts' s
  end.

(** [str.match(regex.nonWords)]: the length of [match[0]].  The tokens
    are joined into the expression as they are and read here as literal
    text, which is what the expression means as long as no token holds a
    character that is special in an expression; the operator symbols of
    the program hold none. *)
Definition match_nonWords (nonWordTokens : list string) (str : string) : option nat :=
  let lead := spaces str in
  let s := drop lead str in
  let alt :=
    match quoted s with
    | Some n => Some n
    | None => first_literal (nonWordTokens ++ ["!("; "NOT("; ")"; "("]) s
    end in
  match alt with
  | Some n => Some (lead + n + spaces (drop n s))%nat
  | None => None
  end.

Definition last_char (s : string) : option ascii :=
  match String.rev s with
  | String c _ => Some c
  | EmptyString => None
  end.

Definition word_at (c : option ascii) : bool :=
  match c with Some c => is_word c | None => false end.

Definition head_char (s : string) : option ascii :=
  match s with String c _ => Some c | EmptyString => None end.

(** [\s*\b] after an alternative that matched [n] characters of [s]:
    the number of white-space characters taken, greedily. *)
Definition spaces_then_boundary (n : nat) (s : string) : option nat :=
  let rest := drop n s in
  let k := spaces rest in
  if (0 <? k)%nat && word_at (head_char (drop k rest)) then Some k
  else if xorb (word_at (last_char (prefix n s))) (word_at (head_char rest))
  then Some O
  else None.

Fixpoint first_word (alts : list string) (s : string) : option nat :=
  match alts with
  | [] => None
  | t :: alts' =>
      if starts_with true t s then
        match spaces_then_boundary (String.length t) s with
        | Some k => Some (String.length t + k)%nat
        | None => first_word alts' s
        end
      else first_word alts' s
  end.

(** [str.match(regex.words)]: the length of [match[0]].  The keys are
    joined into the expression as they are and read here as literal
    text, which is what the expression means as long as no key holds a
    character that is special in an expression (an identifier holds
    none). *)
Definition match_words (wordTokens : list string) (str : string) : option nat :=
  if word_at (head_char str) then first_word wordTokens str else None.

Fixpoint span_unquoted (s : string) : nat :=
  match s with
  | String c s' =>
      if is_space c || Ascii.eqb c "(" || Ascii.eqb c ")" then O
      else S (span_unquoted s')
  | EmptyString => O
  end.

(** [str.match(regex.unquoted)] *)
Definition match_unquoted (str : string) : option nat :=
  let lead := spaces str in
  match span_unquoted (drop lead str) with
  | O => None
  | n => Some (lead + n)%nat
  end.

(** One turn of the [while (str)] loop on a non-empty remainder: the
    number of characters consumed. *)
Definition consume (wordTokens nonWordTokens : list string) (str : string) : nat :=
  match match_nonWords nonWordTokens str with
  | Some n => n
  | None =>
      match match_words wordTokens str with
      | Some n => n
      | None =>
          match match_unquoted str with
          | Some n => n
          | None => String.length str
          end
      end
  end.

(** The loop, [fuel] turns at most; [None] when they do not suffice. *)
Fixpoint scan (fuel : nat) (wordTokens nonWordTokens : list string) (str : string)
    : option (list string) :=
  match str with
  | EmptyString => Some []
  | String _ _ =>
      match fuel with
      | O => None
      | S fuel' =>
          let n := consume wordTokens nonWordTokens str in
          option_map (cons (trim (prefix n str)))
          (scan fuel' wordTokens nonWordTokens (drop n str))
      end
  end.

(** [getTokens(input, wordTokens, nonWordTokens)]; every turn but one on
    an empty key consumes a character, hence the fuel. *)
Definition getTokens (input : string) (wordTokens nonWordTokens : list string)
    : option (list string) :=
  match wordTokens, nonWordTokens with
  | [], _ | _, [] => Some []
  | _, _ => scan (String.length input) wordTokens nonWordTokens input
  end.

(** *** Shunting yard *)

(** [peek(stack)] and the pending operators it sends to the output:
    [while ($hasProp(op, peek(stack)) && op[tokenUpper] <= op[peek(stack)])] *)
Fixpoint unwind_ops (p : Z) (stack output : list string) : list string * list string :=
  match stack with
  | top :: stack' =>
      match assoc top op with
      | Some q => if p <=? q then unwind_ops p stack' (output ++ [top])
                  else (stack, output)
      | None => (stack, output)
      end
  | [] => (stack, output)
  end.

Definition is_opening (t : string) : bool :=
  String.eqb t "(" || String.eqb t "!(" || String.eqb t "NOT(".

(** The loop of the [")"] case, down to the opening marker, which is
    returned.  On a stack without a marker the loop never ends
    ([peek] keeps answering [undefined]): [None]. *)
Fixpoint unwind_group (stack output : list string)
    : option (string * list string * list string) :=
  match stack with
  | top :: stack' =>
      if is_opening top then Some (top, stack', output)
      else unwind_group stack' (output ++ [top])
  | [] => None
  end.

(** The callback of [tokens.reduce]; the head of [stack] is its top. *)
Definition rpn_step (acc : option (list string * list string)) (token : string)
    : option (list string * list string) :=
  match acc with
  | None => None
  | Some (stack, output) =>
      let tokenUpper := toUpperCase token in
      match assoc tokenUpper op with
      | Some p =>
          let '(stack, output) := unwind_ops p stack output in
          Some (tokenUpper :: stack, output)
      | None =>
          if String.eqb token "(" || String.eqb token "!(" || String.eqb tokenUpper "NOT(" then
            Some (token :: stack, output)
          else if String.eqb token ")" then
            match unwind_group stack output with
            | Some (marker, stack, output) =>
                Some (stack, if String.eqb marker "(" then output else output ++ ["!"])
            | None => None
            end
          else Some (stack, output ++ [token])
      end
  end.

(** [tokensToRPN(tokens)] *)
Definition tokensToRPN (tokens : list string) : option (list string) :=
  match fold_left rpn_step tokens (Some ([], [])) with
  | Some (stack, output) => Some (output ++ stack)
  | None => None
  end.

(** *** The dry run *)

(** The objects [{token, idx}] of the validator's stack. *)
Record operand := Operand { token : string; idx : Z }.

Definition placeholder : operand := Operand "" (-1).

(** [filterRPN[i] = v]; at [-1] the assignment makes a property of that
    name and leaves the elements alone. *)
Definition store (i : Z) (v : jsval) (filterRPN : list jsval) : list jsval :=
  if i <? 0 then filterRPN else <[Z.to_nat i := v]> filterRPN.

(** [typeMap[column.key] = column.type || "str"] over the table.  The
    map holds the own properties of the plain object [typeMap]: a string
    assigned to [__proto__] goes to the setter it inherits, which drops
    it, and makes no property. *)
Definition fill_typeMap (table : list column) (typeMap : gmap string string)
    : gmap string string :=
  fold_left (fun m column =>
             if String.eqb (col_key column) "__proto__" then m
             else
               <[col_key column :=
                 match col_type column with
                 | Some (String _ _ as t) => t
                 | _ => "str"
                 end]> m)
  table typeMap.

(** The module state: the lazily filled [typeMap] and [filterTokens],
    and the [display] array shared with main.js. *)
Record state := State {
  typeMap : gmap string string;
  word : list string;
  nonWord : list string;
  display : list Z
}.

Section Engine.
Context `{Host}.
(** [yaml.specs.table] *)
Variable table : list column.

(** The conversion of an address literal, shared by the order
    operators on [ip] and by [@=]: the error, if any, and the array. *)
Definition check_ip (o2 : operand) (filterRPN : list jsval)
    : option string * list jsval :=
  let v := ip2long (token o2) in
  if negb (nonzero v) then (Some ("Bad IP address: " +:+ token o2), filterRPN)
  else (None, store (idx o2) (VNum v) filterRPN).

(** [typeMap[o1.token] || "str"] *)
Definition type_of_field (typeMap : gmap string string) (name : string) : string :=
  match typeMap !! name with
  | Some (String _ _ as t) => t
  | _ => "str"
  end.

(** The operator case of the callback once both operands are there:
    the error that stops the loop, if any, and the array. *)
Definition check_operator (typeMap : gmap string string) (tok : string)
    (o1 o2 : operand) (filterRPN : list jsval) : option string * list jsval :=
  if negb (idx o1 =? -1) && negb (bool_decide (is_Some (typeMap !! token o1))) then
    (Some ("Invalid field name: " +:+ token o1), filterRPN)
  else
    let '(o2, filterRPN) :=
      match token o2 with
      | String c _ =>
          if Ascii.eqb c dquote then
            let t := substring 1 (Z.of_nat (String.length (token o2)) - 1) (token o2) in
            (Operand t (idx o2), store (idx o2) (VStr t) filterRPN)
          else (o2, filterRPN)
      | EmptyString => (o2, filterRPN)
      end in
    if String.eqb tok "==" || String.eqb tok "=" || String.eqb tok "!=" then
      (None, store (idx o2) (VStr (toUpperCase (token o2))) filterRPN)
    else if String.eqb tok "~" || String.eqb tok "!~" then
      if regexp_ok (token o2) then (None, store (idx o2) (VRegExp (token o2)) filterRPN)
      else (Some ("Invalid regular expression: " +:+ token o2), filterRPN)
    else if String.eqb tok "<" || String.eqb tok ">" then
      let type := type_of_field typeMap (token o1) in
      if String.eqb type "ip" then check_ip o2 filterRPN
      else if String.eqb type "date" then
        if negb (is_ymd (token o2)) then
          (Some ("Bad date format (use YYYY-MM-DD): " +:+ token o2), filterRPN)
        else
          let v := date_parse (token o2 +:+ "T12:00:00Z") in
          if negb (nonzero v) || lt v (int 934366740000) || lt (int 2147483647000) v then
            (Some ("Unsupported date: " +:+ token o2), filterRPN)
          else (None, store (idx o2) (VNum v) filterRPN)
      else if String.eqb type "int" || String.eqb type "intrange" then
        let n := parseInt (token o2) in
        (None, store (idx o2) (VNum (if nonzero n then n else int 0)) filterRPN)
      else if String.eqb type "version" then
        (None, store (idx o2) (VStr (version2hash (VStr (token o2)))) filterRPN)
      else if String.eqb type "str" then
        (None, store (idx o2) (VStr (toUpperCase (token o2))) filterRPN)
      else (None, filterRPN)
    else if String.eqb tok "@=" then
      if negb (bool_decide (typeMap !! token o1 = Some "ip")) then
        (Some "@= operator can only be used with IP-like fields", filterRPN)
      else check_ip o2 filterRPN
    else (None, filterRPN).

(** The callback of [filterRPN.every]: the error that stops the loop,
    if any, then the stack and the array after this token. *)
Definition check_step (typeMap : gmap string string) (tok : string) (index : nat)
    (stack : list operand) (filterRPN : list jsval)
    : option string * list operand * list jsval :=
  if is_op tok then
    match stack with
    | o2 :: o1 :: stack' =>
        match check_operator typeMap tok o1 o2 filterRPN with
        | (Some e, filterRPN) => (Some e, stack', filterRPN)
        | (None, filterRPN) => (None, placeholder :: stack', filterRPN)
        end
    | _ => (Some "Filter syntax error (1)", [], filterRPN)
    end
  else if String.eqb tok "!" then
    match stack with
    | o1 :: stack' => (None, placeholder :: stack', filterRPN)
    | [] => (Some "Filter syntax error (2)", [], filterRPN)
    end
  else (None, Operand tok (Z.of_nat index) :: stack, filterRPN).

(** [filterRPN.every(...)] from [index] on.  [tokens] are the elements
    not yet visited: the callback only writes to slots it has passed,
    so each one is read as the string it was at the start. *)
Fixpoint check_loop (typeMap : gmap string string) (tokens : list string) (index : nat)
    (stack : list operand) (filterRPN : list jsval)
    : option string * list operand * list jsval :=
  match tokens with
  | [] => (None, stack, filterRPN)
  | tok :: tokens' =>
      match check_step typeMap tok index stack filterRPN with
      | (Some e, stack, filterRPN) => (Some e, stack, filterRPN)
      | (None, stack, filterRPN) => check_loop typeMap tokens' (S index) stack filterRPN
      end
  end.

(** [checkFilter(filterRPN)]: the result ([true] or the message), the
    array as the dry run leaves it, and the type map. *)
Definition checkFilter (typeMap : gmap string string) (filterRPN : list string)
    : jsval * list jsval * gmap string string :=
  let typeMap := if bool_decide (typeMap = ∅) then fill_typeMap table typeMap else typeMap in
  match check_loop typeMap filterRPN 0 [] (VStr <$> filterRPN) with
  | (Some e, _, rpn) => (VStr e, rpn, typeMap)
  | (None, stack, rpn) =>
      (if (length stack =? 1)%nat then VBool true else VStr "Filter syntax error (3)",
         rpn, typeMap)
  end.

(** *** Evaluation *)

(** The names every plain object inherits from [Object.prototype]. *)
Definition inherited : list string :=
  ["constructor"; "hasOwnProperty"; "isPrototypeOf"; "propertyIsEnumerable";
   "toLocaleString"; "toString"; "valueOf"; "__proto__";
   "__defineGetter__"; "__defineSetter__"; "__lookupGetter__"; "__lookupSetter__"].

(** [data[rowID][o1]] as the object whose properties are read next.
    [data[rowID]] or the property may be [undefined], and reading a
    property of [undefined] is a TypeError; an inherited member is an
    object without any of the cell properties. *)
Definition cell_at (data : list (gmap string cell)) (rowID : Z) (o1 : jsval)
    : outcome cell :=
  match (if rowID <? 0 then None else data !! Z.to_nat rowID) with
  | None => Thrown "TypeError"
  | Some row =>
      match row !! ToString o1 with
      | Some c => Done c
      | None =>
          if bool_decide (ToString o1 ∈ inherited) then Done emptyCell
          else Thrown "TypeError"
      end
  end.

(** The operator case of the callback of [filterRPN.forEach]: the
    value [res]. *)
Definition eval_operator (data : list (gmap string cell)) (rowID : Z)
    (tok : string) (o1 o2 : jsval) : outcome jsval :=
  if String.eqb tok "=" || String.eqb tok "==" then
    let! c := cell_at data rowID o1 in
    Done (VBool (strict_eq (read (match_ c)) o2))
  else if String.eqb tok "!=" then
    let! c := cell_at data rowID o1 in
    Done (VBool (negb (strict_eq (read (match_ c)) o2)))
  else if String.eqb tok "~" || String.eqb tok "!~" then
    match o2 with
    | VRegExp src =>
        let! c := cell_at data rowID o1 in
        let r := regexp_test src (ToString (read (match_ c))) in
        Done (VBool (if String.eqb tok "~" then r else negb r))
    | _ => Thrown "TypeError"
    end
  else if String.eqb tok "@=" then
    let! c := cell_at data rowID o1 in
    Done (VBool (strict_eq (read (cmpMin c)) (VNum (ushr0 (bitand o2 (read (mask c)))))))
  else if String.eqb tok "<" then
    let! c := cell_at data rowID o1 in
    let o1 := if bool_decide (is_Some (cmpMax c)) then read (cmpMax c) else read (cmp c) in
    Done (VBool (less o1 o2))
  else if String.eqb tok ">" then
    let! c := cell_at data rowID o1 in
    let o1 := if bool_decide (is_Some (cmpMin c)) then read (cmpMin c) else read (cmp c) in
    Done (VBool (less o2 o1))
  else if String.eqb tok "AND" then Done (VNum (int (bitand o1 o2)))
  else if String.eqb tok "OR" then Done (VNum (int (bitor o1 o2)))
  else Done VUndefined.

(** [stack.pop()]: the popped value, [undefined] on an empty stack. *)
Definition pop (stack : list jsval) : jsval * list jsval :=
  match stack with
  | v :: stack' => (v, stack')
  | [] => (VUndefined, [])
  end.

(** The callback of [filterRPN.forEach] for one row. *)
Definition eval_step (data : list (gmap string cell)) (rowID : Z)
    (stack : list jsval) (tok : jsval) : outcome (list jsval) :=
  match tok with
  | VStr t =>
      if is_op t then
        let '(o2, stack) := pop stack in
        let '(o1, stack) := pop stack in
        let! res := eval_operator data rowID t o1 o2 in
        Done (res :: stack)
      else if String.eqb t "!" then
        let '(o1, stack) := pop stack in
        Done (VBool (negb (truthy o1)) :: stack)
      else Done (tok :: stack)
  | _ => Done (tok :: stack)
  end.

(** [filterRPN.forEach(...)] on the stack of one row. *)
Fixpoint replay (data : list (gmap string cell)) (rowID : Z)
    (stack : list jsval) (filterRPN : list jsval) : outcome (list jsval) :=
  match filterRPN with
  | [] => Done stack
  | tok :: rest =>
      let! stack := eval_step data rowID stack tok in
      replay data rowID stack rest
  end.

(** [x & 1048575] and [x | 1048576] on an entry of [display] *)
Definition int32 (x : Z) : Z := (x + 2 ^ 31) mod 2 ^ 32 - 2 ^ 31.
Definition unhide (x : Z) : Z := Z.land (int32 x) 1048575.
Definition hide (x : Z) : Z := Z.lor (int32 x) 1048576.

(** [display.every(...)] of [runFilter] from some position on: the
    entries as they are left, and how the walk ends.  [Done true]
    is the end of the array, [Done] of a message the error branch. *)
Fixpoint run_rows (data : list (gmap string cell)) (filterRPN : list jsval)
    (display : list Z) : list Z * outcome jsval :=
  match display with
  | [] => ([], Done (VBool true))
  | entry :: display' =>
      match replay data (unhide entry) [] filterRPN with
      | Thrown e => (display, Thrown e)
      | Done [v] =>
          let '(display', r) := run_rows data filterRPN display' in
          ((if truthy v then unhide entry else hide entry) :: display', r)
      | Done _ => (display, Done (VStr "Filter syntax error (4)"))
      end
  end.

(** [runFilter(filterRPN)] *)
Definition runFilter (data : list (gmap string cell)) (filterRPN : list jsval)
    (display : list Z) : list Z * outcome jsval :=
  run_rows data filterRPN display.

(** *** The whole filter *)

(** [list.sort((a, b) => ...)] on a comparator that always answers:
    the stable arrangement, built by insertion from the right. *)
Fixpoint insert_by {A} (cmp : A -> A -> Z) (x : A) (l : list A) : list A :=
  match l with
  | [] => [x]
  | y :: l' => if cmp x y <=? 0 then x :: l else y :: insert_by cmp x l'
  end.

Definition sort_by {A} (cmp : A -> A -> Z) (l : list A) : list A :=
  foldr (insert_by cmp) [] l.

(** The comparator of both token lists: longer tokens first. *)
Definition by_length (a b : string) : Z :=
  let x := String.length a in
  let y := String.length b in
  if (y <? x)%nat then -1 else if (x <? y)%nat then 1 else 0.

(** [token.match(/^[a-z]/i)] *)
Definition word_like (t : string) : bool :=
  match t with
  | String c _ => ((65 <=? code c)%N && (code c <=? 90)%N)
  || ((97 <=? code c)%N && (code c <=? 122)%N)
  | EmptyString => false
  end.

(** [filterTokens.word] and [filterTokens.nonWord] once the two
    [if (... .length === 0)] blocks of [filterData] are through. *)
Definition wordTokens (st : state) : list string :=
  match word st with
  | [] => sort_by by_length
      ((col_key <$> table) ++ List.filter word_like (fst <$> op))
  | w => w
  end.

Definition nonWordTokens (st : state) : list string :=
  match nonWord st with
  | [] => sort_by by_length (List.filter (fun t => negb (word_like t)) (fst <$> op))
  | w => w
  end.

(** [filterData(filter)].  [None] stands for a call that does not come
    back: a loop of the tokenizer or of the parser that never ends. *)
Definition filterData (data : list (gmap string cell)) (filter : string) (st : state)
    : option (state * outcome jsval) :=
  if String.eqb filter "" then Some (st, Done (VBool false))
  else
    let st := State (typeMap st) (wordTokens st) (nonWordTokens st) (display st) in
    match getTokens filter (word st) (nonWord st) with
    | None => None
    | Some tokens =>
        if (2 <? length tokens)%nat then
          match tokensToRPN tokens with
          | None => None
          | Some filterRPN =>
              let '(result, filterRPN, typeMap) := checkFilter (typeMap st) filterRPN in
              let st := State typeMap (word st) (nonWord st) (display st) in
              match result with
              | VBool true =>
                  let '(display, result) := runFilter data filterRPN (display st) in
                  Some (State typeMap (word st) (nonWord st) display, result)
              | _ => Some (st, Done result)
              end
          end
        else Some (st, Done (VBool false))
    end.

(** *** Sorting *)

(** The comparator of [sortData]. *)
Definition compare_rows (data : list (gmap string cell)) (colKey : string)
    (order : bool) (a b : Z) : outcome Z :=
  let a := unhide a in
  let b := unhide b in
  let! ca := cell_at data a (VStr colKey) in
  let! keys :=
    (if bool_decide (is_Some (cmpMin ca)) then
       if order then
         let! cb := cell_at data b (VStr colKey) in
         Done (read (cmpMin ca), read (cmpMin cb))
       else
         let! cb := cell_at data b (VStr colKey) in
         Done (read (cmpMax ca), read (cmpMax cb))
     else
       let! cb := cell_at data b (VStr colKey) in
       Done (read (cmp ca), read (cmp cb))) in
  let '(a, b) := keys in
  Done (if order then (if less b a then 1 else if less a b then -1 else 0)
        else (if less a b then 1 else if less b a then -1 else 0)).

(** [display.sort(comparator)]: the sort is stable, so when the
    comparator is a consistent order the outcome is the one
    arrangement that insertion builds; an exception of the comparator
    ends the sort. *)
Fixpoint insert_row (cmp : Z -> Z -> outcome Z) (x : Z) (l : list Z) : outcome (list Z) :=
  match l with
  | [] => Done [x]
  | y :: l' =>
      let! c := cmp x y in
      if c <=? 0 then Done (x :: l)
      else let! r := insert_row cmp x l' in Done (y :: r)
  end.

Fixpoint sort_rows (cmp : Z -> Z -> outcome Z) (l : list Z) : outcome (list Z) :=
  match l with
  | [] => Done []
  | x :: l' => let! s := sort_rows cmp l' in insert_row cmp x s
  end.

(** [sortData(colKey, order)]: the new [display]. *)
Definition sortData (data : list (gmap string cell)) (colKey : string) (order : bool)
    (display : list Z) : outcome (list Z) :=
  sort_rows (compare_rows data colKey order) display.

End Engine.

End FilterSort.

(** ** A platform and a small table to run the engine on *)

Module Sample.
Import Js Common FilterSort.

(** A platform for plain text: the DOM helper leaves text without
    markup as it is, every expression compiles and none matches, no
    date parses, moment.js is not loaded. *)
Definition plain_host : Host := {|
    float_to_string := fun _ => "0.5";
    object_to_number := fun _ => NaN;
    object_to_string := fun _ => "[object Object]";
    regexp_ok := fun _ => true;
    regexp_test := fun _ _ => false;
    date_parse := fun _ => NaN;
    escapeHtml := fun text => text;
    html2text := fun text => text;
    moment_format := None;
    iso_date := fun _ => Some "1970-01-01"
    |}.

Definition no_options : options := Options None None.

Definition col (key : string) (type : option string) : column :=
  Column key type None None.

(** Columns [label] (str), [src] (ip) and [ports] (intrange). *)
Definition table : list column :=
  [col "label" (Some "str"); col "src" (Some "ip"); col "ports" (Some "intrange")].

(** A cell as [normalizeValue] leaves it for a shorthand value. *)
Definition normalized (c : column) (v : jsval) : cell :=
  match normalize_cell (H := plain_host) no_options c (prepare (H := plain_host) (Some (Raw v))) with
  | Done c => c
  | Thrown _ => emptyCell
  end.

Definition row (label src ports : string) : gmap string cell :=
  {[ "label" := normalized (col "label" (Some "str")) (VStr label);
    "src" := normalized (col "src" (Some "ip")) (VStr src);
    "ports" := normalized (col "ports" (Some "intrange")) (VStr ports) ]}.

Definition data : list (gmap string cell) :=
  [row "web" "10.1.2.3/24" "80-443"; row "dns" "10.1.2.9" "53"; row "alt" "10.0.0.1" "80-8080"].

End Sample.

(** ** The display array in main.js *)

Module Main.
Import JsString Js Common FilterSort.

(** [display.push(...data.keys())] of [init], on the empty [display] *)
Definition initial_display {A} (data : list A) : list Z :=
  Z.of_nat <$> seq 0 (length data).

(** [display.forEach((_unused, key) => display[key] &= 1048575)], the
    loop of [clearFilter] and of [resetDataFilterSort] *)
Definition show_all (display : list Z) : list Z := unhide <$> display.

(** [rowID & 1048576] as a condition *)
Definition hidden (rowID : Z) : bool := negb (Z.land (int32 rowID) 1048576 =? 0).

(** [display.filter(rowID => !(rowID & 1048576))] of [renderBody] and
    of [exportData] *)
Definition visibleRows (display : list Z) : list Z :=
  List.filter (fun rowID => negb (hidden rowID)) display.

(** [yaml.specs.table.forEach(column => normalizeValue(row, column))]
    of [preRenderBody] *)
Definition normalize_row `{Host} (opts : options) (table : list column)
    (row : gmap string slot) : outcome (gmap string slot) :=
  foldl (fun acc column => let! row := acc in normalizeValue opts row column)
    (Done row) table.

(** The loop of [preRenderBody] over [data], as far as the cells go. *)
Fixpoint normalize_rows `{Host} (opts : options) (table : list column)
    (data : list (gmap string slot)) : outcome (list (gmap string slot)) :=
  match data with
  | [] => Done []
  | row :: data' =>
      let! row := normalize_row opts table row in
      let! data' := normalize_rows opts table data' in
      Done (row :: data')
  end.

(** A row as the filter and the sort read it: its cell objects. *)
Definition cells_of (row : gmap string slot) : gmap string cell :=
  omap (fun entry => match entry with Obj c => Some c | Raw _ => None end) row.

(** [/[\s<>()!=~@]/] on one character *)
Definition operator_like (c : ascii) : bool :=
  is_space c || existsb (Ascii.eqb c) ["<"; ">"; "("; ")"; "!"; "="; "~"; "@"]%char.

(** [value.match(/[\s<>()!=~@]/)] as a condition *)
Fixpoint has_special (value : string) : bool :=
  match value with
  | EmptyString => false
  | String c value' => operator_like c || has_special value'
  end.

(** The keys held down during the click *)
Record modifiers := Modifiers { altKey : bool; ctrlKey : bool; shiftKey : bool }.

(** [$("#filter").value = text] and what [$("#filter").value] gives
    afterwards: [#filter] is an [input] element without a [type], a
    one-line text field, and such a field keeps the text without its
    line feeds and carriage returns. *)
Fixpoint input_value (text : string) : string :=
  match text with
  | EmptyString => EmptyString
  | String c text' =>
      if Ascii.eqb c "010" || Ascii.eqb c "013" then input_value text'
      else String c (input_value text')
  end.

(** [createFilter(event)] for a click on a table cell: the text that the
    filter input holds afterwards.  [field] is the key of the clicked
    column, [value] the text of the cell and [input] the text that the
    filter input held. *)
Definition createFilter (field value : string) (event : modifiers) (input : string) : string :=
  let quote :=
    if String.eqb value "" || has_special value then String dquote "" else "" in
  let filter :=
    field +:+ (if altKey event then " ~ " else " = ") +:+ quote +:+ value +:+ quote in
  if ctrlKey event then
    input_value (input +:+ (if String.eqb input "" then "" else " AND ") +:+ filter)
  else if shiftKey event then
    input_value (input +:+ (if String.eqb input "" then "" else " OR ") +:+ filter)
  else input_value filter.

(** [filterRows()], as far as the rows go: [filterData] on the text
    that the filter input holds, trimmed. *)
Definition filterRows `{Host} (table : list column) (data : list (gmap string cell))
    (input : string) (st : state) : option (state * outcome jsval) :=
  filterData table data (trim input) st.

(** [while ($hasProp(yaml, file.key + keySuffix)) keySuffix += 1] of
    [init], [fuel] turns at most: the suffix the loop stops at. *)
Fixpoint free_suffix {A} (fuel : nat) (yaml : gmap string A) (key : string)
    (keySuffix : Z) : option Z :=
  match fuel with
  | O => None
  | S fuel' =>
      if bool_decide (is_Some (yaml !! (key +:+ decimal keySuffix)))
      then free_suffix fuel' yaml key (keySuffix + 1)
      else Some keySuffix
  end.

(** [yaml[key] = data].  The map holds the own properties of the plain
    object [yaml], the ones [$hasProp] sees: an assignment to [__proto__]
    goes to the setter the object inherits and makes no property. *)
Definition assign {A} (key : string) (data : A) (yaml : gmap string A) : gmap string A :=
  if String.eqb key "__proto__" then yaml else <[key := data]> yaml.

(** The callback of [ymlData.forEach] in [init] for the file
    [{key, data}]: the key the data is stored under and the object
    [yaml] afterwards. *)
Definition store_file {A} (fuel : nat) (yaml : gmap string A) (file : string * A)
    : option (string * gmap string A) :=
  let '(key, data) := file in
  if bool_decide (is_Some (yaml !! key)) then
    match free_suffix fuel yaml key 1 with
    | Some keySuffix =>
        let key := key +:+ decimal keySuffix in
        Some (key, assign key data yaml)
    | None => None
    end
  else Some (key, assign key data yaml).

(** [ymlData.forEach(...)]: the keys given to the files, in their
    order, and the object [yaml] at the end. *)
Fixpoint store_files {A} (fuel : nat) (yaml : gmap string A) (ymlData : list (string * A))
    : option (list string * gmap string A) :=
  match ymlData with
  | [] => Some ([], yaml)
  | file :: rest =>
      match store_file fuel yaml file with
      | Some (key, yaml) =>
          match store_files fuel yaml rest with
          | Some (keys, yaml) => Some (key :: keys, yaml)
          | None => None
          end
      | None => None
      end
  end.

(** [CSVfieldSeparator] and [CSVrecordSeparator] *)
Definition CSVfieldSeparator : string := String "009" "".
Definition CSVrecordSeparator : string := String "013" (String "010" "").

(** [items.join(sep)] on strings *)
Fixpoint join (sep : string) (items : list string) : string :=
  match items with
  | [] => ""
  | [item] => item
  | item :: rest => item +:+ sep +:+ join sep rest
  end.

Section ExportData.
Context `{Host}.
(** [column.header] *)
Variable header : column -> string.

(** The columns of the header row: [yaml.specs.table.filter(column =>
    visibleCols.includes(column.key))] *)
Definition header_columns (table : list column) (visibleCols : list string) : list column :=
  List.filter (fun column => bool_decide (col_key column ∈ visibleCols)) table.

(** [html2text(data[rowID][colID].html || "")] *)
Definition field_text (data : list (gmap string cell)) (rowID : Z) (colID : string)
    : outcome string :=
  let! c := cell_at data rowID (VStr colID) in
  let h := read (html c) in
  Done (html2text (ToString (if truthy h then h else VStr ""))).

(** [visibleCols.map(colID => ...)]: the fields of a row, in the order
    of [visibleCols] *)
Fixpoint row_fields (data : list (gmap string cell)) (rowID : Z) (visibleCols : list string)
    : outcome (list string) :=
  match visibleCols with
  | [] => Done []
  | colID :: rest =>
      let! f := field_text data rowID colID in
      let! fs := row_fields data rowID rest in
      Done (f :: fs)
  end.

Fixpoint body_rows (data : list (gmap string cell)) (rows : list Z)
    (visibleCols : list string) : outcome (list string) :=
  match rows with
  | [] => Done []
  | rowID :: rest =>
      let! fs := row_fields data rowID visibleCols in
      let! rs := body_rows data rest visibleCols in
      Done (join CSVfieldSeparator fs :: rs)
  end.

(** [exportData()]: the text [exportedData]; [visibleCols] are the
    titles of the header cells that are laid out. *)
Definition exportData (table : list column) (data : list (gmap string cell))
    (display : list Z) (visibleCols : list string) : outcome string :=
  let headerRow := join CSVfieldSeparator (header <$> header_columns table visibleCols) in
  let! bodyRows := body_rows data (visibleRows display) visibleCols in
  Done (headerRow +:+ CSVrecordSeparator +:+ join CSVrecordSeparator bodyRows).

End ExportData.

End Main.

(** * Properties *)

(** ** Lengths of the string primitives *)

Module JsStringFacts.
Import JsString.

Lemma length_repeat c n : String.length (repeat c n) = n.
Proof. induction n; simpl; congruence. Qed.

Lemma length_append a b :
  String.length (a +:+ b) = (String.length a + String.length b)%nat.
Proof. induction a as [|x a IH]; simpl; [done | by rewrite IH]. Qed.

Lemma length_prefix n s :
  String.length (prefix n s) = Nat.min n (String.length s).
Proof.
  revert s; induction n; intros [|c s]; simpl; auto.
Qed.

Lemma length_padStart n c s :
  String.length (padStart n c s) = Nat.max n (String.length s).
Proof. unfold padStart. rewrite length_append, length_repeat. lia. Qed.

Lemma length_padEnd n c s :
  String.length (padEnd n c s) = Nat.max n (String.length s).
Proof. unfold padEnd. rewrite length_append, length_repeat. lia. Qed.

(** The chunk [g.substring(0, n).padStart(n, c)] always has [n] characters. *)
Lemma length_cut_padStart n c g :
  String.length (padStart n c (prefix n g)) = n.
Proof. rewrite length_padStart, length_prefix. lia. Qed.

Lemma length_cut_padEnd n c g :
  String.length (padEnd n c (prefix n g)) = n.
Proof. rewrite length_padEnd, length_prefix. lia. Qed.

End JsStringFacts.

(** ** The version hasher *)

Module VersionFacts.
Import JsString JsStringFacts Js Common Version.

(** Where the scan can stand: the hash holds whole six-character groups,
    at most six of them, or the six groups and the two-character suffix. *)
Definition scan_ok (st : scan) : Prop :=
  (exists k : nat, (k <= 6)%nat /\ String.length (hash st) = (6 * k)%nat)
  \/ String.length (hash st) = 38%nat.

Lemma length_dump g : String.length (dump g) = 6%nat.
Proof. apply length_cut_padStart. Qed.

Lemma step_ok st c : scan_ok st -> scan_ok (step st c).
Proof.
  intros Hst. unfold step, scan_ok.
  change hlExt with 38%nat. change hl with 36%nat.
  destruct (Nat.ltb_spec (String.length (hash st)) 36) as [Hlt|Hge].
  - destruct Hst as [(k & Hk & Hlen)|Hlen]; [|lia].
    destruct (Ascii.eqb c "."); [|destruct (Ascii.eqb c "-")]; cbn [hash].
    + left. exists (S k). rewrite length_append, length_dump. lia.
    + destruct (Nat.ltb_spec (String.length (hash st +:+ dump (group st))) 36) as [Hp|Hp];
        rewrite ?length_padEnd; rewrite length_append, length_dump in *.
      * left. exists 6%nat. lia.
      * left. exists (S k). lia.
    + left. eauto.
  - destruct (Nat.ltb_spec (String.length (hash st)) 38) as [Hlt|Hge'].
    + destruct (_ || _); cbn [hash]; [exact Hst|].
      right. rewrite length_append, length_cut_padEnd. change padAlph with 2%nat.
      destruct Hst as [(k & Hk & Hlen)|Hlen]; lia.
    + cbn [hash]. exact Hst.
Qed.

Lemma scan_chars_ok s : forall st, scan_ok st -> scan_ok (scan_chars st s).
Proof.
  induction s as [|c s IH]; intros st Hst; simpl; [done|].
  apply IH, step_ok, Hst.
Qed.

Lemma finish_length st :
  scan_ok st ->
  String.length (finish st) = 42%nat \/ String.length (finish st) = 44%nat.
Proof.
  intros Hst. unfold finish.
  change hlFull with 44%nat. change hl with 36%nat.
  change padAlph with 2%nat. change padNum with 6%nat.
  destruct (Nat.ltb_spec (String.length (hash st)) 36) as [Hlt|Hge].
  - destruct (Nat.ltb_spec (String.length (hash st +:+ dump (group st))) 36) as [Hp|Hp].
    + match goal with |- context [(String.length ?h <? 44)%nat] =>
        assert (String.length h = 44%nat) as Hh
        end.
      { rewrite !length_append, length_padEnd, !length_repeat, length_append, length_dump.
        rewrite length_append, length_dump in Hp. lia. }
      rewrite Hh. simpl. by right.
    + rewrite length_append, length_dump in Hp.
      destruct Hst as [(k & Hk & Hlen)|Hlen]; [|lia].
      match goal with |- context [(String.length ?h <? 44)%nat] =>
        assert (String.length h = 36%nat) as Hh
        end.
      { rewrite length_append, length_dump. lia. }
      rewrite Hh. simpl. rewrite length_append, Hh, length_dump. by left.
  - destruct Hst as [(k & Hk & Hlen)|Hlen].
    + assert (String.length (hash st) = 36)%nat as Heq by lia. rewrite Heq. simpl.
      rewrite length_append, length_dump. left. lia.
    + rewrite Hlen. simpl. rewrite length_append, length_dump. right. lia.
Qed.

(** Whatever the text, the hash has 42 or 44 characters. *)
Lemma hash_of_string_length s :
  String.length (hash_of_string s) = 42%nat \/ String.length (hash_of_string s) = 44%nat.
Proof.
  apply finish_length, scan_chars_ok. left. exists 0%nat. simpl. lia.
Qed.

(** C3.  [version2hash] does not always give 44 characters: with six
    dotted groups and no dash, or with a dash suffix and no number after
    it, the last group is written where the suffix belongs and the hash
    stops at 42 characters. *)
Theorem version2hash_short_hash `{Host} :
  version2hash (VStr "1.2.3.4.5.6") = "     1     2     3     4     5     6     6"
  /\ String.length (version2hash (VStr "1.2.3.4.5.6")) = 42%nat
  /\ version2hash (VStr "1.13.7-rc") = "     1    13     7                      rc"
  /\ String.length (version2hash (VStr "1.13.7-rc")) = 42%nat.
Proof. repeat split; reflexivity. Qed.

(** The hashes that [version2hash] documents for 1.13.7, 1.13.7-rc12 and
    1.13.7-a-z3 (comment above the function). *)
Definition documented_plain : string := "     1    13     7                  ~~      ".
Definition documented_rc12 : string := "     1    13     7                  rc    12".
Definition documented_a_z3 : string := "     1    13     7                  a~    z3".

(** C4.  As plain strings, the hash of 1.2.3 is below that of 1.13.0 and
    the hash of 1.13.7 is above that of 1.13.7-rc1; the three documented
    versions are hashed in the order of their documented hashes, the
    first two to exactly those. *)
Theorem version2hash_order `{Host} :
  ltb (version2hash (VStr "1.2.3")) (version2hash (VStr "1.13.0")) = true
  /\ ltb (version2hash (VStr "1.13.7-rc1")) (version2hash (VStr "1.13.7")) = true
  /\ ltb (version2hash (VStr "1.13.7")) (version2hash (VStr "1.13.7-rc1")) = false
  /\ version2hash (VStr "1.13.7") = documented_plain
  /\ version2hash (VStr "1.13.7-rc12") = documented_rc12
  /\ ltb (version2hash (VStr "1.13.7-a-z3")) (version2hash (VStr "1.13.7-rc12")) = true
  /\ ltb (version2hash (VStr "1.13.7-rc12")) (version2hash (VStr "1.13.7")) = true
  /\ ltb documented_a_z3 documented_rc12 = true
  /\ ltb documented_rc12 documented_plain = true.
Proof. repeat split; reflexivity. Qed.

(** The third documented hash is not the one computed: the suffix keeps
    its first two characters as they are, and the number is what follows
    the first digit. *)
Lemma version2hash_a_z3 `{Host} :
  version2hash (VStr "1.13.7-a-z3") = "     1    13     7                  a-     3".
Proof. reflexivity. Qed.

End VersionFacts.

(** ** The value normaliser *)

Module NormaliseFacts.
Import JsString Js Common.

(** C2.  An [int] column whose raw value is the numeric string "42":
    [match] is set from [cmp], the Number 42, and is no string; the
    same value given as a Number gets the string "42". *)
Theorem normalizeValue_int_numeric_string `{Host} (opts : options) :
  let column := Column "id" (Some "int") None None in
  (exists c,
   normalizeValue opts {[ "id" := Raw (VStr "42") ]} column = Done {[ "id" := Obj c ]}
   /\ html c = Some (VStr "42")
   /\ match_ c = Some (VNum (int 42))
   /\ is_string (match_ c) = false)
  /\ (exists c,
      normalizeValue opts {[ "id" := Raw (VNum (int 42)) ]} column = Done {[ "id" := Obj c ]}
      /\ html c = Some (VStr "42")
      /\ match_ c = Some (VStr "42")).
Proof.
  split; eexists; (split; [unfold normalizeValue; rewrite lookup_singleton_eq; cbn;
    rewrite insert_singleton_eq; reflexivity|]);
    repeat split; reflexivity.
Qed.

(** *** Normalising twice *)

(** A cell as [prepare] leaves it: it has a [value], [type] is the class
    name of that value and [cssClass] is an array. *)
Definition prepared (c : cell) : Prop :=
  is_Some (value c)
  /\ type c = Some (VStr (typeOf (read (value c))))
  /\ exists l, cssClass c = Some (VArray l).

(** The array of classes after a first and after a second run, [l]
    being the array before the first: both runs leave it alone, or both
    push [bad-value]. *)
Definition grown (l : list jsval) (first second : option jsval) : Prop :=
  (first = Some (VArray l) /\ second = Some (VArray l))
  \/ (first = Some (VArray (l ++ [VStr "bad-value"]))
      /\ second = Some (VArray (l ++ [VStr "bad-value"; VStr "bad-value"]))).

(** Two cells with the same properties, up to the repeated class. *)
Definition agree (l : list jsval) (c1 c2 : cell) : Prop :=
  value c2 = value c1 /\ type c2 = type c1 /\ htmlAlt c2 = htmlAlt c1
  /\ html c2 = html c1 /\ match_ c2 = match_ c1 /\ cmp c2 = cmp c1
  /\ cmpMin c2 = cmpMin c1 /\ cmpMax c2 = cmpMax c1 /\ mask c2 = mask c1
  /\ grown l (cssClass c1) (cssClass c2).

Lemma keep_string_shape p s : exists t, keep_string p (VStr s) = Some (VStr t).
Proof. unfold keep_string. destruct p as [[]|]; simpl; eauto. Qed.

Lemma keep_number_shape p n :
  exists m, keep_number p (VNum n) = Some (VNum m) /\ (isNaN m = false \/ m = n).
Proof.
  unfold keep_number. destruct p as [[]|]; simpl; eauto.
  destruct (isNaN n0) eqn:E; simpl; eauto.
Qed.

Lemma keep_string_again t d : keep_string (Some (VStr t)) d = Some (VStr t).
Proof. reflexivity. Qed.

Lemma keep_number_again m n :
  isNaN m = false \/ m = n -> keep_number (Some (VNum m)) (VNum n) = Some (VNum m).
Proof.
  unfold keep_number, is_number. intros [-> | ->]; [done|]. by destruct (isNaN n).
Qed.

(** [cleanse] by the two questions it asks about the column type. *)
Definition cleanse_with (ranged isip : bool) (c : cell) : cell :=
  let c := if ranged then set_cmp None c else set_cmpMax None (set_cmpMin None c) in
  if negb isip then set_mask None c else c.

Local Opaque keep_string keep_number toUpperCase fallback_choice.

Section Again.
Context `{Host} (opts : options).

Ltac reduce_in H :=
  cbv beta iota zeta delta
  [set_value set_html set_match set_cmp set_cmpMin set_cmpMax set_mask set_cssClass set_type
   value html match_ cmp cmpMin cmpMax mask htmlAlt cssClass type
   push_class cleanse_with fallback_html bad_range bad_scalar html_text read negb] in H.

Ltac reduce :=
  cbv beta iota zeta delta
  [set_value set_html set_match set_cmp set_cmpMin set_cmpMax set_mask set_cssClass set_type
   value html match_ cmp cmpMin cmpMax mask htmlAlt cssClass type
   push_class cleanse_with fallback_html bad_range bad_scalar html_text read negb
   prepared agree grown].

Ltac kept :=
  repeat match goal with
    | H : context [keep_string ?p (VStr ?s)] |- _ =>
        let t := fresh "t" in let Ht := fresh "Ht" in
        destruct (keep_string_shape p s) as [t Ht]; rewrite Ht in *; clear Ht
    | H : context [keep_number ?p (VNum ?n)] |- _ =>
        let m := fresh "m" in let Hm := fresh "Hm" in let Ht := fresh "Ht" in
        destruct (keep_number_shape p n) as (m & Ht & Hm); rewrite Ht in *; clear Ht
    end.

Ltac grown_tac :=
  first [left; split; reflexivity
         | right; split; [reflexivity | rewrite <- ?app_assoc; reflexivity]].

Ltac finish :=
  reduce; repeat split; try reflexivity; eauto; try grown_tac.

Ltac again :=
  rewrite ?keep_string_again in *;
  repeat match goal with
    | Hm : isNaN ?m = false \/ ?m = ?n |- _ =>
        rewrite (keep_number_again m n Hm) in *; clear Hm
    end.

Lemma again_int alt c0 l :
  prepared c0 -> cssClass c0 = Some (VArray l) ->
  let post := fun c => cleanse_with false false (fallback_html opts alt c) in
  prepared (post (normalize_int c0)) /\
  agree l (post (normalize_int c0)) (post (normalize_int (post (normalize_int c0)))).
Proof.
  intros ([v Hv] & Hty & _) Hl post.
  destruct c0 as [v0 h0 m0 cp0 mn0 mx0 mk0 ha0 cs0 ty0].
  cbn [value type cssClass] in *. subst.
  remember (normalize_int _) as d0 eqn:Hd0.
  remember (post d0) as c1 eqn:Hc1.
  remember (normalize_int c1) as d1 eqn:Hd1.
  unfold normalize_int in Hd0. cbv beta iota delta [read value] in Hd0.
  destruct v.
  4: destruct (isNaN n) eqn:En.
  6: destruct (isNaN (StringToNumber s)) eqn:En.
  all: reduce_in Hd0; kept; subst d0; unfold post in Hc1; reduce_in Hc1; subst c1.
  all: unfold normalize_int in Hd1; cbv beta iota delta [read value] in Hd1;
    rewrite ?En in Hd1; reduce_in Hd1; again; subst d1; unfold post.
  all: finish.
Qed.

Lemma again_intrange alt c0 l :
  prepared c0 -> cssClass c0 = Some (VArray l) ->
  let post := fun c => cleanse_with true false (fallback_html opts alt c) in
  prepared (post (normalize_intrange c0)) /\
  agree l (post (normalize_intrange c0))
  (post (normalize_intrange (post (normalize_intrange c0)))).
Proof.
  intros ([v Hv] & Hty & _) Hl post.
  destruct c0 as [v0 h0 m0 cp0 mn0 mx0 mk0 ha0 cs0 ty0].
  cbn [value type cssClass] in *. subst.
  remember (normalize_intrange _) as d0 eqn:Hd0.
  remember (post d0) as c1 eqn:Hc1.
  remember (normalize_intrange c1) as d1 eqn:Hd1.
  unfold normalize_intrange in Hd0. cbv beta iota delta [read value] in Hd0.
  destruct v.
  4: destruct (isNaN n) eqn:En.
  6: destruct (intrange_exec s) as [[g1 [g3|]]|] eqn:En.
  all: reduce_in Hd0; kept; subst d0; unfold post in Hc1; reduce_in Hc1; subst c1.
  all: unfold normalize_intrange in Hd1; cbv beta iota delta [read value] in Hd1;
    rewrite ?En in Hd1; reduce_in Hd1; again; subst d1; unfold post.
  all: finish.
Qed.

Lemma again_str alt c0 l :
  prepared c0 -> cssClass c0 = Some (VArray l) ->
  let post := fun c => cleanse_with false false (fallback_html opts alt c) in
  prepared (post (normalize_str c0)) /\
  agree l (post (normalize_str c0)) (post (normalize_str (post (normalize_str c0)))).
Proof.
  intros ([v Hv] & Hty & _) Hl post.
  destruct c0 as [v0 h0 m0 cp0 mn0 mx0 mk0 ha0 cs0 ty0].
  cbn [value type cssClass] in *. subst.
  remember (normalize_str _) as d0 eqn:Hd0.
  remember (post d0) as c1 eqn:Hc1.
  remember (normalize_str c1) as d1 eqn:Hd1.
  unfold normalize_str in Hd0. cbv beta iota delta [read value] in Hd0.
  destruct v.
  4: destruct (isNaN n) eqn:En.
  all: reduce_in Hd0; kept; subst d0; unfold post in Hc1; reduce_in Hc1; subst c1.
  all: unfold normalize_str in Hd1; cbv beta iota delta [read value] in Hd1;
    rewrite ?En in Hd1; reduce_in Hd1; again; subst d1; unfold post.
  all: finish.
Qed.

Lemma again_version alt c0 l :
  prepared c0 -> cssClass c0 = Some (VArray l) ->
  let post := fun c => cleanse_with false false (fallback_html opts alt c) in
  prepared (post (normalize_version c0)) /\
  agree l (post (normalize_version c0))
  (post (normalize_version (post (normalize_version c0)))).
Proof.
  intros ([v Hv] & Hty & _) Hl post.
  destruct c0 as [v0 h0 m0 cp0 mn0 mx0 mk0 ha0 cs0 ty0].
  cbn [value type cssClass] in *. subst.
  remember (normalize_version _) as d0 eqn:Hd0.
  remember (post d0) as c1 eqn:Hc1.
  remember (normalize_version c1) as d1 eqn:Hd1.
  unfold normalize_version in Hd0. cbv beta iota delta [read value] in Hd0.
  destruct v.
  4: destruct (lt (int 0) n) eqn:En.
  all: reduce_in Hd0; kept; subst d0; unfold post in Hc1; reduce_in Hc1; subst c1.
  all: unfold normalize_version in Hd1; cbv beta iota delta [read value] in Hd1;
    rewrite ?En in Hd1; reduce_in Hd1; again; subst d1; unfold post.
  all: finish.
Qed.

Ltac reduce2_in H :=
  cbv beta iota zeta delta
  [set_value set_html set_match set_cmp set_cmpMin set_cmpMax set_mask set_cssClass set_type
   value html match_ cmp cmpMin cmpMax mask htmlAlt cssClass type
   push_class cleanse_with fallback_html bad_range bad_scalar html_text read negb
   typeOf String.eqb Ascii.eqb Bool.eqb orb andb] in H.

Lemma again_ip alt c0 l :
  prepared c0 -> cssClass c0 = Some (VArray l) ->
  let post := fun c => cleanse_with true true (fallback_html opts alt c) in
  prepared (post (normalize_ip c0)) /\
  agree l (post (normalize_ip c0)) (post (normalize_ip (post (normalize_ip c0)))).
Proof.
  intros ([v Hv] & Hty & _) Hl post.
  destruct c0 as [v0 h0 m0 cp0 mn0 mx0 mk0 ha0 cs0 ty0].
  cbn [value type cssClass] in *. subst.
  remember (normalize_ip _) as d0 eqn:Hd0.
  remember (post d0) as c1 eqn:Hc1.
  remember (normalize_ip c1) as d1 eqn:Hd1.
  unfold normalize_ip in Hd0. cbv beta iota delta [read value] in Hd0.
  destruct v.
  5: { destruct (nonzero (match ip_exec s with
      | Some (addr, _) => ip2long addr
      | None => int 0
      end)) eqn:Ez;
      destruct (isNaN_value
      (if includes "." (match ip_exec s with
      | Some (_, Some m) => m
      | _ => "32"
      end)
      then VNum (ip2long (match ip_exec s with
      | Some (_, Some m) => m
      | _ => "32"
      end))
      else cidr2long (parseInt (match ip_exec s with
      | Some (_, Some m) => m
      | _ => "32"
      end)))) eqn:Ei;
      destruct mk0 as [mk|]; try destruct (isNaN_value mk) eqn:Emk.
    all: do 3 (reduce2_in Hd0; kept; rewrite ?Ez, ?Emk, ?Ei in Hd0).
    all: subst d0; unfold post in Hc1; reduce_in Hc1; subst c1.
    all: unfold normalize_ip in Hd1; cbv beta iota delta [read value] in Hd1.
    all: do 3 (reduce2_in Hd1; again; rewrite ?Ez, ?Emk, ?Ei in Hd1).
    all: subst d1; unfold post.
    all: finish. }
  all: reduce_in Hd0; kept; subst d0; unfold post in Hc1; reduce_in Hc1; subst c1.
  all: unfold normalize_ip in Hd1; cbv beta iota delta [read value] in Hd1;
    reduce_in Hd1; again; subst d1; unfold post.
  all: finish.
Qed.

Ltac reduce3_in H :=
  cbv beta iota zeta delta
  [set_value set_html set_match set_cmp set_cmpMin set_cmpMax set_mask set_cssClass set_type
   value html match_ cmp cmpMin cmpMax mask htmlAlt cssClass type
   push_class cleanse_with fallback_html bad_range bad_scalar html_text read negb
   bind is_string] in H.

Ltac reduce3 :=
  cbv beta iota zeta delta
  [set_value set_html set_match set_cmp set_cmpMin set_cmpMax set_mask set_cssClass set_type
   value html match_ cmp cmpMin cmpMax mask htmlAlt cssClass type
   push_class cleanse_with fallback_html bad_range bad_scalar html_text read negb
   bind is_string].

Lemma again_date alt fmt c0 d0 l :
  prepared c0 -> cssClass c0 = Some (VArray l) -> normalize_date opts fmt c0 = Done d0 ->
  let post := fun c => cleanse_with false false (fallback_html opts alt c) in
  prepared (post d0) /\
  exists d1, normalize_date opts fmt (post d0) = Done d1 /\ agree l (post d0) (post d1).
Proof.
  intros ([v Hv] & Hty & _) Hl Hd0 post.
  destruct c0 as [v0 h0 m0 cp0 mn0 mx0 mk0 ha0 cs0 ty0].
  cbn [value type cssClass] in *. subst.
  unfold normalize_date in Hd0. cbv beta iota delta [read value] in Hd0.
  destruct v as [| |b|n|s|tm|src|items|cls].
  4: destruct (lt (int 0) n) eqn:En.
  6: destruct (isNaN (date_parse (if is_ymd s then s +:+ "T12:00:00Z" else s))) eqn:En.
  8: destruct (isNaN tm) eqn:En.
  all: try (destruct h0 as [[| | | | hs | | | |]|]).
  all: reduce3_in Hd0.
  all: try match type of Hd0 with
    | context [formatDate ?o ?d ?f] =>
    let Ef := fresh "Ef" in
    destruct (formatDate o d f) as [text|] eqn:Ef; reduce3_in Hd0
    end.
  all: try discriminate.
  all: injection Hd0 as Hd0; symmetry in Hd0; kept; subst d0.
  all: split; [unfold post; finish|].
  all: eexists; split;
    [ unfold post, normalize_date; reduce3; rewrite ?En; reduce3; again; reflexivity |].
  all: unfold post; finish.
Qed.

Lemma normalize_cell_unfold col c :
  normalize_cell opts col c
  = bind (if type_is col "int" then Done (normalize_int c)
          else if type_is col "intrange" then Done (normalize_intrange c)
          else if type_is col "ip" then Done (normalize_ip c)
          else if type_is col "date" then normalize_date opts (col_dateFormat col) c
          else if type_is col "version" then Done (normalize_version c)
          else Done (normalize_str c))
  (fun c => Done (cleanse_with (type_is col "intrange" || type_is col "ip")
                  (type_is col "ip") (fallback_html opts (col_htmlAlt col) c))).
Proof. reflexivity. Qed.

(** Normalising a prepared cell a second time. *)
Lemma normalize_cell_again col c0 c1 l :
  prepared c0 -> cssClass c0 = Some (VArray l) -> normalize_cell opts col c0 = Done c1 ->
  prepared c1 /\ exists c2, normalize_cell opts col c1 = Done c2 /\ agree l c1 c2.
Proof.
  intros Hc0 Hl. rewrite !normalize_cell_unfold. unfold type_is.
  destruct (col_type col) as [t|].
  - destruct (String.eqb_spec t "int") as [->|N1].
    { cbn. intros [= <-]. destruct (again_int (col_htmlAlt col) c0 l Hc0 Hl). eauto. }
    destruct (String.eqb_spec t "intrange") as [->|N2].
    { cbn. intros [= <-]. destruct (again_intrange (col_htmlAlt col) c0 l Hc0 Hl). eauto. }
    destruct (String.eqb_spec t "ip") as [->|N3].
    { cbn. intros [= <-]. destruct (again_ip (col_htmlAlt col) c0 l Hc0 Hl). eauto. }
    destruct (String.eqb_spec t "date") as [->|N4].
    { cbn [orb bind].
      destruct (normalize_date opts (col_dateFormat col) c0) as [d0|] eqn:Hd0; [|discriminate].
      cbn [bind]. intros [= <-].
      destruct (again_date (col_htmlAlt col) _ c0 d0 l Hc0 Hl Hd0) as (? & d1 & Hd1 & ?).
      split; [done|]. rewrite Hd1. cbn [bind]. eauto. }
    destruct (String.eqb_spec t "version") as [->|N5].
    { cbn. intros [= <-]. destruct (again_version (col_htmlAlt col) c0 l Hc0 Hl). eauto. }
    cbn. intros [= <-]. destruct (again_str (col_htmlAlt col) c0 l Hc0 Hl). eauto.
  - cbn. intros [= <-]. destruct (again_str (col_htmlAlt col) c0 l Hc0 Hl). eauto.
Qed.

(** The cell was given with a value: in the shorthand form, or as an
    object that has a [value] or a string [html] to take it from. *)
Definition given_value (entry : option slot) : bool :=
  match entry with
  | Some (Obj c) => bool_decide (is_Some (value c)) || is_string (html c)
  | Some (Raw v) => negb (String.eqb (typeOf v) "Object")
  | None => true
  end.

Lemma value2array_array p : exists l, value2array p = VArray l.
Proof.
  destruct p as [[]|]; simpl; eauto. destruct (_ <? _)%nat; eauto.
Qed.

Lemma prepare_prepared entry : given_value entry = true -> prepared (prepare entry).
Proof.
  unfold prepared, prepare.
  destruct entry as [[c|v]|]; cbn [given_value].
  - intros Hgiven. destruct c as [v0 h0 m0 cp0 mn0 mx0 mk0 ha0 cs0 ty0].
    cbn [value html] in *. destruct (value2array_array cs0) as [l Hl].
    destruct v0 as [v0|].
    + reduce. rewrite Hl. eauto.
    + destruct h0 as [[| | | |hs| | | |]|]; try discriminate.
      reduce. rewrite Hl. eauto.
  - intros Hv%negb_true_iff. rewrite Hv. reduce. simpl. eauto.
  - intros _. reduce. simpl. eauto.
Qed.

Lemma prepare_fixed c : prepared c -> prepare (Some (Obj c)) = c.
Proof.
  intros ([v Hv] & Hty & [l Hl]). unfold prepare.
  destruct c as [v0 h0 m0 cp0 mn0 mx0 mk0 ha0 cs0 ty0]. cbn [value type cssClass] in *.
  subst. reduce. reflexivity.
Qed.

End Again.

Local Transparent keep_string keep_number toUpperCase fallback_choice.

(** What a second run does to a cell given with a value:
    [normalizeValue] returns and leaves [html], [match], [cmp], [cmpMin],
    [cmpMax] and [mask] as the first run set them; the array [cssClass]
    is left alone by both runs, or gets [bad-value] pushed by both. *)
Lemma normalizeValue_again `{Host} (opts : options) (row : gmap string slot)
    (col : column) (row1 : gmap string slot) :
  given_value (row !! col_key col) = true ->
  normalizeValue opts row col = Done row1 ->
  exists c1 c2 l,
  row1 !! col_key col = Some (Obj c1)
  /\ normalizeValue opts row1 col = Done (<[col_key col := Obj c2]> row1)
  /\ html c2 = html c1 /\ match_ c2 = match_ c1 /\ cmp c2 = cmp c1
  /\ cmpMin c2 = cmpMin c1 /\ cmpMax c2 = cmpMax c1 /\ mask c2 = mask c1
  /\ cssClass (prepare (row !! col_key col)) = Some (VArray l)
  /\ grown l (cssClass c1) (cssClass c2).
Proof.
  intros Hgiven. unfold normalizeValue.
  destruct (normalize_cell opts col (prepare (row !! col_key col))) as [c1|] eqn:Hc1;
    [|discriminate].
  cbn [bind]. intros [= <-].
  pose proof (prepare_prepared _ Hgiven) as Hp0.
  destruct Hp0 as (Hv0 & Hty0 & [l Hl]).
  destruct (normalize_cell_again opts col _ c1 l (conj Hv0 (conj Hty0 (ex_intro _ l Hl))) Hl Hc1)
    as (Hp1 & c2 & Hc2 & Hagree).
  exists c1, c2, l. rewrite lookup_insert_eq, (prepare_fixed c1 Hp1), Hc2. cbn [bind].
  split; [done|]. split; [done|].
  destruct Hagree as (_ & _ & _ & ? & ? & ? & ? & ? & ? & ?). by repeat split.
Qed.

(** C5.  A second [normalizeValue] on the same cell is not without
    effect, and [preRenderBody] runs one on every change of view.  On the
    bad value "abc" of an [int] column it pushes [bad-value] once more.
    On a cell object without a [value], whose [htmlAlt] is "7", the first
    one shows the fallback text, the second one takes that text for the
    value: [cmp] goes from [-Infinity] to 7 and [match] from "7" to the
    Number. *)
Theorem normalizeValue_twice_differs :
  let column := Sample.col "id" (Some "int") in
  (exists c1 c2,
   normalizeValue (H := Sample.plain_host) Sample.no_options
   {[ "id" := Raw (VStr "abc") ]} column = Done {[ "id" := Obj c1 ]}
   /\ normalizeValue (H := Sample.plain_host) Sample.no_options
   {[ "id" := Obj c1 ]} column = Done {[ "id" := Obj c2 ]}
   /\ cssClass c1 = Some (VArray [VStr "bad-value"])
   /\ cssClass c2 = Some (VArray [VStr "bad-value"; VStr "bad-value"]))
  /\ (exists c1 c2,
      normalizeValue (H := Sample.plain_host) Sample.no_options
      {[ "id" := Obj (Cell None None None None None None None (Some (VStr "7")) None None) ]}
      column = Done {[ "id" := Obj c1 ]}
      /\ normalizeValue (H := Sample.plain_host) Sample.no_options
      {[ "id" := Obj c1 ]} column = Done {[ "id" := Obj c2 ]}
      /\ cmp c1 = Some (VNum NInf) /\ cmp c2 = Some (VNum (int 7))
      /\ match_ c1 = Some (VStr "7") /\ match_ c2 = Some (VNum (int 7))).
Proof.
  split; eexists _, _.
  - split; [vm_compute; reflexivity|]. split; [vm_compute; reflexivity|]. by split.
  - split; [vm_compute; reflexivity|]. split; [vm_compute; reflexivity|]. by repeat split.
Qed.

End NormaliseFacts.

(** ** The filter engine *)

Module FilterFacts.
Import JsString Js Common FilterSort.

(** *** Integer arithmetic on Numbers *)

Lemma Qred_inject z : Qred (inject_Z z) = inject_Z z.
Proof. apply Qred_identity. simpl. apply Z.gcd_1_r. Qed.

Lemma mul_int x y : mul (int x) (int y) = int (x * y).
Proof.
  unfold mul, int. f_equal.
  replace (inject_Z x * inject_Z y)%Q with (inject_Z (x * y)).
  - apply Qred_inject.
  - unfold inject_Z, Qmult. simpl. reflexivity.
Qed.

Lemma add_int x y : add (int x) (int y) = int (x + y).
Proof.
  unfold add, int. f_equal.
  replace (inject_Z x + inject_Z y)%Q with (inject_Z (x + y)).
  - apply Qred_inject.
  - unfold inject_Z, Qplus. simpl. f_equal. lia.
Qed.

Lemma nonzero_int z : nonzero (int z) = negb (z =? 0).
Proof.
  unfold nonzero, int, Qeq_bool, inject_Z. simpl.
  rewrite Z.mul_1_r. destruct z; reflexivity.
Qed.

(** *** Dotted quads *)

(** The address [a.b.c.d] as it is written. *)
Definition dotted (a b c d : Z) : string :=
  decimal a +:+ "." +:+ decimal b +:+ "." +:+ decimal c +:+ "." +:+ decimal d.

Definition octet (n : Z) : Prop := 0 <= n <= 255.

Definition is_int (n : number) (z : Z) : bool :=
  match n with
  | Fin q => (Qnum q =? z) && (Zpos (Qden q) =? 1)
  | _ => false
  end.

Lemma is_int_sound n z : is_int n z = true -> n = int z.
Proof.
  destruct n as [| | |[num den]]; cbn [is_int Qnum Qden]; try discriminate.
  intros [Hn Hd]%andb_true_iff.
  apply Z.eqb_eq in Hn. apply Z.eqb_eq in Hd.
  unfold int, inject_Z. f_equal. f_equal; [done|congruence].
Qed.

Definition octets : list Z := Z.of_nat <$> seq 0 256.

Lemma octet_in n : octet n -> n ∈ octets.
Proof.
  intros [? ?]. unfold octets. apply list_elem_of_fmap.
  exists (Z.to_nat n). split; [lia|]. apply list_elem_of_In, in_seq. lia.
Qed.

Lemma octet_number n : octet n -> StringToNumber (decimal n) = int n.
Proof.
  intros Hn%octet_in. apply is_int_sound.
  assert (forallb (fun k => is_int (StringToNumber (decimal k)) k) octets = true) as Hall
    by (vm_compute; reflexivity).
  rewrite forallb_forall in Hall. apply Hall, list_elem_of_In, Hn.
Qed.

Lemma octet_no_dot n : octet n -> includes "." (decimal n) = false.
Proof.
  intros Hn%octet_in.
  assert (forallb (fun k => negb (includes "." (decimal k))) octets = true) as Hall
    by (vm_compute; reflexivity).
  rewrite forallb_forall in Hall. apply negb_true_iff, Hall, list_elem_of_In, Hn.
Qed.

Lemma split_no_dot s : includes "." s = false -> split "." s = [s].
Proof.
  induction s as [|c s IH]; simpl; [done|].
  intros [Hc Hs]%orb_false_iff. rewrite Hc, (IH Hs). reflexivity.
Qed.

Lemma split_app_dot s r :
  includes "." s = false -> split "." (s +:+ "." +:+ r) = s :: split "." r.
Proof.
  induction s as [|c s IH]; simpl; [done|].
  intros [Hc Hs]%orb_false_iff. rewrite Hc, (IH Hs). reflexivity.
Qed.

Lemma split_dotted a b c d :
  octet a -> octet b -> octet c -> octet d ->
  split "." (dotted a b c d) = [decimal a; decimal b; decimal c; decimal d].
Proof.
  intros Ha Hb Hc Hd. unfold dotted.
  rewrite !split_app_dot, split_no_dot by by apply octet_no_dot.
  reflexivity.
Qed.

(** On a dotted quad, [ip2long] is the 32-bit integer form. *)
Lemma ip2long_dotted a b c d :
  octet a -> octet b -> octet c -> octet d ->
  ip2long (dotted a b c d) = int (a * 2 ^ 24 + b * 2 ^ 16 + c * 2 ^ 8 + d).
Proof.
  intros Ha Hb Hc Hd. unfold ip2long.
  rewrite split_dotted, !octet_number by done.
  rewrite !mul_int, !add_int, !mul_int, !add_int, !mul_int, !add_int.
  f_equal. lia.
Qed.

(** Without exactly four parts between dots, [ip2long] gives 0. *)
Lemma ip2long_parts ip : length (split "." ip) ≠ 4%nat -> ip2long ip = int 0.
Proof.
  unfold ip2long. destruct (split "." ip) as [|? [|? [|? [|? [|? ?]]]]]; simpl; done.
Qed.

(** *** Address literals under the order operators *)

(** The literal as the dry run reads it (lines 198-201): one that
    starts with a double quote loses its first and its last character. *)
Definition unquoted (lit : string) : string :=
  match lit with
  | String c _ =>
      if Ascii.eqb c dquote then substring 1 (Z.of_nat (String.length lit) - 1) lit else lit
  | EmptyString => lit
  end.

(** The array once the quotes are gone: the literal without them is
    written over the operand. *)
Definition unquoted_in (lit : string) (i : Z) (filterRPN : list jsval) : list jsval :=
  match lit with
  | String c _ =>
      if Ascii.eqb c dquote then store i (VStr (unquoted lit)) filterRPN else filterRPN
  | EmptyString => filterRPN
  end.

(** C6, as the code has it.  For [<] or [>] on a field of declared type
    [ip], the dry run reads the literal without its quotes, if it has
    any; it fails with "Bad IP address" exactly when [ip2long] of that
    text is 0 or [NaN], and otherwise writes that number over the
    operand.  Texts without exactly four dot-separated parts fail; a
    dotted quad [a.b.c.d] gets its 32-bit integer form, so it fails
    exactly when it is 0.0.0.0. *)
Theorem check_order_on_ip `{Host} (typeMap : gmap string string) (tok : string)
    (o1 : operand) (lit : string) (i : Z) (filterRPN : list jsval) :
  tok = "<" \/ tok = ">" ->
  typeMap !! token o1 = Some "ip" ->
  check_operator typeMap tok o1 (Operand lit i) filterRPN =
  (if nonzero (ip2long (unquoted lit))
   then (None, store i (VNum (ip2long (unquoted lit))) (unquoted_in lit i filterRPN))
   else (Some ("Bad IP address: " +:+ unquoted lit), unquoted_in lit i filterRPN))
  /\ (length (split "." (unquoted lit)) ≠ 4%nat -> nonzero (ip2long (unquoted lit)) = false)
  /\ (forall a b c d,
      octet a -> octet b -> octet c -> octet d -> unquoted lit = dotted a b c d ->
      ip2long (unquoted lit) = int (a * 2 ^ 24 + b * 2 ^ 16 + c * 2 ^ 8 + d)
      /\ nonzero (ip2long (unquoted lit))
         = negb ((a =? 0) && (b =? 0) && (c =? 0) && (d =? 0))).
Proof.
  intros Htok Htype. split; [|split].
  - unfold check_operator. rewrite Htype.
    rewrite (bool_decide_eq_true_2 (is_Some (Some "ip"))) by eauto.
    rewrite andb_false_r. cbn [token idx].
    assert ((match lit with
      | String c _ =>
      if Ascii.eqb c dquote
      then (Operand (substring 1 (Z.of_nat (String.length lit) - 1) lit) i,
      store i (VStr (substring 1 (Z.of_nat (String.length lit) - 1) lit))
      filterRPN)
      else (Operand lit i, filterRPN)
      | EmptyString => (Operand lit i, filterRPN)
      end) = (Operand (unquoted lit) i, unquoted_in lit i filterRPN)) as ->.
    { unfold unquoted_in, unquoted. destruct lit as [|c lit]; [done|].
      by destruct (Ascii.eqb c dquote). }
    unfold type_of_field. rewrite Htype. unfold check_ip. cbn [token idx].
    destruct Htok as [-> | ->]; cbn; by destruct (nonzero (ip2long (unquoted lit))).
  - intros Hparts. by rewrite ip2long_parts.
  - intros a b c d Ha Hb Hc Hd ->. rewrite ip2long_dotted by done.
    split; [done|]. rewrite nonzero_int. unfold octet in *. f_equal.
    destruct (Z.eqb_spec a 0), (Z.eqb_spec b 0), (Z.eqb_spec c 0), (Z.eqb_spec d 0);
      cbn; try (apply Z.eqb_eq; lia); apply Z.eqb_neq; lia.
Qed.

(** The array [src, "10.1.2.3", <], the address in double quotes, with
    the operands on the stack. *)
Lemma check_order_on_ip_witness :
  check_operator (H := Sample.plain_host) {[ "src" := "ip" ]} "<"
  (Operand "src" 0) (Operand (String dquote ("10.1.2.3" +:+ String dquote "")) 1)
  [VStr "src"; VStr (String dquote ("10.1.2.3" +:+ String dquote "")); VStr "<"]
  = (None, [VStr "src"; VNum (int 167838211); VStr "<"]).
Proof.
  destruct (check_order_on_ip (H := Sample.plain_host) {[ "src" := "ip" ]} "<"
  (Operand "src" 0) (String dquote ("10.1.2.3" +:+ String dquote "")) 1
  [VStr "src"; VStr (String dquote ("10.1.2.3" +:+ String dquote "")); VStr "<"])
    as [Heq _].
  - left. reflexivity.
  - vm_compute. reflexivity.
  - rewrite Heq. vm_compute. reflexivity.
Defined.

(** The dry run refuses the address 0.0.0.0, a dotted quad like any
    other, and takes 256.0.0.1, which is none. *)
Lemma bad_ip_is_not_unparseable :
  dotted 0 0 0 0 = "0.0.0.0"
  /\ check_operator (H := Sample.plain_host) {[ "src" := "ip" ]} "<"
  (Operand "src" 0) (Operand "0.0.0.0" 1) [VStr "src"; VStr "0.0.0.0"; VStr "<"]
  = (Some "Bad IP address: 0.0.0.0", [VStr "src"; VStr "0.0.0.0"; VStr "<"])
  /\ check_operator (H := Sample.plain_host) {[ "src" := "ip" ]} "<"
  (Operand "src" 0) (Operand "256.0.0.1" 1) [VStr "src"; VStr "256.0.0.1"; VStr "<"]
  = (None, [VStr "src"; VNum (int 4294967297); VStr "<"]).
Proof. repeat split; vm_compute; reflexivity. Qed.

(** *** Columns of an unknown type *)

(** C10.  A column without a type is a [str] column for both parts, a
    column of an unknown type only for the normaliser: the type map
    records the unknown name, and the literal of [<] or [>] stays as it
    was typed while the cell is compared in upper case. *)
Theorem unknown_type_literal_unchanged `{Host} :
  checkFilter [Column "x" (Some "float") None None] ∅ ["x"; "abc"; ">"]
  = (VBool true, [VStr "x"; VStr "abc"; VStr ">"], {[ "x" := "float" ]})
  /\ checkFilter [Column "x" None None None] ∅ ["x"; "abc"; ">"]
  = (VBool true, [VStr "x"; VStr "ABC"; VStr ">"], {[ "x" := "str" ]})
  /\ (forall opts, exists c,
      normalize_cell opts (Column "x" (Some "float") None None)
      (prepare (Some (Raw (VStr "abc")))) = Done c
      /\ cmp c = Some (VStr "ABC"))
  /\ (forall opts, exists c,
      normalize_cell opts (Column "x" None None None)
      (prepare (Some (Raw (VStr "abc")))) = Done c
      /\ cmp c = Some (VStr "ABC")).
Proof.
  split; [|split; [|split]].
  - vm_compute. reflexivity.
  - vm_compute. reflexivity.
  - intros opts. eexists. split; [vm_compute; reflexivity|reflexivity].
  - intros opts. eexists. split; [vm_compute; reflexivity|reflexivity].
Qed.

(** *** Filters that are too short *)

(** C9, as the code has it.  On the empty string, and on a string of
    fewer than three tokens, [filterData] answers the boolean [false];
    [display] and the type map of the validator stay as they were,
    whatever the rows are and whatever the parser would do with the
    tokens.  The empty string leaves the whole state alone; for any other
    string the tokenizer has run, and the two token lists it needs are
    filled in. *)
Theorem filterData_short_filter `{Host} (table : list column)
    (data : list (gmap string cell)) (filter : string) (st : state)
    (tokens : list string) :
  filter = ""
  \/ (getTokens filter (wordTokens table st) (nonWordTokens st) = Some tokens
      /\ (length tokens < 3)%nat) ->
  exists st',
  filterData table data filter st = Some (st', Done (VBool false))
  /\ display st' = display st
  /\ typeMap st' = typeMap st
  /\ (filter = "" -> st' = st)
  /\ st' = (if String.eqb filter "" then st
            else State (typeMap st) (wordTokens table st) (nonWordTokens st) (display st)).
Proof.
  intros [-> | [Htokens Hshort]].
  - exists st. by repeat split.
  - unfold filterData. destruct (String.eqb_spec filter "") as [->|Hne].
    + exists st. by repeat split.
    + cbn [word nonWord typeMap display]. rewrite Htokens.
      assert ((2 <? length tokens)%nat = false) as -> by (apply Nat.ltb_ge; lia).
      eexists. repeat split; done.
Qed.

Lemma filterData_short_filter_witness :
  exists st',
  filterData (H := Sample.plain_host) Sample.table Sample.data "label ="
  (State ∅ [] [] [0; 1; 2]) = Some (st', Done (VBool false))
  /\ display st' = [0; 1; 2].
Proof.
  destruct (filterData_short_filter (H := Sample.plain_host) Sample.table Sample.data
    "label =" (State ∅ [] [] [0; 1; 2]) ["label"; "="]) as (st' & Hrun & Hd & _).
  - right. split; [vm_compute; reflexivity | simpl; lia].
  - exists st'. split; [exact Hrun | exact Hd].
Defined.

(** The tokenizer is entered for a short filter that is not empty: on
    [label =] the first call builds the two token lists and cuts the
    string into its two tokens before it answers [false]; the type map
    of the validator stays empty. *)
Lemma filterData_short_filter_tokenized :
  exists st',
  filterData (H := Sample.plain_host) Sample.table Sample.data "label ="
  (State ∅ [] [] [0; 1; 2]) = Some (st', Done (VBool false))
  /\ word st' ≠ [] /\ nonWord st' ≠ []
  /\ getTokens "label =" (word st') (nonWord st') = Some ["label"; "="]
  /\ typeMap st' = ∅ /\ display st' = [0; 1; 2].
Proof.
  eexists. split; [vm_compute; reflexivity|]. cbn [word nonWord typeMap display].
  repeat split; try done; vm_compute; reflexivity.
Qed.

(** *** An unknown field name *)

(** A key made of word characters only, and not empty: the keys for
    which the alternatives of the word expression are plain text. *)
Fixpoint word_chars (k : string) : bool :=
  match k with
  | EmptyString => true
  | String c k' => is_word c && word_chars k'
  end.

Definition identifier (k : string) : bool :=
  negb (String.eqb k "") && word_chars k.

(** The token lists as [filterData] builds them. *)
Definition all_words (table : list column) : list string :=
  sort_by by_length ((col_key <$> table) ++ List.filter word_like (fst <$> op)).

Definition all_symbols : list string :=
  sort_by by_length (List.filter (fun t => negb (word_like t)) (fst <$> op)).

(** The states the module can be in: each cache is still empty or holds
    what the table gives. *)
Definition state_ok (table : list column) (st : state) : Prop :=
  (typeMap st = ∅ \/ typeMap st = fill_typeMap table ∅)
  /\ (word st = [] \/ word st = all_words table)
  /\ (nonWord st = [] \/ nonWord st = all_symbols).

Lemma wordTokens_ok table st : state_ok table st -> wordTokens table st = all_words table.
Proof.
  intros (_ & [Hw|Hw] & _); unfold wordTokens; rewrite Hw; [done|].
  fold (all_words table). by destruct (all_words table).
Qed.

Lemma nonWordTokens_ok table st : state_ok table st -> nonWordTokens st = all_symbols.
Proof.
  intros (_ & _ & [Hw|Hw]); unfold nonWordTokens; rewrite Hw; reflexivity.
Qed.

Lemma insert_by_Forall {A} (P : A -> Prop) cmp x l :
  P x -> Forall P l -> Forall P (insert_by cmp x l).
Proof.
  intros Hx Hl. induction Hl as [|y l Hy Hl IH]; simpl; [by constructor|].
  destruct (cmp x y <=? 0); repeat constructor; done.
Qed.

Lemma sort_by_Forall {A} (P : A -> Prop) cmp l : Forall P l -> Forall P (sort_by cmp l).
Proof.
  induction 1 as [|x l Hx Hl IH]; simpl; [constructor|].
  by apply insert_by_Forall.
Qed.

Lemma insert_by_not_nil {A} cmp (x : A) l : insert_by cmp x l ≠ [].
Proof. destruct l as [|y l]; simpl; [done|]. by destruct (cmp x y <=? 0). Qed.

Lemma all_words_identifiers table :
  Forall (fun c => identifier (col_key c) = true) table ->
  Forall (fun k => identifier k = true) (all_words table).
Proof.
  intros Hkeys. apply sort_by_Forall, Forall_app. split.
  - apply Forall_fmap. exact Hkeys.
  - vm_compute. repeat constructor.
Qed.

Lemma all_words_not_nil table : all_words table ≠ [].
Proof.
  unfold all_words. destruct ((col_key <$> table) ++ _) as [|k l] eqn:Hl.
  - apply app_eq_nil in Hl as [_ Hl]. vm_compute in Hl. discriminate.
  - simpl. apply insert_by_not_nil.
Qed.

(** Letter case does not change what is a word character. *)
Lemma is_word_upper c : is_word (upper_char c) = is_word c.
Proof. destruct c as [[] [] [] [] [] [] [] []]; reflexivity. Qed.

(** Number of word characters at the front. *)
Fixpoint word_prefix (s : string) : nat :=
  match s with
  | String c s' => if is_word c then S (word_prefix s') else O
  | EmptyString => O
  end.

Lemma starts_with_word_prefix t s :
  word_chars t = true -> starts_with true t s = true ->
  (String.length t <= word_prefix s)%nat.
Proof.
  revert s. induction t as [|x t IH]; intros [|y s]; simpl; try lia; try discriminate.
  intros [Hx Ht]%andb_true_iff [Hxy Hts]%andb_true_iff.
  apply Ascii.eqb_eq in Hxy.
  assert (is_word y = true) as -> by (rewrite <- is_word_upper, <- Hxy, is_word_upper; done).
  specialize (IH s Ht Hts). lia.
Qed.

Lemma identifier_length t : identifier t = true -> (1 <= String.length t)%nat.
Proof. destruct t; simpl; [discriminate|lia]. Qed.

Lemma identifier_word_chars t : identifier t = true -> word_chars t = true.
Proof. unfold identifier. by intros [_ ?]%andb_true_iff. Qed.

(** On [foo = 1] the word expression matches [foo] or nothing. *)
Lemma first_word_foo W :
  Forall (fun k => identifier k = true) W ->
  first_word W "foo = 1" = None \/ first_word W "foo = 1" = Some 3%nat.
Proof.
  induction 1 as [|t W Ht HW IH]; simpl; [by left|].
  destruct (starts_with true t "foo = 1") eqn:Hstart; [|exact IH].
  pose proof (identifier_length t Ht) as Hlen.
  pose proof (starts_with_word_prefix t _ (identifier_word_chars t Ht) Hstart) as Hle.
  simpl in Hle.
  assert (String.length t = 1 \/ String.length t = 2 \/ String.length t = 3)%nat
    as [-> | [-> | ->]] by lia; cbn; auto.
Qed.

(** On [1] the word expression matches [1] or nothing. *)
Lemma first_word_one W :
  Forall (fun k => identifier k = true) W ->
  first_word W "1" = None \/ first_word W "1" = Some 1%nat.
Proof.
  induction 1 as [|t W Ht HW IH]; simpl; [by left|].
  destruct (starts_with true t "1") eqn:Hstart; [|exact IH].
  pose proof (identifier_length t Ht) as Hlen.
  pose proof (starts_with_word_prefix t _ (identifier_word_chars t Ht) Hstart) as Hle.
  simpl in Hle.
  assert (String.length t = 1)%nat as -> by lia. cbn. auto.
Qed.

Lemma consume_foo W :
  Forall (fun k => identifier k = true) W -> consume W all_symbols "foo = 1" = 3%nat.
Proof.
  intros HW. unfold consume.
  change (match_nonWords all_symbols "foo = 1") with (@None nat).
  change (match_words W "foo = 1") with (first_word W "foo = 1").
  by destruct (first_word_foo W HW) as [-> | ->].
Qed.

Lemma consume_one W :
  Forall (fun k => identifier k = true) W -> consume W all_symbols "1" = 1%nat.
Proof.
  intros HW. unfold consume.
  change (match_nonWords all_symbols "1") with (@None nat).
  change (match_words W "1") with (first_word W "1").
  by destruct (first_word_one W HW) as [-> | ->].
Qed.

Lemma consume_equals W : consume W all_symbols " = 1" = 3%nat.
Proof. reflexivity. Qed.

(** The tokens of [foo = 1]. *)
Lemma getTokens_foo W :
  Forall (fun k => identifier k = true) W -> W ≠ [] ->
  getTokens "foo = 1" W all_symbols = Some ["foo"; "="; "1"].
Proof.
  intros HW Hne. unfold getTokens. destruct W as [|w W]; [done|].
  change all_symbols with ("==" :: List.tl all_symbols) at 1.
  cbv iota. change ("==" :: List.tl all_symbols) with all_symbols.
  change (String.length "foo = 1") with 7%nat.
  cbn [scan]. rewrite (consume_foo _ HW).
  change (drop 3 "foo = 1") with " = 1". cbn [scan].
  rewrite consume_equals. change (drop 3 " = 1") with "1". cbn [scan].
  rewrite (consume_one _ HW). reflexivity.
Qed.

Lemma fill_typeMap_lookup_None table : forall (m : gmap string string) k,
    fill_typeMap table m !! k = None
    <-> m !! k = None /\ (k = "__proto__" \/ k ∉ (col_key <$> table)).
Proof.
  unfold fill_typeMap. induction table as [|c table IH]; intros m k; simpl.
  - split; [intros ?; split; [done|right; apply not_elem_of_nil] | by intros [? _]].
  - rewrite IH, not_elem_of_cons. destruct (String.eqb_spec (col_key c) "__proto__") as [Ec|Ec].
    + split; intros [Hm Hk]; (split; [done|]).
      * destruct (decide (k = "__proto__")) as [|Hne]; [by left|right].
        destruct Hk as [Hk|Hk]; [done|]. split; [congruence|done].
      * destruct Hk as [Hk|[_ Hk]]; [by left|by right].
    + split.
      * intros [Hm Hk]. apply lookup_insert_None in Hm as [Hm Hne]. split; [done|].
        destruct Hk as [Hk|Hk]; [by left|right]. by split.
      * intros [Hm Hk]. destruct Hk as [->|[Hne Hk]].
        -- split; [|by left]. apply lookup_insert_None. by split.
        -- split; [|by right]. apply lookup_insert_None. by split.
Qed.

(** The dry run of [foo, 1, =] when [foo] is no key of the type map. *)
Lemma check_loop_unknown `{Host} (m : gmap string string) filterRPN :
  m !! "foo" = None ->
  check_loop m ["foo"; "1"; "="] 0 [] filterRPN
  = (Some "Invalid field name: foo", [], filterRPN).
Proof.
  intros Hm. cbn [check_loop check_step]. cbn.
  unfold check_operator. cbn [token idx]. rewrite Hm.
  rewrite bool_decide_eq_false_2 by (intros [? ?]; discriminate). reflexivity.
Qed.

(** C7.  With keys that are identifiers, none of them [foo], the filter
    [foo = 1] is answered by the error "Invalid field name: foo", and
    [display] is as it was: every entry keeps its index and its flag. *)
Theorem filterData_unknown_field `{Host} (table : list column)
    (data : list (gmap string cell)) (st : state) :
  Forall (fun c => identifier (col_key c) = true) table ->
  "foo" ∉ (col_key <$> table) ->
  state_ok table st ->
  exists st',
  filterData table data "foo = 1" st = Some (st', Done (VStr "Invalid field name: foo"))
  /\ display st' = display st.
Proof.
  intros Hkeys Hfoo Hst. unfold filterData.
  change (String.eqb "foo = 1" "") with false. cbv iota.
  cbn [word nonWord typeMap display].
  rewrite (wordTokens_ok _ _ Hst), (nonWordTokens_ok _ _ Hst).
  rewrite getTokens_foo by auto using all_words_identifiers, all_words_not_nil.
  change (2 <? length ["foo"; "="; "1"])%nat with true. cbv iota.
  change (tokensToRPN ["foo"; "="; "1"]) with (Some ["foo"; "1"; "="]). cbv iota.
  unfold checkFilter.
  assert ((if bool_decide (typeMap st = ∅) then fill_typeMap table (typeMap st)
    else typeMap st) = fill_typeMap table ∅) as ->.
  { destruct Hst as ([Hm|Hm] & _); case_bool_decide; congruence. }
  rewrite check_loop_unknown.
  - eexists. split; reflexivity.
  - apply fill_typeMap_lookup_None. split; [apply lookup_empty|right; exact Hfoo].
Qed.

Lemma filterData_unknown_field_witness :
  exists st',
  filterData (H := Sample.plain_host) Sample.table Sample.data "foo = 1"
  (State ∅ [] [] [0; 1048577; 2])
  = Some (st', Done (VStr "Invalid field name: foo"))
  /\ display st' = [0; 1048577; 2].
Proof.
  apply (filterData_unknown_field (H := Sample.plain_host) Sample.table Sample.data
    (State ∅ [] [] [0; 1048577; 2])).
  - repeat constructor.
  - vm_compute. intros Hin. repeat (apply elem_of_cons in Hin as [Hin|Hin]; [discriminate|]).
    by apply elem_of_nil in Hin.
  - repeat split; by left.
Defined.

(** *** The stack of the evaluator after a successful dry run *)

(** A token that the dry run pushes as an operand. *)
Definition operandish (t : string) : bool := negb (is_op t) && negb (String.eqb t "!").

(** The element of the array that stands for token [t] after the dry
    run: operators and [!] are never written over. *)
Definition kept (t : string) (v : jsval) : Prop := operandish t = false -> v = VStr t.

(** Depth of the validator's stack after a token; [None] is a syntax error. *)
Definition cdepth (t : string) (d : nat) : option nat :=
  if is_op t then (if (2 <=? d)%nat then Some (d - 1)%nat else None)
  else if String.eqb t "!" then (if (1 <=? d)%nat then Some d else None)
  else Some (S d).

(** Depth of the evaluator's stack after an element of the array. *)
Definition rdepth (v : jsval) (d : nat) : nat :=
  match v with
  | VStr t => if is_op t then S (d - 2) else if String.eqb t "!" then S (d - 1) else S d
  | _ => S d
  end.

Fixpoint cfold (tokens : list string) (d : nat) : option nat :=
  match tokens with
  | [] => Some d
  | t :: tokens' => match cdepth t d with Some d' => cfold tokens' d' | None => None end
  end.

Fixpoint rfold (filterRPN : list jsval) (d : nat) : nat :=
  match filterRPN with
  | [] => d
  | v :: rest => rfold rest (rdepth v d)
  end.

(** What is on the validator's stack: a placeholder, or the operand read
    at its position. *)
Definition wf_entry (all : list string) (e : operand) : Prop :=
  idx e = -1 \/ (0 <= idx e /\ exists t, all !! Z.to_nat (idx e) = Some t /\ operandish t = true).

Lemma Forall2_insert_right {A B} (P : A -> B -> Prop) l k i y :
  Forall2 P l k -> (forall x, l !! i = Some x -> P x y) -> Forall2 P l (<[i:=y]> k).
Proof.
  intros Hlk. revert i. induction Hlk as [|x z l k Hxz Hlk IH]; intros i Hy; [constructor|].
  destruct i as [|i]; simpl; constructor; auto.
Qed.

Lemma store_kept all e v filterRPN :
  wf_entry all e -> Forall2 kept all filterRPN -> Forall2 kept all (store (idx e) v filterRPN).
Proof.
  intros Hwf Hall. unfold store. destruct (Z.ltb_spec (idx e) 0) as [|Hge]; [done|].
  destruct Hwf as [Hm|(_ & t & Ht & Hop)]; [lia|].
  apply Forall2_insert_right; [done|].
  intros x Hx. unfold kept. congruence.
Qed.

Lemma check_ip_kept all o2 filterRPN filterRPN' :
  wf_entry all o2 -> Forall2 kept all filterRPN ->
  check_ip o2 filterRPN = (None, filterRPN') -> Forall2 kept all filterRPN'.
Proof.
  unfold check_ip. intros Hwf Hall. case_match; intros [= <-]. by apply store_kept.
Qed.

Lemma check_operator_kept `{Host} all m tok o1 o2 filterRPN filterRPN' :
  wf_entry all o2 -> Forall2 kept all filterRPN ->
  check_operator m tok o1 o2 filterRPN = (None, filterRPN') ->
  Forall2 kept all filterRPN'.
Proof.
  intros Hwf Hall. unfold check_operator.
  destruct (_ && _); [discriminate|].
  destruct (match token o2 with EmptyString => _ | String _ _ => _ end)
    as [o2' rpn1] eqn:Hquote.
  assert (wf_entry all o2' /\ Forall2 kept all rpn1) as [Hwf' Hall'].
  { destruct (token o2) as [|c t]; [by injection Hquote as <- <-|].
    destruct (Ascii.eqb c dquote); injection Hquote as <- <-; [|done].
    split; [exact Hwf | by apply store_kept]. }
  repeat case_match; intros Heq; try discriminate;
    try (injection Heq as <-); eauto using store_kept, check_ip_kept.
Qed.

Lemma check_step_ok `{Host} all m t i stack filterRPN stack' filterRPN' :
  all !! i = Some t ->
  Forall (wf_entry all) stack -> Forall2 kept all filterRPN ->
  check_step m t i stack filterRPN = (None, stack', filterRPN') ->
  Forall (wf_entry all) stack' /\ Forall2 kept all filterRPN'
  /\ cdepth t (length stack) = Some (length stack').
Proof.
  intros Ht Hstack Hall. unfold check_step, cdepth.
  destruct (is_op t) eqn:Hop.
  - destruct stack as [|o2 [|o1 rest]]; try discriminate.
    destruct (check_operator m t o1 o2 filterRPN) as [[e|] rpn1] eqn:Hcheck; [discriminate|].
    intros [= <- <-]. apply Forall_cons in Hstack as [Ho2 Hstack].
    apply Forall_cons in Hstack as [Ho1 Hrest].
    split; [|split].
    + constructor; [left; reflexivity|exact Hrest].
    + exact (check_operator_kept all m t o1 o2 _ _ Ho2 Hall Hcheck).
    + simpl. f_equal; lia.
  - destruct (String.eqb t "!") eqn:Hnot.
    + destruct stack as [|o1 rest]; [discriminate|]. intros [= <- <-].
      apply Forall_cons in Hstack as [Ho1 Hrest].
      split; [|split]; [constructor; [left; reflexivity|exact Hrest] | done | reflexivity].
    + intros [= <- <-]. split; [|split]; [|done|reflexivity].
      constructor; [|done]. right. cbn [idx]. split; [lia|].
      exists t. rewrite Nat2Z.id. split; [done|]. unfold operandish. by rewrite Hop, Hnot.
Qed.

Lemma check_loop_ok `{Host} all m : forall tokens pre stack filterRPN stack' filterRPN',
    all = pre ++ tokens ->
    Forall (wf_entry all) stack -> Forall2 kept all filterRPN ->
    check_loop m tokens (length pre) stack filterRPN = (None, stack', filterRPN') ->
    Forall2 kept all filterRPN' /\ cfold tokens (length stack) = Some (length stack').
Proof.
  induction tokens as [|t tokens IH]; intros pre stack rpn stack' rpn' Hall Hstack Hkept.
  - intros [= <- <-]. by split.
  - cbn [check_loop cfold].
    destruct (check_step m t (length pre) stack rpn) as [[[e|] stack1] rpn1] eqn:Hstep;
      [discriminate|].
    intros Hloop.
    destruct (check_step_ok all m t (length pre) stack rpn stack1 rpn1) as (Hs1 & Hk1 & Hd);
      [|done|done|done|].
    { rewrite Hall. by rewrite list_lookup_middle. }
    rewrite Hd.
    apply (IH (pre ++ [t]) stack1 rpn1 stack' rpn'); [|done|done|].
    + by rewrite <- app_assoc.
    + by rewrite length_app, Nat.add_1_r.
Qed.

Lemma rdepth_mono v d e : (d <= e)%nat -> (rdepth v d <= rdepth v e)%nat.
Proof. intros. unfold rdepth. repeat case_match; lia. Qed.

Lemma rdepth_below_cdepth t v d d' :
  kept t v -> cdepth t d = Some d' -> (rdepth v d <= d')%nat.
Proof.
  unfold kept, cdepth, rdepth, operandish. intros Hkept.
  destruct (is_op t) eqn:Hop.
  - rewrite (Hkept eq_refl), Hop. destruct (Nat.leb_spec 2 d); intros [= <-]; lia.
  - destruct (String.eqb t "!") eqn:Hnot.
    + rewrite (Hkept eq_refl), Hop, Hnot. destruct (Nat.leb_spec 1 d); intros [= <-]; lia.
    + intros [= <-]. repeat case_match; lia.
Qed.

Lemma rfold_below_cfold tokens filterRPN :
  Forall2 kept tokens filterRPN ->
  forall d e d', (e <= d)%nat -> cfold tokens d = Some d' -> (rfold filterRPN e <= d')%nat.
Proof.
  induction 1 as [|t v tokens rpn Hkept Hall IH]; intros d e d' Hle; simpl.
  - intros [= <-]. done.
  - destruct (cdepth t d) as [d1|] eqn:Hd; [|discriminate]. apply IH.
    etransitivity; [apply rdepth_mono, Hle|]. by eapply rdepth_below_cdepth.
Qed.

Lemma rfold_positive filterRPN d : filterRPN ≠ [] -> (1 <= rfold filterRPN d)%nat.
Proof.
  revert d. induction filterRPN as [|v [|w rest] IH]; intros d Hne; [done| |].
  - simpl. unfold rdepth. repeat case_match; lia.
  - change (rfold (v :: w :: rest) d) with (rfold (w :: rest) (rdepth v d)). by apply IH.
Qed.

Lemma eval_step_length `{Host} data rowID stack tok stack' :
  eval_step data rowID stack tok = Done stack' -> length stack' = rdepth tok (length stack).
Proof.
  unfold eval_step, rdepth. destruct tok; try (intros [= <-]; reflexivity).
  destruct (is_op s).
  - destruct stack as [|a [|b rest]]; cbn [pop];
      destruct (eval_operator _ _ _ _ _); try discriminate; intros [= <-]; simpl; lia.
  - destruct (String.eqb s "!"); [|intros [= <-]; reflexivity].
    destruct stack as [|a rest]; cbn [pop]; intros [= <-]; simpl; lia.
Qed.

Lemma replay_length `{Host} data rowID filterRPN : forall stack stack',
    replay data rowID stack filterRPN = Done stack' ->
    length stack' = rfold filterRPN (length stack).
Proof.
  induction filterRPN as [|tok rest IH]; intros stack stack'; simpl.
  - by intros [= <-].
  - destruct (eval_step data rowID stack tok) as [stack1|] eqn:Hstep; [|discriminate].
    simpl. intros Hrest. rewrite (IH _ _ Hrest). f_equal. by eapply eval_step_length.
Qed.

(** Once the dry run has accepted a sequence, a replay of the rewritten
    array that comes to its end has exactly one value on the stack. *)
Lemma accepted_replay_single `{Host} table m tokens filterRPN m' data rowID stack :
  checkFilter table m tokens = (VBool true, filterRPN, m') ->
  replay data rowID [] filterRPN = Done stack ->
  length stack = 1%nat.
Proof.
  unfold checkFilter. intros Hcheck Hreplay.
  destruct (check_loop _ tokens 0 [] (VStr <$> tokens)) as [[[e|] st] rpn] eqn:Hloop;
    [discriminate|].
  destruct (Nat.eqb_spec (length st) 1) as [Hlen|]; [|discriminate].
  injection Hcheck as <- <-.
  destruct (check_loop_ok tokens (if bool_decide (m = ∅) then fill_typeMap table m else m)
    tokens [] [] (VStr <$> tokens) st rpn) as [Hkept Hfold];
    [done|constructor| |exact Hloop|].
  { apply Forall2_fmap_r, Forall_Forall2_diag, Forall_forall. by intros t _ _. }
  rewrite (replay_length _ _ _ _ _ Hreplay). simpl in *. rewrite Hlen in Hfold.
  pose proof (rfold_below_cfold _ _ Hkept 0%nat 0%nat 1%nat (le_n _) Hfold).
  assert (rpn ≠ []) as Hne.
  { intros ->. apply Forall2_nil_inv_r in Hkept as ->. simpl in Hfold. discriminate. }
  pose proof (rfold_positive rpn 0 Hne). lia.
Qed.

(** So [runFilter] never comes back with "Filter syntax error (4)" after
    a successful dry run. *)
Lemma run_rows_no_error4 `{Host} table m tokens filterRPN m' data display :
  checkFilter table m tokens = (VBool true, filterRPN, m') ->
  (runFilter data filterRPN display).2 ≠ Done (VStr "Filter syntax error (4)").
Proof.
  intros Hcheck. unfold runFilter.
  induction display as [|entry display IH]; simpl; [discriminate|].
  destruct (replay data (unhide entry) [] filterRPN) as [stack|e] eqn:Hreplay; [|discriminate].
  pose proof (accepted_replay_single _ _ _ _ _ _ _ _ Hcheck Hreplay) as Hlen.
  destruct stack as [|v [|w rest]]; try discriminate.
  destruct (run_rows data filterRPN display). exact IH.
Qed.

(** The literal between double quotes. *)
Definition in_quotes (t : string) : string := String dquote (t +:+ String dquote "").

(** C1.  The dry run accepts sequences that the evaluator cannot replay.
    For [label = x = y] the second comparison finds the boolean of the
    first one where a column key is expected; for a quoted literal that
    spells an operator, the rewritten operand is run as that operator and
    the comparison is left without its field.  Both replays end in a
    TypeError on the first row, before any entry of [display] is set. *)
Theorem accepted_filter_replay_throws :
  tokensToRPN ["label"; "="; "x"; "="; "y"] = Some ["label"; "x"; "="; "y"; "="]
  /\ checkFilter (H := Sample.plain_host) Sample.table ∅ ["label"; "x"; "="; "y"; "="]
  = (VBool true, [VStr "label"; VStr "X"; VStr "="; VStr "Y"; VStr "="],
     fill_typeMap Sample.table ∅)
  /\ replay (H := Sample.plain_host) Sample.data 0 []
  [VStr "label"; VStr "X"; VStr "="; VStr "Y"; VStr "="] = Thrown "TypeError"
  /\ (exists st',
      filterData (H := Sample.plain_host) Sample.table Sample.data "label = x = y"
      (State ∅ [] [] [0; 1; 2]) = Some (st', Thrown "TypeError")
      /\ display st' = [0; 1; 2])
  /\ checkFilter (H := Sample.plain_host) Sample.table ∅ ["label"; in_quotes "AND"; "="]
  = (VBool true, [VStr "label"; VStr "AND"; VStr "="], fill_typeMap Sample.table ∅)
  /\ replay (H := Sample.plain_host) Sample.data 0 []
  [VStr "label"; VStr "AND"; VStr "="] = Thrown "TypeError".
Proof.
  split; [reflexivity|]. split; [vm_compute; reflexivity|].
  split; [vm_compute; reflexivity|]. split.
  - eexists. split; vm_compute; reflexivity.
  - split; vm_compute; reflexivity.
Qed.

End FilterFacts.

(** ** Sorting *)

Module SortFacts.
Import JsString Js Common FilterSort.

(** *** Order on the Numbers that are not [NaN] *)

Definition leb (a b : number) : bool := negb (lt b a).

Lemma Qle_bool_false x y : Qle_bool x y = false -> Qle_bool y x = true.
Proof.
  intros Hxy. apply Qle_bool_iff. destruct (Qlt_le_dec y x) as [Hlt|Hle].
  - by apply Qlt_le_weak.
  - apply Qle_bool_iff in Hle. congruence.
Qed.

Lemma lt_asym a b : lt a b = true -> leb a b = true.
Proof.
  unfold leb. destruct a, b; simpl; try done.
  intros Hlt%negb_true_iff. by rewrite (Qle_bool_false _ _ Hlt).
Qed.

Lemma leb_trans a b c :
  isNaN b = false -> leb a b = true -> leb b c = true -> leb a c = true.
Proof.
  unfold leb. destruct a, b, c; simpl; try done.
  rewrite !negb_involutive. intros _ Hab%Qle_bool_iff Hbc%Qle_bool_iff.
  apply Qle_bool_iff. eapply Qle_trans; eassumption.
Qed.

Lemma lt_not_eqb a b k : lt a b = true -> eqb a k = true -> eqb b k = true -> False.
Proof.
  destruct a, b, k; simpl; try done.
  intros Hlt%negb_true_iff Ha%Qeq_bool_iff Hb%Qeq_bool_iff.
  assert (Qle_bool q0 q = true); [|congruence].
  apply Qle_bool_iff. rewrite Ha, Hb. apply Qle_refl.
Qed.

(** *** Insertion with a comparator that always answers *)

Section Insertion.
Context {A : Type} (cmp : A -> A -> Z).

Lemma insert_by_perm x l : insert_by cmp x l ≡ₚ x :: l.
Proof.
  induction l as [|y l IH]; simpl; [done|].
  destruct (cmp x y <=? 0); [done|]. rewrite IH. apply Permutation_swap.
Qed.

Lemma sort_by_perm l : sort_by cmp l ≡ₚ l.
Proof.
  induction l as [|x l IH]; simpl; [done|].
  rewrite insert_by_perm. by constructor.
Qed.

(** [before] is the order the comparator stands for. *)
Context (before : A -> A -> Prop) (ok : A -> Prop).
Context (before_trans : forall x y z, ok x -> ok y -> ok z ->
    before x y -> before y z -> before x z).
Context (cmp_le : forall x y, ok x -> ok y -> cmp x y <= 0 -> before x y).
Context (cmp_gt : forall x y, ok x -> ok y -> 0 < cmp x y -> before y x).

Lemma insert_by_sorted x l :
  ok x -> Forall ok l ->
  StronglySorted before l -> StronglySorted before (insert_by cmp x l).
Proof.
  intros Hx Hok Hl. induction Hl as [|y l Hl IH Hy]; simpl.
  - repeat constructor.
  - apply Forall_cons in Hok as [Hoky Hok].
    destruct (Z.leb_spec (cmp x y) 0) as [Hle|Hgt].
    + constructor; [by constructor|]. constructor; [by apply cmp_le|].
      rewrite Forall_forall in Hy, Hok. apply Forall_forall. intros z Hz.
      apply (before_trans x y z); auto.
    + constructor; [by apply IH|].
      rewrite insert_by_perm. constructor; [by apply cmp_gt|done].
Qed.

Lemma sort_by_sorted l : Forall ok l -> StronglySorted before (sort_by cmp l).
Proof.
  induction 1 as [|x l Hx Hl IH]; simpl; [constructor|].
  apply insert_by_sorted; [done| |done]. by rewrite sort_by_perm.
Qed.

(** A class of elements that the comparator never tells apart from one
    another, and never puts after [x] when [x] is in it. *)
Context (same : A -> bool).
Context (cmp_gt_same : forall x y, ok x -> ok y -> 0 < cmp x y ->
    same x = true -> same y = true -> False).

Lemma insert_by_filter x l :
  ok x -> Forall ok l ->
  List.filter same (insert_by cmp x l) = List.filter same (x :: l).
Proof.
  intros Hx Hok. induction Hok as [|y l Hy Hok IH]; [done|].
  cbn [insert_by]. destruct (Z.leb_spec (cmp x y) 0) as [Hle|Hgt]; [done|].
  cbn [List.filter] in *. rewrite IH.
  destruct (same x) eqn:Hsx, (same y) eqn:Hsy; try done.
  destruct (cmp_gt_same x y); done.
Qed.

Lemma sort_by_filter l :
  Forall ok l -> List.filter same (sort_by cmp l) = List.filter same l.
Proof.
  induction 1 as [|x l Hx Hl IH]; [done|].
  cbn [sort_by foldr]. fold (sort_by cmp l).
  rewrite insert_by_filter; [|done|by rewrite sort_by_perm].
  cbn [List.filter]. by rewrite IH.
Qed.

End Insertion.

(** *** The comparator of [sortData] on a ranged column *)

(** The cell of column [colKey] in the row that a [display] entry names. *)
Definition entry_cell (data : list (gmap string cell)) (colKey : string) (e : Z)
    : option cell :=
  match data !! Z.to_nat (unhide e) with
  | Some row => row !! colKey
  | None => None
  end.

(** The entry names a row whose cell has the ranged representation:
    [cmpMin] and [cmpMax] are Numbers, as the normaliser leaves them. *)
Definition ranged (data : list (gmap string cell)) (colKey : string) (e : Z) : Prop :=
  exists c lo hi,
  entry_cell data colKey e = Some c
  /\ cmpMin c = Some (VNum lo) /\ cmpMax c = Some (VNum hi)
  /\ isNaN lo = false /\ isNaN hi = false.

(** The bound the entry is sorted by: [cmpMin] upwards, [cmpMax] downwards. *)
Definition bound (data : list (gmap string cell)) (colKey : string) (order : bool) (e : Z)
    : number :=
  match entry_cell data colKey e with
  | Some c =>
      match (if order then cmpMin c else cmpMax c) with
      | Some (VNum n) => n
      | _ => NaN
      end
  | None => NaN
  end.

(** The answer of the comparator on two bounds. *)
Definition three_way (order : bool) (a b : number) : Z :=
  if order then (if lt b a then 1 else if lt a b then -1 else 0)
  else (if lt a b then 1 else if lt b a then -1 else 0).

(** [a] may stand before [b]. *)
Definition before (data : list (gmap string cell)) (colKey : string) (order : bool)
    (a b : Z) : Prop :=
  if order then leb (bound data colKey true a) (bound data colKey true b) = true
  else leb (bound data colKey false b) (bound data colKey false a) = true.

Lemma unhide_nonneg e : 0 <= unhide e.
Proof. unfold unhide. apply Z.land_nonneg. right. lia. Qed.

Lemma cell_at_entry `{Host} data colKey e c :
  entry_cell data colKey e = Some c -> cell_at data (unhide e) (VStr colKey) = Done c.
Proof.
  unfold entry_cell, cell_at. intros Hc.
  destruct (Z.ltb_spec (unhide e) 0) as [Hneg|_]; [pose proof (unhide_nonneg e); lia|].
  destruct (data !! Z.to_nat (unhide e)) as [row|]; [|done].
  cbn [ToString]. by rewrite Hc.
Qed.

Lemma compare_rows_ranged `{Host} data colKey order a b :
  ranged data colKey a -> ranged data colKey b ->
  compare_rows data colKey order a b
  = Done (three_way order (bound data colKey order a) (bound data colKey order b)).
Proof.
  intros (ca & loa & hia & Hca & Hmina & Hmaxa & _) (cb & lob & hib & Hcb & Hminb & Hmaxb & _).
  unfold compare_rows, bound. rewrite (cell_at_entry _ _ _ _ Hca), Hca, Hcb. cbn [bind].
  rewrite bool_decide_eq_true_2 by (rewrite Hmina; eauto).
  destruct order; rewrite (cell_at_entry _ _ _ _ Hcb); cbn [bind];
    rewrite ?Hmina, ?Hminb, ?Hmaxa, ?Hmaxb; reflexivity.
Qed.

Lemma insert_row_pure (cmpM : Z -> Z -> outcome Z) (cmp : Z -> Z -> Z) x l :
  (forall y, y ∈ l -> cmpM x y = Done (cmp x y)) ->
  insert_row cmpM x l = Done (insert_by cmp x l).
Proof.
  induction l as [|y l IH]; intros Hcmp; simpl; [done|].
  rewrite (Hcmp y) by left. cbn [bind]. destruct (cmp x y <=? 0); [done|].
  rewrite IH; [done|]. intros z Hz. apply Hcmp. by right.
Qed.

Lemma sort_rows_pure (cmpM : Z -> Z -> outcome Z) (cmp : Z -> Z -> Z) l :
  (forall x y, x ∈ l -> y ∈ l -> cmpM x y = Done (cmp x y)) ->
  sort_rows cmpM l = Done (sort_by cmp l).
Proof.
  induction l as [|x l IH]; intros Hcmp; simpl; [done|].
  rewrite IH by (intros; apply Hcmp; by right). cbn [bind].
  apply insert_row_pure. intros y Hy. apply Hcmp; [by left|].
  right. by rewrite <- (sort_by_perm cmp l).
Qed.

Lemma bound_not_NaN data colKey order e :
  ranged data colKey e -> isNaN (bound data colKey order e) = false.
Proof.
  intros (c & lo & hi & Hc & Hmin & Hmax & Hlo & Hhi). unfold bound. rewrite Hc.
  destruct order; by rewrite ?Hmin, ?Hmax.
Qed.

(** C8.  On a column whose cells carry [cmpMin] and [cmpMax], [sortData]
    returns, and leaves in [display] the same packed entries (each index
    with its hidden flag) in another order: upwards every entry stands
    before the entries of greater or equal [cmpMin], downwards before
    those of smaller or equal [cmpMax], and the entries of any one bound
    keep the order they had. *)
Theorem sortData_ranged `{Host} (data : list (gmap string cell)) (colKey : string)
    (order : bool) (display : list Z) :
  Forall (ranged data colKey) display ->
  exists sorted,
  sortData data colKey order display = Done sorted
  /\ sorted ≡ₚ display
  /\ StronglySorted (before data colKey order) sorted
  /\ forall k, List.filter (fun e => eqb (bound data colKey order e) k) sorted
  = List.filter (fun e => eqb (bound data colKey order e) k) display.
Proof.
  intros Hranged.
  set (cmp := fun a b => three_way order (bound data colKey order a) (bound data colKey order b)).
  exists (sort_by cmp display). split; [|split; [|split]].
  - unfold sortData. apply sort_rows_pure. intros x y Hx Hy.
    rewrite Forall_forall in Hranged. by apply compare_rows_ranged; apply Hranged.
  - apply sort_by_perm.
  - apply (sort_by_sorted cmp (before data colKey order) (ranged data colKey)); [| | |done].
    + intros x y z _ Hy _. unfold before. destruct order; intros Hxy Hyz.
      * eapply leb_trans; eauto using bound_not_NaN.
      * eapply leb_trans; eauto using bound_not_NaN.
    + intros x y _ _. unfold cmp, three_way, before, leb.
      destruct order; repeat case_match; simpl; try lia; try done.
    + intros x y _ _. unfold cmp, three_way, before.
      destruct order; repeat case_match; try lia; intros _; by apply lt_asym.
  - intros k.
    apply (sort_by_filter cmp (ranged data colKey)); [|done].
    intros x y _ _. unfold cmp, three_way.
    destruct order; repeat case_match; try lia; intros _ Hx Hy; eauto using lt_not_eqb.
Qed.

(** The ports of the sample rows are 80-443, 53 and 80-8080; the second
    row is hidden. *)
Lemma sortData_ranged_witness :
  Forall (ranged Sample.data "ports") [0; 1048577; 2]
  /\ exists sorted,
  sortData (H := Sample.plain_host) Sample.data "ports" true [0; 1048577; 2] = Done sorted
  /\ sorted ≡ₚ [0; 1048577; 2]
  /\ StronglySorted (before Sample.data "ports" true) sorted
  /\ forall k, List.filter (fun e => eqb (bound Sample.data "ports" true e) k) sorted
  = List.filter (fun e => eqb (bound Sample.data "ports" true e) k)
  [0; 1048577; 2].
Proof.
  assert (Forall (ranged Sample.data "ports") [0; 1048577; 2]) as Hranged.
  { repeat constructor; eexists _, _, _; (split; [vm_compute; reflexivity|]);
      repeat split; reflexivity. }
  split; [exact Hranged|].
  exact (sortData_ranged (H := Sample.plain_host) Sample.data "ports" true _ Hranged).
Defined.

Example sortData_ports :
  sortData (H := Sample.plain_host) Sample.data "ports" true [0; 1048577; 2]
  = Done [1048577; 0; 2]
  /\ sortData (H := Sample.plain_host) Sample.data "ports" false [0; 1048577; 2]
  = Done [2; 0; 1048577].
Proof. split; vm_compute; reflexivity. Qed.

End SortFacts.

(** ** The display array: filtering, clearing, rendering *)

Module DisplayFacts.
Import JsString Js Common FilterSort Main.

Lemma int32_small x : - 2 ^ 31 <= x < 2 ^ 31 -> int32 x = x.
Proof. intros Hx. unfold int32. rewrite Z.mod_small; lia. Qed.

Lemma unhide_range x : 0 <= unhide x < 2 ^ 20.
Proof.
  unfold unhide. change 1048575 with (Z.ones 20). rewrite Z.land_ones by lia.
  apply Z.mod_pos_bound. lia.
Qed.

Lemma unhide_small x : 0 <= x < 2 ^ 20 -> unhide x = x.
Proof.
  intros Hx. unfold unhide. rewrite int32_small by lia.
  change 1048575 with (Z.ones 20). rewrite Z.land_ones by lia. apply Z.mod_small. lia.
Qed.

Lemma unhide_unhide x : unhide (unhide x) = unhide x.
Proof. apply unhide_small, unhide_range. Qed.

Lemma testbit_int32 x i : 0 <= i < 32 -> Z.testbit (int32 x) i = Z.testbit x i.
Proof.
  intros Hi. unfold int32.
  replace ((x + 2 ^ 31) mod 2 ^ 32 - 2 ^ 31)
    with (x + (- ((x + 2 ^ 31) / 2 ^ 32)) * 2 ^ 32).
  2: { pose proof (Z.div_mod (x + 2 ^ 31) (2 ^ 32)). lia. }
  rewrite <- (Z.mod_pow2_bits_low _ 32 i) by lia.
  rewrite <- (Z.mod_pow2_bits_low x 32 i) by lia.
  f_equal. rewrite Z.mod_add; lia.
Qed.

Lemma testbit_ones20 i : 0 <= i -> Z.testbit 1048575 i = (i <? 20).
Proof.
  intros Hi. change 1048575 with (Z.ones 20).
  destruct (Z.ltb_spec i 20).
  - apply Z.ones_spec_low. lia.
  - apply Z.ones_spec_high. lia.
Qed.

Lemma testbit_bit20 i : 0 <= i -> Z.testbit 1048576 i = (i =? 20).
Proof.
  intros Hi. change 1048576 with (2 ^ 20).
  destruct (Z.eqb_spec i 20) as [->|Hne].
  - apply Z.pow2_bits_true. lia.
  - apply Z.pow2_bits_false. lia.
Qed.

Lemma unhide_hide x : unhide (hide x) = unhide x.
Proof.
  unfold unhide, hide. apply Z.bits_inj'. intros i Hi.
  rewrite !Z.land_spec, testbit_ones20 by done.
  destruct (Z.ltb_spec i 20); [|by rewrite !andb_false_r].
  rewrite !andb_true_r, testbit_int32, Z.lor_spec, testbit_bit20 by lia.
  replace (i =? 20) with false by lia. by rewrite orb_false_r.
Qed.

Lemma land_bit20 a : Z.land a 1048576 = if Z.testbit a 20 then 1048576 else 0.
Proof.
  apply Z.bits_inj'. intros i Hi. rewrite Z.land_spec, testbit_bit20 by done.
  destruct (Z.eqb_spec i 20) as [->|Hne].
  - rewrite andb_true_r. destruct (Z.testbit a 20) eqn:E; [done|]. by rewrite Z.bits_0.
  - rewrite andb_false_r. destruct (Z.testbit a 20).
    + rewrite testbit_bit20 by done. symmetry. by apply Z.eqb_neq.
    + by rewrite Z.bits_0.
Qed.

Lemma hidden_bit x : hidden x = Z.testbit x 20.
Proof.
  unfold hidden. rewrite land_bit20, testbit_int32 by lia. by destruct (Z.testbit x 20).
Qed.

Lemma hidden_hide x : hidden (hide x) = true.
Proof.
  rewrite hidden_bit. unfold hide. rewrite Z.lor_spec, testbit_bit20 by lia. apply orb_true_r.
Qed.

Lemma hidden_unhide x : hidden (unhide x) = false.
Proof.
  rewrite hidden_bit. unfold unhide. rewrite Z.land_spec, testbit_ones20 by lia. apply andb_false_r.
Qed.

(** Whether the row of an entry passes the filter: the one value its
    replay leaves is truthy. *)
Definition passes `{Host} (data : list (gmap string cell)) (filterRPN : list jsval)
    (entry : Z) : bool :=
  match replay data (unhide entry) [] filterRPN with
  | Done [v] => truthy v
  | _ => false
  end.

(** The entry as [runFilter] leaves it. *)
Definition mark `{Host} (data : list (gmap string cell)) (filterRPN : list jsval)
    (entry : Z) : Z :=
  if passes data filterRPN entry then unhide entry else hide entry.

Lemma run_rows_ids `{Host} data filterRPN display :
  unhide <$> (run_rows data filterRPN display).1 = unhide <$> display.
Proof.
  induction display as [|e display IH]; [done|]. cbn [run_rows].
  destruct (replay data (unhide e) [] filterRPN) as [[|v [|]]|]; try done.
  destruct (run_rows data filterRPN display) as [d r]. cbn [fst] in *.
  rewrite !fmap_cons, IH. f_equal. destruct (truthy v); [apply unhide_unhide|apply unhide_hide].
Qed.

Lemma run_rows_done `{Host} data filterRPN display :
  (run_rows data filterRPN display).2 = Done (VBool true) ->
  (run_rows data filterRPN display).1 = mark data filterRPN <$> display.
Proof.
  induction display as [|e display IH]; [done|]. cbn [run_rows].
  rewrite fmap_cons. unfold mark at 1, passes.
  destruct (replay data (unhide e) [] filterRPN) as [[|v [|]]|]; try done.
  destruct (run_rows data filterRPN display) as [d r]. cbn [fst snd] in *.
  intros Hr. by rewrite (IH Hr).
Qed.

Lemma visibleRows_mark `{Host} data filterRPN display :
  visibleRows (mark data filterRPN <$> display)
  = unhide <$> List.filter (passes data filterRPN) display.
Proof.
  unfold visibleRows. induction display as [|e display IH]; [done|].
  rewrite fmap_cons. cbn [List.filter].
  destruct (passes data filterRPN e) eqn:Hp.
  - assert (mark data filterRPN e = unhide e) as -> by (unfold mark; by rewrite Hp).
    rewrite hidden_unhide. cbn [negb]. by rewrite fmap_cons, IH.
  - assert (mark data filterRPN e = hide e) as -> by (unfold mark; by rewrite Hp).
    rewrite hidden_hide. cbn [negb]. apply IH.
Qed.

(** X1.  However [runFilter] ends, [display] keeps its length and every
    entry keeps its row number, so the order of the rows is untouched.
    When it ends well, an entry is shown exactly when the replay of its
    row left one truthy value, and the rows that [renderBody] draws are
    those entries, in their order. *)
Theorem runFilter_marks_rows `{Host} (data : list (gmap string cell))
    (filterRPN : list jsval) (display : list Z) :
  let '(display', result) := runFilter data filterRPN display in
  length display' = length display
  /\ unhide <$> display' = unhide <$> display
  /\ (result = Done (VBool true) ->
      display' = mark data filterRPN <$> display
      /\ visibleRows display' = unhide <$> List.filter (passes data filterRPN) display).
Proof.
  unfold runFilter.
  pose proof (run_rows_ids data filterRPN display) as Hids.
  pose proof (run_rows_done data filterRPN display) as Hdone.
  destruct (run_rows data filterRPN display) as [d r]. cbn [fst snd] in *.
  split; [|split; [done|]].
  - apply (f_equal length) in Hids. by rewrite !length_fmap in Hids.
  - intros ->. rewrite Hdone by done. split; [done|]. apply visibleRows_mark.
Qed.

(** An entry as [init] makes it: a row number below 2^20, shown. *)
Definition row_id (e : Z) : Prop := 0 <= e < 1048576.

(** X2.  On a [display] of shown rows, the loop of [clearFilter] after any
    run of [runFilter], finished or cut short, gives the array back as
    it was, and [renderBody] draws every row again. *)
Theorem clearFilter_restores `{Host} (data : list (gmap string cell))
    (filterRPN : list jsval) (display : list Z) :
  Forall row_id display ->
  show_all (runFilter data filterRPN display).1 = display
  /\ visibleRows (show_all (runFilter data filterRPN display).1) = display.
Proof.
  intros Hd. unfold show_all, runFilter. rewrite run_rows_ids.
  assert (unhide <$> display = display) as ->.
  { induction Hd as [|e l He _ IH]; [done|]. rewrite fmap_cons, IH. f_equal.
    apply unhide_small. unfold row_id in He. lia. }
  split; [done|]. unfold visibleRows.
  induction Hd as [|e l He _ IH]; [done|]. cbn [List.filter].
  rewrite <- (unhide_small e) at 1 by (unfold row_id in He; lia).
  rewrite hidden_unhide. cbn. by rewrite IH.
Qed.

Lemma clearFilter_restores_witness :
  Forall row_id [0; 1; 2]
  /\ show_all (runFilter (H := Sample.plain_host) Sample.data
                [VStr "label"; VStr "DNS"; VStr "="] [0; 1; 2]).1 = [0; 1; 2]
  /\ visibleRows (show_all (runFilter (H := Sample.plain_host) Sample.data
                             [VStr "label"; VStr "DNS"; VStr "="] [0; 1; 2]).1)
     = [0; 1; 2].
Proof.
  assert (Forall row_id [0; 1; 2]) as Hd by (repeat constructor; unfold row_id; lia).
  split; [exact Hd|].
  exact (clearFilter_restores (H := Sample.plain_host) Sample.data
           [VStr "label"; VStr "DNS"; VStr "="] [0; 1; 2] Hd).
Defined.

End DisplayFacts.

(** ** The conversion to Reverse Polish Notation *)

Module ParserFacts.
Import JsString Js Common FilterSort.

(** *** When the conversion comes back *)

(** Whether every [")"] of the tokens finds an opening marker that is
    still open, [depth] of them being open at the start. *)
Fixpoint closes (depth : nat) (tokens : list string) : bool :=
  match tokens with
  | [] => true
  | t :: tokens' =>
      if is_opening t then closes (S depth) tokens'
      else if String.eqb t ")" then
        match depth with
        | O => false
        | S depth' => closes depth' tokens'
        end
      else closes depth tokens'
  end.

(** Number of opening markers on the stack. *)
Definition markers (stack : list string) : nat :=
  length (List.filter is_opening stack).

Lemma is_opening_cases t :
  is_opening t = true -> t = "(" \/ t = "!(" \/ t = "NOT(".
Proof.
  unfold is_opening. intros Ht.
  destruct (String.eqb_spec t "("); [by left|].
  destruct (String.eqb_spec t "!("); [by right; left|].
  destruct (String.eqb_spec t "NOT("); [by right; right|]. done.
Qed.

Lemma is_opening_not_op t : is_opening t = true -> assoc t op = None.
Proof. by intros [E|[E|E]]%is_opening_cases; subst. Qed.

Lemma is_opening_upper t : is_opening t = true -> toUpperCase t = t.
Proof. by intros [E|[E|E]]%is_opening_cases; subst. Qed.

Lemma unwind_ops_markers p : forall stack output,
    markers (unwind_ops p stack output).1 = markers stack.
Proof.
  induction stack as [|top stack IH]; intros output; [done|]. cbn [unwind_ops].
  destruct (assoc top op) as [q|] eqn:Hq; [|done].
  destruct (p <=? q); [|done]. rewrite IH. unfold markers. cbn [List.filter].
  destruct (is_opening top) eqn:Ho; [|done].
  rewrite (is_opening_not_op _ Ho) in Hq. done.
Qed.

Lemma unwind_group_markers : forall stack output,
    match unwind_group stack output with
    | Some (_, stack', _) => markers stack = S (markers stack')
    | None => markers stack = O
    end.
Proof.
  induction stack as [|top stack IH]; intros output; [done|]. cbn [unwind_group].
  unfold markers. cbn [List.filter]. destruct (is_opening top) eqn:Ho; [done|]. apply IH.
Qed.

Lemma fold_rpn_None tokens : fold_left rpn_step tokens None = None.
Proof. by induction tokens. Qed.

(** The four cases of the callback. *)
Lemma rpn_step_op stack output t p :
  assoc (toUpperCase t) op = Some p ->
  rpn_step (Some (stack, output)) t
  = Some (toUpperCase t :: (unwind_ops p stack output).1, (unwind_ops p stack output).2).
Proof.
  intros Hp. unfold rpn_step. rewrite Hp. by destruct (unwind_ops p stack output).
Qed.

Lemma rpn_step_open stack output t :
  is_opening t = true -> rpn_step (Some (stack, output)) t = Some (t :: stack, output).
Proof. by intros [E|[E|E]]%is_opening_cases; subst. Qed.

Lemma rpn_step_close stack output :
  rpn_step (Some (stack, output)) ")"
  = match unwind_group stack output with
    | Some (marker, stack, output) =>
        Some (stack, if String.eqb marker "(" then output else output ++ ["!"])
    | None => None
    end.
Proof. reflexivity. Qed.

(** A token that is no operator, no opening marker and no [")"] goes to
    the output, unless it is [NOT(] in other letter case: that one goes
    on the stack, where no [")"] will take it for a marker. *)
Lemma rpn_step_other stack output t :
  assoc (toUpperCase t) op = None -> is_opening t = false -> t <> ")" ->
  rpn_step (Some (stack, output)) t
  = if String.eqb (toUpperCase t) "NOT(" then Some (t :: stack, output)
    else Some (stack, output ++ [t]).
Proof.
  intros Hp Ho Hc. unfold rpn_step. rewrite Hp. unfold is_opening in Ho.
  apply orb_false_iff in Ho as [[H1 H2]%orb_false_iff H3]. rewrite H1, H2. cbn [orb].
  destruct (String.eqb (toUpperCase t) "NOT("); [done|].
  by destruct (String.eqb_spec t ")").
Qed.

Lemma fold_rpn_closes tokens : forall stack output,
    is_Some (fold_left rpn_step tokens (Some (stack, output)))
    <-> closes (markers stack) tokens = true.
Proof.
  induction tokens as [|t tokens IH]; intros stack output.
  { cbn. split; [done|]. eauto. }
  cbn [fold_left closes].
  destruct (is_opening t) eqn:Ho.
  { rewrite rpn_step_open, IH by done. unfold markers. cbn [List.filter]. by rewrite Ho. }
  destruct (assoc (toUpperCase t) op) as [p|] eqn:Hp.
  { rewrite (rpn_step_op _ _ _ _ Hp), IH. unfold markers at 1. cbn [List.filter].
    destruct (is_opening (toUpperCase t)) eqn:Hu.
    { by rewrite (is_opening_not_op _ Hu) in Hp. }
    fold (markers (unwind_ops p stack output).1). rewrite unwind_ops_markers.
    destruct (String.eqb_spec t ")") as [E|]; [by subst|done]. }
  destruct (String.eqb_spec t ")") as [E|Hne].
  - subst t. rewrite rpn_step_close.
    pose proof (unwind_group_markers stack output) as Hm.
    destruct (unwind_group stack output) as [[[marker stack'] output']|].
    + by rewrite Hm, IH.
    + rewrite Hm, fold_rpn_None. split; [by intros []|done].
  - rewrite rpn_step_other by done.
    destruct (String.eqb (toUpperCase t) "NOT("); rewrite IH; [|done].
    unfold markers. cbn [List.filter]. by rewrite Ho.
Qed.

(** X3.  [tokensToRPN] comes back exactly when no [")"] is left without an
    opening marker; on such a [")"] the loop that looks for the marker
    runs on an empty stack for ever. *)
Theorem tokensToRPN_returns (tokens : list string) :
  is_Some (tokensToRPN tokens) <-> closes 0 tokens = true.
Proof.
  unfold tokensToRPN. rewrite <- (fold_rpn_closes tokens [] []).
  destruct (fold_left rpn_step tokens (Some ([], []))) as [[stack output]|].
  - split; eauto.
  - split; by intros [].
Qed.

(** *** The conversion on expressions *)

(** An expression as the conversion groups it: an operand, two
    expressions around one of the ten operators, or an expression
    between an opening marker and [")"]. *)
Inductive expr :=
  | Leaf (t : string)
  | Bin (l : expr) (o : string) (r : expr)
  | Group (marker : string) (e : expr).

(** The tokens of an expression, as they are typed. *)
Fixpoint infix (e : expr) : list string :=
  match e with
  | Leaf t => [t]
  | Bin l o r => infix l ++ o :: infix r
  | Group m e => m :: infix e ++ [")"]
  end.

(** The expression in Reverse Polish Notation: operators in upper case
    after their operands, [!] after a negated group. *)
Fixpoint postfix (e : expr) : list string :=
  match e with
  | Leaf t => [t]
  | Bin l o r => postfix l ++ postfix r ++ [toUpperCase o]
  | Group m e => postfix e ++ (if String.eqb m "(" then [] else ["!"])
  end.

(** Precedence of the operator at the root; operands and groups bind
    tighter than every operator. *)
Definition level (e : expr) : Z :=
  match e with
  | Bin _ o _ => default 0 (assoc (toUpperCase o) op)
  | _ => 4
  end.

(** A token that is read as an operand. *)
Definition operand_token (t : string) : bool :=
  negb (is_op (toUpperCase t)) && negb (is_opening t) && negb (String.eqb t ")")
  && negb (String.eqb (toUpperCase t) "NOT(").

(** The shape the tokens are read in: operators of one precedence group
    to the left, a tighter operator groups first. *)
Fixpoint grouped (e : expr) : Prop :=
  match e with
  | Leaf t => operand_token t = true
  | Bin l o r =>
      is_op (toUpperCase o) = true
      /\ grouped l /\ grouped r
      /\ level (Bin l o r) <= level l /\ level (Bin l o r) < level r
  | Group m e => is_opening m = true /\ grouped e
  end.

Definition ops_at_least (p : Z) (pending : list string) : Prop :=
  Forall (fun t => exists q, assoc t op = Some q /\ p <= q) pending.

Definition blocks (p : Z) (stack : list string) : Prop :=
  match stack with
  | top :: _ => forall q, assoc top op = Some q -> q < p
  | [] => True
  end.

Lemma assoc_op_bound t q : assoc t op = Some q -> 1 <= q <= 3.
Proof.
  unfold op. cbn [assoc].
  repeat (destruct (String.eqb t _); [intros [= <-]; lia|]). done.
Qed.

Lemma unwind_ops_pending p : forall pending stack output,
    ops_at_least p pending -> blocks p stack ->
    unwind_ops p (pending ++ stack) output = (stack, output ++ pending).
Proof.
  induction pending as [|t pending IH]; intros stack output Hp Hb.
  - rewrite app_nil_r. destruct stack as [|top stack]; [done|]. cbn [app unwind_ops].
    destruct (assoc top op) as [q|] eqn:Hq; [|done].
    specialize (Hb q Hq). destruct (Z.leb_spec p q); [lia|done].
  - apply Forall_cons in Hp as [(q & Hq & Hpq) Hp]. cbn [app unwind_ops]. rewrite Hq.
    destruct (Z.leb_spec p q); [|lia]. rewrite IH by done. by rewrite <- app_assoc.
Qed.

Lemma unwind_group_pending m : forall pending stack output,
    ops_at_least 0 pending -> is_opening m = true ->
    unwind_group (pending ++ m :: stack) output = Some (m, stack, output ++ pending).
Proof.
  induction pending as [|t pending IH]; intros stack output Hp Hm.
  - cbn [app unwind_group]. by rewrite Hm, app_nil_r.
  - apply Forall_cons in Hp as [(q & Hq & _) Hp]. cbn [app unwind_group].
    destruct (is_opening t) eqn:Ho; [by rewrite (is_opening_not_op _ Ho) in Hq|].
    rewrite IH by done. by rewrite <- app_assoc.
Qed.

Lemma ops_at_least_mono p q pending :
  q <= p -> ops_at_least p pending -> ops_at_least q pending.
Proof.
  intros Hqp Hp. eapply Forall_impl; [exact Hp|].
  intros t (r & Hr & Hpr). exists r. split; [done|lia].
Qed.

Lemma blocks_mono p q stack : p <= q -> blocks p stack -> blocks q stack.
Proof.
  intros Hpq. destruct stack as [|top stack]; [done|]. cbn. intros Hb r Hr.
  specialize (Hb r Hr). lia.
Qed.

Lemma fold_rpn_grouped e : forall stack output,
    grouped e -> blocks (level e) stack ->
    exists pending emitted,
    fold_left rpn_step (infix e) (Some (stack, output))
    = Some (pending ++ stack, output ++ emitted)
    /\ emitted ++ pending = postfix e
    /\ ops_at_least (level e) pending.
Proof.
  induction e as [t|l IHl o r IHr|m e IHe]; intros stack output He Hb.
  - cbn in He. unfold operand_token in He.
    apply andb_true_iff in He as [[[H1 H2]%andb_true_iff H3]%andb_true_iff H4].
    apply negb_true_iff in H1, H2, H3, H4.
    exists [], [t]. cbn [infix fold_left postfix app]. rewrite rpn_step_other.
    + rewrite H4. split; [done|]. split; [done|]. constructor.
    + unfold is_op in H1. by destruct (assoc (toUpperCase t) op).
    + done.
    + by destruct (String.eqb_spec t ")").
  - destruct He as (Ho & Hl & Hr & Hll & Hlr).
    unfold is_op in Ho. cbn [level] in *.
    destruct (assoc (toUpperCase o) op) as [p|] eqn:Hp; [|done].
    change (default 0 (Some p)) with p in *.
    destruct (IHl stack output Hl (blocks_mono _ _ _ Hll Hb)) as (Pl & Ol & El & Epl & Hpl).
    cbn [infix]. rewrite fold_left_app. cbn [fold_left]. rewrite El.
    rewrite (rpn_step_op _ _ _ _ Hp).
    rewrite (unwind_ops_pending p Pl stack (output ++ Ol))
      by eauto using ops_at_least_mono. cbn [fst snd].
    destruct (IHr (toUpperCase o :: stack) ((output ++ Ol) ++ Pl) Hr)
      as (Pr & Or & Er & Epr & Hpr).
    { unfold blocks. intros q Hq. rewrite Hp in Hq. injection Hq as <-. lia. }
    exists (Pr ++ [toUpperCase o]), (postfix l ++ Or).
    rewrite Er. split; [|split].
    + f_equal. f_equal.
      * by rewrite <- app_assoc.
      * rewrite <- Epl. by rewrite <- !app_assoc.
    + cbn [postfix]. rewrite <- Epr. by rewrite <- !app_assoc.
    + apply Forall_app. split.
      * eapply ops_at_least_mono; [|done]. lia.
      * constructor; [|constructor]. exists p. split; [done|lia].
  - destruct He as [Hm He].
    cbn [infix fold_left]. rewrite rpn_step_open by done. rewrite fold_left_app.
    destruct (IHe (m :: stack) output He) as (P & O & E & Ep & Hp).
    { unfold blocks. intros q Hq. by rewrite (is_opening_not_op _ Hm) in Hq. }
    rewrite E. cbn [fold_left]. rewrite rpn_step_close.
    rewrite unwind_group_pending; [|eapply ops_at_least_mono; [|done]|done].
    2: { destruct e; cbn [level]; try lia.
         destruct (assoc (toUpperCase o) op) as [q|] eqn:Hq; cbn; [|lia].
         apply assoc_op_bound in Hq. lia. }
    exists [], (postfix (Group m e)). cbn [postfix app]. rewrite app_nil_r.
    split; [|split; [done|constructor]].
    f_equal. f_equal. rewrite <- Ep.
    destruct (String.eqb m "("); by rewrite <- ?app_assoc, ?app_nil_r.
Qed.

(** X4.  On the infix tokens of an expression (operand tokens, the binary
    operators in any letter case with comparisons above AND above OR and
    equal precedences grouped to the left, plain or negated parentheses)
    [tokensToRPN] gives its Reverse Polish Notation: the operands in
    their order, every operator in upper case after its operands, and
    ["!"] after each negated group. *)
Theorem tokensToRPN_postfix (e : expr) :
  grouped e -> tokensToRPN (infix e) = Some (postfix e).
Proof.
  intros He. unfold tokensToRPN.
  destruct (fold_rpn_grouped e [] [] He I) as (P & O & E & Ep & _).
  rewrite E. by rewrite app_nil_r, app_nil_l, Ep.
Qed.

(** [a = 1 and (b < 2 OR !(c ~ x))] *)
Definition sample_expr : expr :=
  Bin (Bin (Leaf "a") "=" (Leaf "1")) "and"
    (Group "(" (Bin (Bin (Leaf "b") "<" (Leaf "2")) "OR"
                  (Group "!(" (Bin (Leaf "c") "~" (Leaf "x"))))).

Lemma tokensToRPN_postfix_witness :
  grouped sample_expr
  /\ tokensToRPN ["a"; "="; "1"; "and"; "("; "b"; "<"; "2"; "OR"; "!("; "c"; "~"; "x"; ")"; ")"]
     = Some ["a"; "1"; "="; "b"; "2"; "<"; "c"; "x"; "~"; "!"; "OR"; "AND"].
Proof.
  assert (grouped sample_expr) as Hg
    by (cbn [sample_expr grouped]; repeat split; try reflexivity; vm_compute; congruence).
  split; [exact Hg|]. exact (tokensToRPN_postfix sample_expr Hg).
Defined.

End ParserFacts.

(** ** The filter language *)

Module LanguageFacts.
Import JsString Js Common FilterSort Main DisplayFacts ParserFacts.

(** What the dry run puts in the place of the literal of a comparison,
    when it accepts the comparison. *)
Definition converted `{Host} (m : gmap string string) (o f lit : string) : option jsval :=
  match check_operator m o (Operand f 0) (Operand lit 0) [VStr lit] with
  | (None, [v]) => Some v
  | _ => None
  end.

Lemma store_store j v w A : store j v (store j w A) = store j v A.
Proof. unfold store. destruct (j <? 0); [done|]. apply list_insert_insert_eq. Qed.

Lemma store_same j v A : 0 <= j -> A !! Z.to_nat j = Some v -> store j v A = A.
Proof.
  intros Hj HA. unfold store. destruct (Z.ltb_spec j 0); [lia|]. by apply list_insert_id.
Qed.

Ltac on_string s lit :=
  let E := fresh "E" in
  destruct (String.eqb_spec s lit) as [E|E]; [try subst s|].

Lemma store_0_single x y : store 0 x [y] = [x].
Proof. reflexivity. Qed.

Ltac split_if :=
  match goal with
  | |- context [if ?b then _ else _] => destruct b eqn:?
  end.

Ltac stored :=
  cbv beta iota zeta; rewrite ?store_0_single; cbv beta iota zeta;
  first
    [ done
    | intros [= <-]; rewrite ?store_store; first [done | f_equal; symmetry; by apply store_same] ].

Ltac branches :=
  repeat (cbn [String.eqb Ascii.eqb Bool.eqb orb andb negb]; split_if);
  cbn [String.eqb Ascii.eqb Bool.eqb orb andb negb]; stored.

Lemma check_operator_at `{Host} m o f lit v i j A :
  converted m o f lit = Some v ->
  0 <= i -> 0 <= j -> A !! Z.to_nat j = Some (VStr lit) ->
  check_operator m o (Operand f i) (Operand lit j) A = (None, store j v A).
Proof.
  intros Hv Hi Hj HA. revert Hv.
  unfold converted, check_operator, check_ip. cbn [token idx].
  replace (i =? -1) with false by lia. change (0 =? -1) with false.
  cbn [negb andb].
  destruct (bool_decide (is_Some (m !! f))); cbn [negb]; [|done].
  destruct lit as [|c lit'].
  2: destruct (Ascii.eqb c dquote).
  all: cbv beta iota zeta; cbn [token idx]; rewrite ?store_0_single.
  all: on_string o "=="; [branches|].
  all: on_string o "="; [branches|].
  all: on_string o "!="; [branches|].
  all: on_string o "~"; [branches|].
  all: on_string o "!~"; [branches|].
  all: on_string o "<"; [branches|].
  all: on_string o ">"; [branches|].
  all: on_string o "@="; [branches|].
  all: branches.
Qed.

(** *** Filters *)

(** A filter: a comparison of a field with a literal, two filters
    joined by [AND] or [OR], a filter in parentheses, plain or negated. *)
Inductive filter :=
  | Test (field o literal : string)
  | Join (l : filter) (o : string) (r : filter)
  | Paren (marker : string) (f : filter).

Fixpoint expr_of (f : filter) : expr :=
  match f with
  | Test x o y => Bin (Leaf x) o (Leaf y)
  | Join l o r => Bin (expr_of l) o (expr_of r)
  | Paren m f => Group m (expr_of f)
  end.

Fixpoint fields (f : filter) : list string :=
  match f with
  | Test x _ _ => [x]
  | Join l _ r => fields l ++ fields r
  | Paren _ f => fields f
  end.

(** An operand that neither pass takes for an operator. *)
Definition plain (t : string) : bool := operand_token t && negb (String.eqb t "!").

(** The filters the dry run accepts, over the type map [m]: the
    comparisons are accepted one by one. *)
Fixpoint accepted `{Host} (m : gmap string string) (f : filter) : Prop :=
  match f with
  | Test x o y =>
      plain x = true /\ plain y = true
      /\ assoc (toUpperCase o) op = Some 3
      /\ is_Some (converted m (toUpperCase o) x y)
  | Join l o r =>
      (toUpperCase o = "AND" \/ toUpperCase o = "OR") /\ accepted m l /\ accepted m r
  | Paren mk f => is_opening mk = true /\ accepted m f
  end.

(** The array as the dry run leaves it. *)
Fixpoint compile `{Host} (m : gmap string string) (f : filter) : list jsval :=
  match f with
  | Test x o y =>
      [VStr x;
       match converted m (toUpperCase o) x y with Some v => v | None => VUndefined end;
       VStr (toUpperCase o)]
  | Join l o r => compile m l ++ compile m r ++ [VStr (toUpperCase o)]
  | Paren mk f => compile m f ++ (if String.eqb mk "(" then [] else [VStr "!"])
  end.

Lemma length_compile `{Host} m f : length (compile m f) = length (postfix (expr_of f)).
Proof.
  induction f as [x o y|l IHl o r IHr|mk f IH]; cbn [compile expr_of postfix].
  - done.
  - rewrite !length_app, IHl, IHr. done.
  - rewrite !length_app, IH. by destruct (String.eqb mk "(").
Qed.

Lemma is_op_upper t : is_op t = true -> toUpperCase t = t.
Proof.
  unfold is_op, op. cbn [assoc].
  repeat match goal with
    | |- context [String.eqb t ?s] =>
        let E := fresh in destruct (String.eqb_spec t s) as [E|E]; [by subst|]
    end.
  done.
Qed.

Lemma plain_operand t : plain t = true -> is_op t = false /\ String.eqb t "!" = false.
Proof.
  unfold plain, operand_token. intros Ht.
  apply andb_true_iff in Ht as [Ht H5].
  apply andb_true_iff in Ht as [[[H1 H2]%andb_true_iff H3]%andb_true_iff H4].
  apply negb_true_iff in H1, H5. split; [|done].
  destruct (is_op t) eqn:Hop; [|done]. by rewrite (is_op_upper _ Hop), Hop in H1.
Qed.

Lemma check_step_plain `{Host} m t i stack A :
  plain t = true -> check_step m t i stack A = (None, Operand t (Z.of_nat i) :: stack, A).
Proof. intros [H1 H2]%plain_operand. unfold check_step. by rewrite H1, H2. Qed.

Lemma check_operator_join `{Host} m o A :
  o = "AND" \/ o = "OR" -> check_operator m o placeholder placeholder A = (None, A).
Proof. by intros [-> | ->]. Qed.

Lemma insert_middle {A} (pre : list A) x y v rest :
  <[S (length pre) := v]> (pre ++ x :: y :: rest) = pre ++ x :: v :: rest.
Proof.
  rewrite insert_app_r_alt by lia. by replace (S (length pre) - length pre)%nat with 1%nat by lia.
Qed.

Lemma check_loop_compile `{Host} m f :
  accepted m f ->
  forall rest stack A B,
  check_loop m (postfix (expr_of f) ++ rest) (length A) stack
    (A ++ (VStr <$> postfix (expr_of f)) ++ B)
  = check_loop m rest (length A + length (postfix (expr_of f))) (placeholder :: stack)
      (A ++ compile m f ++ B).
Proof.
  induction f as [x o y|l IHl o r IHr|mk f IH]; intros Hf rest stack A B.
  - destruct Hf as (Hx & Hy & Ho & [v Hv]).
    cbn [expr_of postfix compile app fmap list_fmap check_loop]. rewrite Hv.
    rewrite !check_step_plain by done.
    unfold check_step. unfold is_op at 1. rewrite Ho.
    rewrite (check_operator_at m _ x y v) by
      (done || lia || (rewrite Nat2Z.id, lookup_app_r by lia;
                       by replace (S (length A) - length A)%nat with 1%nat by lia)).
    unfold store. destruct (Z.ltb_spec (Z.of_nat (S (length A))) 0); [lia|].
    rewrite Nat2Z.id, insert_middle.
    replace (length A + length [x; y; toUpperCase o])%nat with (S (S (S (length A))))
      by (cbn [length]; lia).
    done.
  - destruct Hf as (Ho & Hl & Hr).
    cbn [expr_of postfix compile]. rewrite !fmap_app, <- !app_assoc.
    rewrite IHl by done.
    rewrite (app_assoc A (compile m l)), <- (length_compile m l), <- length_app.
    rewrite IHr by done. cbn [app fmap list_fmap check_loop].
    unfold check_step.
    assert (is_op (toUpperCase o) = true) as -> by (by destruct Ho as [-> | ->]).
    rewrite check_operator_join by done.
    rewrite <- !app_assoc. f_equal.
    rewrite !length_app, !length_compile. cbn [length]. lia.
  - destruct Hf as [Hm Hf].
    cbn [expr_of postfix compile]. rewrite !fmap_app, <- !app_assoc.
    rewrite IH by done.
    destruct (String.eqb mk "(").
    + cbn [app fmap list_fmap]. f_equal. rewrite length_app. cbn [length]. lia.
    + cbn [app fmap list_fmap check_loop]. unfold check_step. cbn [is_op].
      change (is_op "!") with false. cbn [String.eqb Ascii.eqb Bool.eqb].
      f_equal. rewrite !length_app. cbn [length]. lia.
Qed.

(** The dry run accepts the Reverse Polish Notation of an accepted
    filter and leaves the compiled array. *)
Lemma checkFilter_compile `{Host} table m f :
  let m' := if bool_decide (m = ∅) then fill_typeMap table m else m in
  accepted m' f ->
  checkFilter table m (postfix (expr_of f)) = (VBool true, compile m' f, m').
Proof.
  intros m' Hf. unfold checkFilter. fold m'.
  pose proof (check_loop_compile m' f Hf [] [] [] []) as Hloop.
  cbn [app length] in Hloop. rewrite !app_nil_r in Hloop. rewrite Hloop.
  by cbn [check_loop length Nat.eqb].
Qed.


(** *** What a filter means for a row *)

(** Whether the row passes: a comparison is the answer of the operator
    on the cell of the field and the converted literal, [AND], [OR] and
    the negated parentheses are those of Boolean logic. *)
Fixpoint holds `{Host} (data : list (gmap string cell)) (rowID : Z)
    (m : gmap string string) (f : filter) : bool :=
  match f with
  | Test x o y =>
      match converted m (toUpperCase o) x y with
      | Some v =>
          match eval_operator data rowID (toUpperCase o) (VStr x) v with
          | Done r => truthy r
          | Thrown _ => false
          end
      | None => false
      end
  | Join l o r =>
      if String.eqb (toUpperCase o) "AND"
      then holds data rowID m l && holds data rowID m r
      else holds data rowID m l || holds data rowID m r
  | Paren mk f =>
      if String.eqb mk "(" then holds data rowID m f else negb (holds data rowID m f)
  end.

(** No converted literal is the text of an operator or of [!], which
    the evaluator would take for one. *)
Fixpoint unambiguous `{Host} (m : gmap string string) (f : filter) : Prop :=
  match f with
  | Test x o y =>
      match converted m (toUpperCase o) x y with
      | Some (VStr s) => is_op s = false /\ String.eqb s "!" = false
      | _ => True
      end
  | Join l _ r => unambiguous m l /\ unambiguous m r
  | Paren _ f => unambiguous m f
  end.

(** The values the evaluator's operators leave: a Boolean, 0 or 1. *)
Definition bit (v : jsval) : Prop :=
  (exists b, v = VBool b) \/ v = VNum (int 0) \/ v = VNum (int 1).

Lemma bit_and `{Host} a b :
  bit a -> bit b ->
  bit (VNum (int (bitand a b)))
  /\ truthy (VNum (int (bitand a b))) = truthy a && truthy b.
Proof.
  unfold bit. intros [[[] ->]|[-> | ->]] [[[] ->]|[-> | ->]];
    (split; [right; by (left + right)|reflexivity]).
Qed.

Lemma bit_or `{Host} a b :
  bit a -> bit b ->
  bit (VNum (int (bitor a b)))
  /\ truthy (VNum (int (bitor a b))) = truthy a || truthy b.
Proof.
  unfold bit. intros [[[] ->]|[-> | ->]] [[[] ->]|[-> | ->]];
    (split; [right; by (left + right)|reflexivity]).
Qed.

Lemma comparison_cases o :
  assoc o op = Some 3 ->
  o ∈ ["=="; "="; "!="; "~"; "!~"; "@="; "<"; ">"].
Proof.
  unfold op. cbn [assoc].
  repeat match goal with
    | |- context [String.eqb o ?s] =>
        let E := fresh in destruct (String.eqb_spec o s) as [E|E];
        [subst; first [discriminate | intros _; by repeat constructor]|]
    end.
  done.
Qed.

Lemma converted_regexp `{Host} m o x y v :
  o = "~" \/ o = "!~" -> converted m o x y = Some v -> exists src, v = VRegExp src.
Proof.
  intros Ho. unfold converted, check_operator. cbn [token idx].
  change (0 =? -1) with false. cbn [negb andb].
  destruct (bool_decide (is_Some (m !! x))); cbn [negb]; [|done].
  destruct y as [|c y'].
  2: destruct (Ascii.eqb c dquote).
  all: cbv beta iota zeta; cbn [token idx]; rewrite ?store_0_single.
  all: destruct Ho as [-> | ->]; cbn [String.eqb Ascii.eqb Bool.eqb orb].
  all: split_if; cbv beta iota zeta; rewrite ?store_0_single; [|done].
  all: intros [= <-]; eauto.
Qed.

Lemma eval_comparison `{Host} data rowID m o x y v c :
  assoc o op = Some 3 ->
  converted m o x y = Some v ->
  cell_at data rowID (VStr x) = Done c ->
  exists b, eval_operator data rowID o (VStr x) v = Done (VBool b).
Proof.
  intros Ho Hv Hc. apply comparison_cases in Ho.
  repeat (apply elem_of_cons in Ho as [->|Ho]); [..|by apply elem_of_nil in Ho].
  all: unfold eval_operator; cbn [String.eqb Ascii.eqb Bool.eqb orb].
  all: try (rewrite Hc; cbn [bind]; eauto).
  all: destruct (converted_regexp m _ x y v ltac:(auto) Hv) as [src ->].
  all: eauto.
Qed.

Lemma eval_step_plain `{Host} data rowID stack t :
  plain t = true -> eval_step data rowID stack (VStr t) = Done (VStr t :: stack).
Proof. intros [H1 H2]%plain_operand. unfold eval_step. by rewrite H1, H2. Qed.

Lemma replay_compile `{Host} data rowID m f :
  accepted m f -> unambiguous m f ->
  (forall x, x ∈ fields f -> exists c, cell_at data rowID (VStr x) = Done c) ->
  forall stack rest,
  exists v,
  replay data rowID stack (compile m f ++ rest) = replay data rowID (v :: stack) rest
  /\ bit v /\ truthy v = holds data rowID m f.
Proof.
  induction f as [x o y|l IHl o r IHr|mk f IH]; intros Hf Hu Hc stack rest.
  - destruct Hf as (Hx & Hy & Ho & [v Hv]). cbn [unambiguous] in Hu.
    destruct (Hc x) as [c Hcx]; [by constructor|].
    destruct (eval_comparison data rowID m _ x y v c Ho Hv Hcx) as [b Hb].
    exists (VBool b). cbn [compile holds]. rewrite Hv in *.
    rewrite Hb. split; [|split; [left; eauto|done]].
    cbn [app replay]. rewrite eval_step_plain by done. cbn [bind].
    assert (eval_step data rowID (VStr x :: stack) v = Done (v :: VStr x :: stack)) as ->.
    { destruct v as [| | | |s| | | |]; try done.
      destruct Hu as [H1 H2]. unfold eval_step. by rewrite H1, H2. }
    cbn [bind]. unfold eval_step at 1. unfold is_op. rewrite Ho. cbn [pop].
    by rewrite Hb.
  - destruct Hf as (Ho & Hl & Hr). destruct Hu as [Hul Hur].
    cbn [compile holds]. rewrite <- !app_assoc.
    destruct (IHl Hl Hul (fun x Hx => Hc x ltac:(apply elem_of_app; auto)) stack
      (compile m r ++ [VStr (toUpperCase o)] ++ rest)) as (vl & -> & Hbl & Htl).
    destruct (IHr Hr Hur (fun x Hx => Hc x ltac:(apply elem_of_app; auto)) (vl :: stack)
      ([VStr (toUpperCase o)] ++ rest)) as (vr & -> & Hbr & Htr).
    cbn [app replay]. rewrite <- Htl, <- Htr.
    destruct Ho as [-> | ->]; cbn [eval_step is_op pop]; unfold eval_operator;
      cbn [String.eqb Ascii.eqb Bool.eqb orb bind].
    + destruct (bit_and vl vr Hbl Hbr) as [? ?]. eauto.
    + destruct (bit_or vl vr Hbl Hbr) as [? ?]. eauto.
  - destruct Hf as [Hm Hf].
    cbn [compile holds fields] in *. rewrite <- !app_assoc.
    destruct (IH Hf Hu Hc stack ((if String.eqb mk "(" then [] else [VStr "!"]) ++ rest))
      as (v & -> & Hb & Ht).
    destruct (String.eqb mk "(").
    + exists v. by cbn [app].
    + exists (VBool (negb (truthy v))). cbn [app replay eval_step].
      change (is_op "!") with false. cbn [String.eqb Ascii.eqb Bool.eqb pop bind].
      split; [done|]. split; [left; eauto|]. cbn [truthy]. by rewrite Ht.
Qed.

(** The displayed rows have a cell under every field of the filter. *)
Definition covered (data : list (gmap string cell)) (f : filter) (display : list Z) : Prop :=
  Forall (fun e => forall x, x ∈ fields f -> is_Some (SortFacts.entry_cell data x e)) display.

(** The entry of a row after the filter: shown when the filter holds. *)
Definition verdict `{Host} (data : list (gmap string cell)) (m : gmap string string)
    (f : filter) (e : Z) : Z :=
  if holds data (unhide e) m f then unhide e else hide e.

Lemma runFilter_compile `{Host} data m f display :
  accepted m f -> unambiguous m f -> covered data f display ->
  runFilter data (compile m f) display = (verdict data m f <$> display, Done (VBool true)).
Proof.
  intros Hf Hu Hc. unfold runFilter.
  induction Hc as [|e display He _ IH]; [done|]. cbn [run_rows].
  destruct (replay_compile data (unhide e) m f Hf Hu)
    with (stack := @nil jsval) (rest := @nil jsval)
    as (v & Hv & _ & Ht).
  { intros x Hx. destruct (He x Hx) as [c Hcx]. exists c. by apply SortFacts.cell_at_entry. }
  rewrite app_nil_r in Hv. rewrite Hv. cbn [replay]. rewrite IH, Ht. done.
Qed.

(** X5.  Once the tokenizer has cut the text into the tokens of a filter
    that the dry run accepts, [filterData] succeeds and shows exactly
    the rows for which the filter holds. *)
Theorem filterData_language `{Host} (table : list column) (data : list (gmap string cell))
    (text : string) (st : state) (f : filter) :
  let m := if bool_decide (typeMap st = ∅) then fill_typeMap table (typeMap st)
           else typeMap st in
  text <> "" ->
  getTokens text (wordTokens table st) (nonWordTokens st) = Some (infix (expr_of f)) ->
  grouped (expr_of f) -> accepted m f -> unambiguous m f ->
  covered data f (display st) ->
  filterData table data text st
  = Some (State m (wordTokens table st) (nonWordTokens st)
            (verdict data m f <$> display st),
          Done (VBool true)).
Proof.
  intros m Htext Htokens Hg Hf Hu Hc. unfold filterData.
  destruct (String.eqb_spec text "") as [|_]; [done|].
  cbn [word nonWord typeMap display]. rewrite Htokens.
  assert ((2 <? length (infix (expr_of f)))%nat = true) as ->.
  { apply Nat.ltb_lt. clear. induction f as [x o y|l IHl o r IHr|mk f IH]; cbn [expr_of infix].
    - cbn. lia.
    - rewrite length_app. cbn [length]. lia.
    - cbn [length]. rewrite length_app. lia. }
  assert (tokensToRPN (infix (expr_of f)) = Some (postfix (expr_of f))) as ->.
  { unfold tokensToRPN.
    destruct (fold_rpn_grouped (expr_of f) [] [] Hg I) as (P & O & E & Ep & _).
    rewrite E. by rewrite app_nil_r, app_nil_l, Ep. }
  rewrite (checkFilter_compile table (typeMap st) f Hf).
  fold m. by rewrite (runFilter_compile data m f (display st) Hf Hu Hc).
Qed.

Definition sample_text : string := "label = dns OR ports > 60 and !(src @= 10.1.2.0)".

Definition sample_filter : filter :=
  Join (Test "label" "=" "dns") "OR"
    (Join (Test "ports" ">" "60") "and" (Paren "!(" (Test "src" "@=" "10.1.2.0"))).

Lemma filterData_language_witness :
  exists st',
  filterData (H := Sample.plain_host) Sample.table Sample.data sample_text
    (State ∅ [] [] [0; 1; 2]) = Some (st', Done (VBool true))
  /\ display st' = [1048576; 1; 2].
Proof.
  eexists. split.
  - apply (filterData_language (H := Sample.plain_host) Sample.table Sample.data sample_text
             (State ∅ [] [] [0; 1; 2]) sample_filter).
    + done.
    + vm_compute. reflexivity.
    + cbn [sample_filter expr_of grouped].
      repeat split; try reflexivity; vm_compute; congruence.
    + cbn [sample_filter accepted].
      repeat split; try reflexivity; try (by left); try (by right).
      all: vm_compute; eauto.
    + cbn [sample_filter unambiguous]. vm_compute. tauto.
    + repeat constructor; intros x Hx; cbn [sample_filter fields app] in Hx;
        repeat (apply elem_of_cons in Hx as [->|Hx]); try (by apply elem_of_nil in Hx);
        vm_compute; eauto.
  - vm_compute. reflexivity.
Defined.

End LanguageFacts.

(** ** The tokenizer *)

Module TokenizerFacts.
Import JsString Js Common FilterSort.


(** The pieces put together again. *)
Definition glue (pieces : list string) : string := foldr String.append "" pieces.

(** The characters with a meaning of their own in a regular expression:
    the backslash, [^ $ . * + ? ( ) [ ] { }] and the bar. *)
Definition special (c : ascii) : bool :=
  existsb (N.eqb (code c)) [92; 94; 36; 46; 42; 43; 63; 40; 41; 91; 93; 123; 125; 124]%N.

Fixpoint literal_chars (t : string) : bool :=
  match t with
  | EmptyString => true
  | String c t' => (code c <? 128)%N && negb (special c) && literal_chars t'
  end.

(** A token text that [getTokens] can join into its expressions as it
    is: not empty and made of ASCII characters that stand for themselves
    there.  For such an alternative the expression asks for the text
    itself at the front of the string, as [first_word] and
    [first_literal] do. *)
Definition literal (t : string) : bool := negb (String.eqb t "") && literal_chars t.

Lemma literal_not_empty tokens : Forall (fun t => literal t = true) tokens ->
  Forall (fun t => t <> "") tokens.
Proof.
  intros Hl. eapply Forall_impl; [exact Hl|]. intros t Ht ->. discriminate Ht.
Qed.

Lemma length_drop n : forall s, String.length (drop n s) = (String.length s - n)%nat.
Proof. induction n as [|n IH]; intros [|c s]; cbn; try done; lia. Qed.

Lemma prefix_drop n : forall s, prefix n s +:+ drop n s = s.
Proof.
  induction n as [|n IH]; intros [|c s]; try done.
  change (String c (prefix n s +:+ drop n s) = String c s). f_equal. apply IH.
Qed.

Lemma until_quote_pos s n : until_quote s = Some n -> (1 <= n)%nat.
Proof.
  destruct s as [|c s]; cbn; [done|]. destruct (Ascii.eqb c dquote); [intros [= <-]; lia|].
  destruct (until_quote s); cbn; [intros [= <-]; lia|done].
Qed.

Lemma first_literal_pos alts s n :
  Forall (fun t => t <> "") alts -> first_literal alts s = Some n -> (1 <= n)%nat.
Proof.
  induction 1 as [|t alts Ht _ IH]; cbn; [done|].
  destruct (starts_with false t s); [|done]. intros [= <-]. destruct t; [done|cbn; lia].
Qed.

Lemma first_word_pos alts s n :
  Forall (fun t => t <> "") alts -> first_word alts s = Some n -> (1 <= n)%nat.
Proof.
  induction 1 as [|t alts Ht _ IH]; cbn [first_word]; [done|].
  destruct (starts_with true t s); [|done].
  destruct (spaces_then_boundary (String.length t) s); [|done].
  intros [= <-]. destruct t; [done|cbn; lia].
Qed.

Lemma consume_pos W N str :
  Forall (fun t => t <> "") W -> Forall (fun t => t <> "") N -> str <> "" ->
  (1 <= consume W N str)%nat.
Proof.
  intros HW HN Hstr. unfold consume.
  destruct (match_nonWords N str) as [n|] eqn:Hn.
  { unfold match_nonWords in Hn.
    destruct (quoted (drop (spaces str) str)) as [k|] eqn:Hq.
    - injection Hn as <-. unfold quoted in Hq.
      destruct (drop (spaces str) str) as [|c s]; [done|].
      destruct (Ascii.eqb c dquote); [|done].
      destruct (until_quote s); [|done]. injection Hq as <-. lia.
    - destruct (first_literal _ _) as [k|] eqn:Hk; [|done]. injection Hn as <-.
      apply first_literal_pos in Hk; [lia|].
      apply Forall_app. split; [done|]. by repeat constructor. }
  destruct (match_words W str) as [n|] eqn:Hw.
  { unfold match_words in Hw. destruct (word_at (head_char str)); [|done].
    exact (first_word_pos _ _ _ HW Hw). }
  destruct (match_unquoted str) as [n|] eqn:Hu.
  { unfold match_unquoted in Hu. destruct (span_unquoted _); [done|]. injection Hu as <-. lia. }
  destruct str; [done|cbn; lia].
Qed.

Lemma scan_pieces W N :
  Forall (fun t => t <> "") W -> Forall (fun t => t <> "") N ->
  forall fuel str, (String.length str <= fuel)%nat ->
  exists pieces,
  scan fuel W N str = Some (trim <$> pieces)
  /\ glue pieces = str /\ Forall (fun p => p <> "") pieces.
Proof.
  intros HW HN. induction fuel as [|fuel IH]; intros str Hlen.
  - destruct str; [|cbn in Hlen; lia]. exists []. by repeat split.
  - destruct str as [|c str]; [exists []; by repeat split|].
    cbn [scan]. set (s := String c str) in *.
    pose proof (consume_pos W N s HW HN ltac:(done)) as Hn.
    destruct (IH (drop (consume W N s) s)) as (pieces & -> & Hglue & Hne).
    { rewrite length_drop. lia. }
    exists (prefix (consume W N s) s :: pieces). cbn [fmap list_fmap option_map glue foldr].
    fold (glue pieces). rewrite Hglue, prefix_drop. split; [done|]. split; [done|].
    constructor; [|done]. destruct (consume W N s); [lia|]. by subst s.
Qed.

(** X6.  With token lists of literal texts (not empty, no character that
    is special in a regular expression), [getTokens] comes back on every
    input, and its tokens are the pieces of a cutting of the input, each
    trimmed: no piece is empty and nothing but white space is dropped. *)
Theorem getTokens_pieces (input : string) (wordTokens nonWordTokens : list string) :
  wordTokens <> [] -> nonWordTokens <> [] ->
  Forall (fun t => literal t = true) wordTokens ->
  Forall (fun t => literal t = true) nonWordTokens ->
  exists pieces,
  getTokens input wordTokens nonWordTokens = Some (trim <$> pieces)
  /\ glue pieces = input
  /\ Forall (fun p => p <> "") pieces.
Proof.
  intros HW0 HN0 HW%literal_not_empty HN%literal_not_empty. unfold getTokens.
  destruct wordTokens as [|w W]; [done|]. destruct nonWordTokens as [|n N]; [done|].
  by apply scan_pieces.
Qed.

Lemma getTokens_pieces_witness :
  exists pieces,
  getTokens "a=1 AND(b ~ x)" ["AND"; "OR"; "a"; "b"] ["=="; "="; "~"]
  = Some (trim <$> pieces)
  /\ glue pieces = "a=1 AND(b ~ x)"
  /\ Forall (fun p => p <> "") pieces.
Proof.
  apply (getTokens_pieces "a=1 AND(b ~ x)" ["AND"; "OR"; "a"; "b"] ["=="; "="; "~"]);
    [done|done|by repeat constructor|by repeat constructor].
Defined.

(** The lists that [filterData] passes are such lists when the column
    keys are literal texts. *)
Lemma filterData_token_lists table st :
  Forall (fun c => literal (col_key c) = true) table -> FilterFacts.state_ok table st ->
  wordTokens table st <> [] /\ nonWordTokens st <> []
  /\ Forall (fun t => literal t = true) (wordTokens table st)
  /\ Forall (fun t => literal t = true) (nonWordTokens st).
Proof.
  intros Hkeys Hst.
  rewrite (FilterFacts.wordTokens_ok table st Hst), (FilterFacts.nonWordTokens_ok table st Hst).
  split; [apply FilterFacts.all_words_not_nil|]. split; [done|]. split.
  - apply FilterFacts.sort_by_Forall, Forall_app. split.
    + by apply Forall_fmap.
    + by repeat constructor.
  - by repeat constructor.
Qed.

(** An empty column key makes the word expression match the empty
    text, and the tokenizer then stays where it is for ever. *)
Example getTokens_empty_key :
  getTokens "zzz" (wordTokens [Column "" None None None] (State ∅ [] [] []))
    (nonWordTokens (State ∅ [] [] [])) = None.
Proof. reflexivity. Qed.

End TokenizerFacts.

(** ** Sorting by one key *)

Module SortKeyFacts.
Import JsString Js Common FilterSort SortFacts.

(** *** The order of strings *)

Lemma code_inj x y : code x = code y -> x = y.
Proof.
  unfold code. intros Hxy. rewrite <- (ascii_N_embedding x), <- (ascii_N_embedding y).
  by rewrite Hxy.
Qed.

Lemma ltb_irrefl a : ltb a a = false.
Proof. induction a as [|x a IH]; [done|]. cbn [ltb]. by rewrite N.ltb_irrefl. Qed.

Lemma ltb_trans a : forall b c, ltb a b = true -> ltb b c = true -> ltb a c = true.
Proof.
  induction a as [|x a IH]; intros [|y b] [|z c]; cbn [ltb]; try done.
  destruct (N.ltb_spec (code x) (code y)), (N.ltb_spec (code y) (code x)),
    (N.ltb_spec (code y) (code z)), (N.ltb_spec (code z) (code y)),
    (N.ltb_spec (code x) (code z)), (N.ltb_spec (code z) (code x));
    try done; try lia.
  apply IH.
Qed.

Lemma ltb_total a : forall b, ltb a b = false -> ltb b a = false -> a = b.
Proof.
  induction a as [|x a IH]; intros [|y b]; cbn [ltb]; try done.
  destruct (N.ltb_spec (code x) (code y)), (N.ltb_spec (code y) (code x)); try done.
  intros Hab Hba. f_equal; [apply code_inj; lia|by apply IH].
Qed.

Lemma ltb_asym a b : ltb a b = true -> ltb b a = false.
Proof.
  intros Hab. destruct (ltb b a) eqn:Hba; [|done].
  by rewrite <- (ltb_irrefl a), <- (ltb_trans a b a Hab Hba).
Qed.

Lemma ltb_le_trans a b c : ltb b a = false -> ltb c b = false -> ltb c a = false.
Proof.
  intros Hba Hcb. destruct (ltb c a) eqn:Hca; [|done].
  destruct (ltb a b) eqn:Hab.
  - by rewrite (ltb_trans c a b Hca Hab) in Hcb.
  - rewrite (ltb_total a b Hab Hba) in Hca. by rewrite Hca in Hcb.
Qed.

(** *** Sorting by [cmp] *)

(** The two sorts of keys that [normalizeValue] leaves under [cmp]:
    Numbers ([int], [date]) and strings ([str], [version]). *)
Inductive key_kind :=
  | Numbers
  | Texts.

Definition of_kind (kind : key_kind) (v : jsval) : Prop :=
  match kind with
  | Numbers => exists n, v = VNum n /\ isNaN n = false
  | Texts => exists s, v = VStr s
  end.

(** The entry names a row whose cell has no [cmpMin] and a key of the
    given kind under [cmp]. *)
Definition keyed (kind : key_kind) (data : list (gmap string cell)) (colKey : string)
    (e : Z) : Prop :=
  exists c v,
  entry_cell data colKey e = Some c
  /\ cmpMin c = None /\ cmp c = Some v /\ of_kind kind v.

(** The key the entry is sorted by. *)
Definition key (data : list (gmap string cell)) (colKey : string) (e : Z) : jsval :=
  match entry_cell data colKey e with
  | Some c => read (cmp c)
  | None => VUndefined
  end.

(** [a] may stand before [b]: upwards its key is not above, downwards
    not below. *)
Definition in_order `{Host} (data : list (gmap string cell)) (colKey : string)
    (order : bool) (a b : Z) : Prop :=
  if order then less (key data colKey b) (key data colKey a) = false
  else less (key data colKey a) (key data colKey b) = false.

Section Kind.
Context `{Host} (kind : key_kind).

Lemma less_le_trans x y z :
  of_kind kind x -> of_kind kind y -> of_kind kind z ->
  less y x = false -> less z y = false -> less z x = false.
Proof.
  destruct kind; cbn [of_kind].
  - intros (a & -> & Ha) (b & -> & Hb) (c & -> & Hc). cbn [less ToNumber].
    intros Hba Hcb. apply negb_true_iff. apply (leb_trans a b c Hb); by apply negb_true_iff.
  - intros [a ->] [b ->] [c ->]. cbn [less]. apply ltb_le_trans.
Qed.

Lemma less_asym x y : of_kind kind x -> of_kind kind y -> less x y = true -> less y x = false.
Proof.
  destruct kind; cbn [of_kind].
  - intros (a & -> & Ha) (b & -> & Hb). cbn [less ToNumber].
    intros Hab. apply negb_true_iff. by apply lt_asym.
  - intros [a ->] [b ->]. cbn [less]. apply ltb_asym.
Qed.

Lemma less_not_same x y k :
  of_kind kind x -> of_kind kind y ->
  less x y = true -> strict_eq x k = true -> strict_eq y k = true -> False.
Proof.
  destruct kind; cbn [of_kind].
  - intros (a & -> & Ha) (b & -> & Hb). cbn [less ToNumber].
    destruct k; cbn [strict_eq]; try done. apply lt_not_eqb.
  - intros [a ->] [b ->]. cbn [less]. destruct k; cbn [strict_eq]; try done.
    intros Hab Ha%String.eqb_eq Hb%String.eqb_eq. subst. by rewrite ltb_irrefl in Hab.
Qed.

Lemma key_kind_of data colKey e : keyed kind data colKey e -> of_kind kind (key data colKey e).
Proof. intros (c & v & Hc & _ & Hv & Hk). unfold key. by rewrite Hc, Hv. Qed.

Lemma compare_rows_keyed data colKey order a b :
  keyed kind data colKey a -> keyed kind data colKey b ->
  compare_rows data colKey order a b
  = Done (let x := key data colKey a in
          let y := key data colKey b in
          if order then (if less y x then 1 else if less x y then -1 else 0)
          else (if less x y then 1 else if less y x then -1 else 0)).
Proof.
  intros (ca & va & Hca & Hmina & Hva & _) (cb & vb & Hcb & Hminb & Hvb & _).
  unfold compare_rows, key. rewrite (cell_at_entry _ _ _ _ Hca), Hca, Hcb. cbn [bind].
  rewrite bool_decide_eq_false_2 by (rewrite Hmina; by intros []).
  by rewrite (cell_at_entry _ _ _ _ Hcb).
Qed.

End Kind.

(** The comparison that [sortData] makes on the keys of two entries *)
Definition key_cmp `{Host} (data : list (gmap string cell)) (colKey : string) (order : bool)
    (a b : Z) : Z :=
  let x := key data colKey a in
  let y := key data colKey b in
  if order then (if less y x then 1 else if less x y then -1 else 0)
  else (if less x y then 1 else if less y x then -1 else 0).

Lemma sortData_key_cmp `{Host} kind data colKey order display :
  Forall (keyed kind data colKey) display ->
  sortData data colKey order display = Done (sort_by (key_cmp data colKey order) display).
Proof.
  intros Hkeyed. unfold sortData. apply sort_rows_pure. intros x y Hx Hy.
  rewrite Forall_forall in Hkeyed. by apply (compare_rows_keyed kind); apply Hkeyed.
Qed.

Lemma key_cmp_sorted `{Host} kind data colKey order display :
  Forall (keyed kind data colKey) display ->
  StronglySorted (in_order data colKey order) (sort_by (key_cmp data colKey order) display).
Proof.
  intros Hkeyed.
  apply (sort_by_sorted (key_cmp data colKey order) (in_order data colKey order)
           (keyed kind data colKey)); [| | |done].
  - intros x y z Hx%key_kind_of Hy%key_kind_of Hz%key_kind_of. unfold in_order.
    destruct order; intros Hxy Hyz.
    + by apply (less_le_trans kind _ (key data colKey y)).
    + by apply (less_le_trans kind _ (key data colKey y)).
  - intros x y _ _. unfold key_cmp, in_order. cbv zeta.
    destruct order; repeat case_match; simpl; try lia; try done.
  - intros x y Hx%key_kind_of Hy%key_kind_of. unfold key_cmp, in_order. cbv zeta.
    destruct order; repeat case_match; try lia; intros _; by apply (less_asym kind).
Qed.

Lemma key_cmp_stable `{Host} kind data colKey order display k :
  Forall (keyed kind data colKey) display ->
  List.filter (fun e => strict_eq (key data colKey e) k)
    (sort_by (key_cmp data colKey order) display)
  = List.filter (fun e => strict_eq (key data colKey e) k) display.
Proof.
  intros Hkeyed.
  apply (sort_by_filter (key_cmp data colKey order) (keyed kind data colKey)); [|done].
  intros x y Hx%key_kind_of Hy%key_kind_of. unfold key_cmp. cbv zeta.
  destruct order; repeat case_match; try lia; intros _ Hxk Hyk;
    first [ eapply (less_not_same kind (key data colKey x) (key data colKey y) k);
            eassumption
          | eapply (less_not_same kind (key data colKey y) (key data colKey x) k);
            eassumption ].
Qed.

(** X7.  On a column whose cells have no [cmpMin] and whose [cmp] are all
    Numbers other than [NaN], or all strings, [sortData] returns and
    leaves the same entries in order of their keys, as Numbers or as
    text, upwards or downwards; entries of equal keys keep the order
    they had. *)
Theorem sortData_keyed `{Host} (kind : key_kind) (data : list (gmap string cell))
    (colKey : string) (order : bool) (display : list Z) :
  Forall (keyed kind data colKey) display ->
  exists sorted,
  sortData data colKey order display = Done sorted
  /\ sorted ≡ₚ display
  /\ StronglySorted (in_order data colKey order) sorted
  /\ forall k, List.filter (fun e => strict_eq (key data colKey e) k) sorted
     = List.filter (fun e => strict_eq (key data colKey e) k) display.
Proof.
  intros Hkeyed. exists (sort_by (key_cmp data colKey order) display).
  split; [by apply (sortData_key_cmp kind)|]. split; [apply sort_by_perm|].
  split; [by apply (key_cmp_sorted kind)|]. intros k. by apply (key_cmp_stable kind).
Qed.

(** The labels of the sample rows are "web", "dns" and "alt". *)
Lemma sortData_keyed_witness :
  Forall (keyed Texts Sample.data "label") [0; 1048577; 2]
  /\ exists sorted,
  sortData (H := Sample.plain_host) Sample.data "label" true [0; 1048577; 2] = Done sorted
  /\ sorted ≡ₚ [0; 1048577; 2]
  /\ StronglySorted (in_order (H := Sample.plain_host) Sample.data "label" true) sorted
  /\ forall k, List.filter (fun e => strict_eq (key Sample.data "label" e) k) sorted
     = List.filter (fun e => strict_eq (key Sample.data "label" e) k) [0; 1048577; 2].
Proof.
  assert (Forall (keyed Texts Sample.data "label") [0; 1048577; 2]) as Hk.
  { repeat constructor; eexists _, _; (split; [vm_compute; reflexivity|]);
      repeat split; try reflexivity; cbn; eauto. }
  split; [exact Hk|].
  exact (sortData_keyed (H := Sample.plain_host) Texts Sample.data "label" true
           [0; 1048577; 2] Hk).
Defined.

Example sortData_labels :
  sortData (H := Sample.plain_host) Sample.data "label" true [0; 1048577; 2]
  = Done [2; 1048577; 0]
  /\ sortData (H := Sample.plain_host) Sample.data "label" false [0; 1048577; 2]
     = Done [0; 1048577; 2].
Proof. split; vm_compute; reflexivity. Qed.

End SortKeyFacts.

(** ** Text *)

Module TextFacts.
Import JsString JsStringFacts SortKeyFacts.

Lemma append_assoc (x y z : string) : (x +:+ y) +:+ z = x +:+ (y +:+ z).
Proof.
  induction x as [|c x IH]; [done|].
  change (String c ((x +:+ y) +:+ z) = String c (x +:+ (y +:+ z))). by f_equal.
Qed.

Lemma append_nil_r (x : string) : x +:+ "" = x.
Proof.
  induction x as [|c x IH]; [done|]. change (String c (x +:+ "") = String c x). by f_equal.
Qed.

Lemma prefix_all n s : (String.length s <= n)%nat -> prefix n s = s.
Proof.
  revert s. induction n as [|n IH]; intros [|c s] Hn; cbn in *; try done; [lia|].
  f_equal. apply IH. lia.
Qed.

Lemma repeat_add c n m : repeat c (n + m) = repeat c n +:+ repeat c m.
Proof.
  induction n as [|n IH]; [done|]. cbn [Nat.add repeat].
  change (String c (repeat c (n + m)) = String c (repeat c n +:+ repeat c m)). by f_equal.
Qed.

(** Comparing two texts that begin with blocks of one length. *)
Lemma ltb_app a : forall b x y,
  String.length a = String.length b ->
  ltb (a +:+ x) (b +:+ y) = if String.eqb a b then ltb x y else ltb a b.
Proof.
  induction a as [|p a IH]; intros [|q b] x y Hlen; try done.
  change (String p a +:+ x) with (String p (a +:+ x)).
  change (String q b +:+ y) with (String q (b +:+ y)).
  cbn [ltb String.eqb]. cbn [String.length] in Hlen.
  destruct (N.ltb_spec (code p) (code q)) as [Hpq|Hpq].
  { destruct (Ascii.eqb_spec p q) as [->|]; [lia|done]. }
  destruct (N.ltb_spec (code q) (code p)) as [Hqp|Hqp].
  { destruct (Ascii.eqb_spec p q) as [->|]; [lia|done]. }
  assert (p = q) as -> by (apply code_inj; lia).
  rewrite Ascii.eqb_refl. apply IH. lia.
Qed.

End TextFacts.

(** ** The cells that normalizeValue leaves *)

Module ShapeFacts.
Import JsString Js Common NormaliseFacts.

(** *** What a normalised cell looks like *)

(** A cell as [prepare] leaves any entry: [type] is a class name and
    [cssClass] an array. *)
Definition typed (c : cell) : Prop :=
  (exists t, type c = Some (VStr t)) /\ exists l, cssClass c = Some (VArray l).

(** The key a column is compared by. *)
Inductive key_shape :=
  | Ranged
  | NumberKey
  | TextKey.

(** The representations of a normalised cell, by the shape of its key:
    [html] is a string, [cssClass] an array, [match] a string, or on an
    integer column the Number under [cmp]; a ranged cell has Number
    bounds and no [cmp], the others a [cmp] of their kind and no bounds. *)
Definition shaped (shape : key_shape) (integer : bool) (c : cell) : Prop :=
  (exists h, html c = Some (VStr h))
  /\ typed c
  /\ (is_string (match_ c) = true
      \/ (integer = true /\ match_ c = cmp c /\ exists n, cmp c = Some (VNum n)))
  /\ match shape with
     | Ranged =>
         cmp c = None
         /\ exists lo hi, cmpMin c = Some (VNum lo) /\ cmpMax c = Some (VNum hi)
            /\ isNaN lo = false /\ isNaN hi = false
     | NumberKey => cmpMin c = None /\ cmpMax c = None /\ exists n, cmp c = Some (VNum n)
     | TextKey => cmpMin c = None /\ cmpMax c = None /\ exists s, cmp c = Some (VStr s)
     end.

Lemma fallback_choice_string opts alt ha t :
  exists h, fallback_choice opts alt ha (Some (VStr t)) = Some (VStr h).
Proof.
  unfold fallback_choice, is_string.
  destruct ha as [[]|]; eauto; destruct alt as [[]|]; eauto;
    destruct (opt_htmlAlt opts) as [[]|]; eauto.
Qed.

Lemma prepare_typed `{Host} entry : typed (prepare entry).
Proof.
  unfold typed, prepare. cbn [type cssClass set_cssClass set_type].
  split; [eauto|].
  match goal with
  | |- context [value2array ?p] => destruct (value2array_array p) as [l ->]
  end.
  eauto.
Qed.

(** [parseInt] on the digits that the range expression captures. *)
Fixpoint digits_only (s : string) : bool :=
  match s with
  | EmptyString => true
  | String c s' => is_digit c && digits_only s'
  end.

Lemma is_digit_cases c :
  is_digit c = true ->
  c ∈ ["0"; "1"; "2"; "3"; "4"; "5"; "6"; "7"; "8"; "9"]%char.
Proof.
  destruct c as [[] [] [] [] [] [] [] []]; vm_compute; intros Hc; try discriminate;
    repeat first [apply list_elem_of_here | apply list_elem_of_further].
Qed.

Lemma span_digits_only s : forall d r, span_digits s = (d, r) -> digits_only d = true.
Proof.
  induction s as [|c s IH]; cbn [span_digits]; intros d r.
  - by intros [= <- <-].
  - destruct (is_digit c) eqn:Hc; [|by intros [= <- <-]].
    destruct (span_digits s) as [d' r']. intros [= <- <-]. cbn [digits_only].
    rewrite Hc. by eapply IH.
Qed.

Lemma digits_count radix : forall s acc cnt,
    exists v k r, digits radix acc cnt s = (v, (k + cnt)%nat, r).
Proof.
  induction s as [|c s IH]; intros acc cnt; cbn [digits].
  - by exists acc, O, "".
  - destruct (digit_val radix c) as [v|].
    + destruct (IH (acc * radix + v) (S cnt)) as (w & k & r & ->).
      exists w, (S k), r. f_equal. f_equal. lia.
    + by exists acc, O, (String c s).
Qed.

Lemma parseInt_decimal c d :
  digits_only (String c d) = true ->
  parseInt (String c d)
  = match digits 10 0 0 (String c d) with
    | (v, S _, _) => int v
    | _ => NaN
    end.
Proof.
  cbn [digits_only]. intros [Hc Hd]%andb_true_iff. apply is_digit_cases in Hc.
  destruct d as [|c2 d].
  - repeat (apply elem_of_cons in Hc as [->|Hc]); [..|by apply elem_of_nil in Hc];
      reflexivity.
  - cbn [digits_only] in Hd. apply andb_true_iff in Hd as [Hc2 _].
    apply is_digit_cases in Hc2.
    repeat (apply elem_of_cons in Hc as [->|Hc]); [..|by apply elem_of_nil in Hc].
    2-10: reflexivity.
    repeat (apply elem_of_cons in Hc2 as [->|Hc2]); [..|by apply elem_of_nil in Hc2];
      reflexivity.
Qed.

Lemma digit_val_decimal c : is_digit c = true -> is_Some (digit_val 10 c).
Proof.
  intros Hc%is_digit_cases.
  repeat (apply elem_of_cons in Hc as [->|Hc]); [..|by apply elem_of_nil in Hc];
    vm_compute; eauto.
Qed.

Lemma parseInt_digits d :
  d <> "" -> digits_only d = true -> isNaN (parseInt d) = false.
Proof.
  destruct d as [|c d]; [done|]. intros _ Hd. rewrite parseInt_decimal by done.
  cbn [digits_only] in Hd. apply andb_true_iff in Hd as [Hc _].
  cbn [digits]. destruct (digit_val_decimal c Hc) as [v ->].
  destruct (digits_count 10 d (0 * 10 + v) 1) as (w & k & r & ->).
  by replace (k + 1)%nat with (S k) by lia.
Qed.

Lemma intrange_exec_digits s g1 g3 :
  intrange_exec s = Some (g1, g3) ->
  isNaN (parseInt g1) = false
  /\ match g3 with Some g => isNaN (parseInt g) = false | None => True end.
Proof.
  unfold intrange_exec. destruct (span_nondigits s) as [skip from_digit].
  destruct (span_digits from_digit) as [d1 rest] eqn:H1.
  destruct d1 as [|c1 d1]; [done|].
  destruct (span_nondigits rest) as [sep rest2].
  destruct (span_digits rest2) as [d3 rest3] eqn:H3.
  apply span_digits_only in H1, H3.
  destruct sep as [|cs sep], d3 as [|c3 d3]; intros [= <- <-];
    (split; [by apply parseInt_digits|]); try done.
  by apply parseInt_digits.
Qed.

Local Opaque keep_string keep_number toUpperCase fallback_choice.

Section Shape.
Context `{Host} (opts : options).

Ltac reduce_in H :=
  cbv beta iota zeta delta
  [set_value set_html set_match set_cmp set_cmpMin set_cmpMax set_mask set_cssClass set_type
   value html match_ cmp cmpMin cmpMax mask htmlAlt cssClass type
   push_class cleanse_with fallback_html bad_range bad_scalar html_text read negb] in H.

Ltac reduce :=
  cbv beta iota zeta delta
  [set_value set_html set_match set_cmp set_cmpMin set_cmpMax set_mask set_cssClass set_type
   value html match_ cmp cmpMin cmpMax mask htmlAlt cssClass type
   push_class cleanse_with fallback_html bad_range bad_scalar html_text read negb
   shaped typed is_string].

Ltac kept :=
  repeat match goal with
    | H : context [keep_string ?p (VStr ?s)] |- _ =>
        let t := fresh "t" in let Ht := fresh "Ht" in
        destruct (keep_string_shape p s) as [t Ht]; rewrite Ht in *; clear Ht
    | H : context [keep_number ?p (VNum ?n)] |- _ =>
        let m := fresh "m" in let Hm := fresh "Hm" in let Ht := fresh "Ht" in
        destruct (keep_number_shape p n) as (m & Ht & Hm); rewrite Ht in *; clear Ht
    | H : context [fallback_choice opts ?alt ?ha (Some (VStr ?t))] |- _ =>
        let h := fresh "h" in let Hh := fresh "Hh" in
        destruct (fallback_choice_string opts alt ha t) as [h Hh]; rewrite Hh in *; clear Hh
    end.

Ltac shape_goal :=
  reduce; repeat split;
  first [ by eauto 3 | left; reflexivity | right; repeat split; by eauto 3 | idtac ].

Lemma shape_int alt c0 :
  typed c0 ->
  shaped NumberKey true (cleanse_with false false (fallback_html opts alt (normalize_int c0))).
Proof.
  intros ([t Hty] & [l Hl]).
  destruct c0 as [v0 h0 m0 cp0 mn0 mx0 mk0 ha0 cs0 ty0].
  cbn [value type cssClass] in *. subst.
  remember (normalize_int _) as d0 eqn:Hd0.
  remember (cleanse_with false false (fallback_html opts alt d0)) as c1 eqn:Hc1.
  unfold normalize_int in Hd0. cbv beta iota delta [read value] in Hd0.
  destruct v0 as [[| |b|n|s|tm|src|items|cls]|].
  4: destruct (isNaN n) eqn:En.
  6: destruct (isNaN (StringToNumber s)) eqn:En.
  all: reduce_in Hd0; kept; subst d0; reduce_in Hc1; kept; subst c1.
  all: shape_goal.
Qed.

Lemma shape_intrange alt c0 :
  typed c0 ->
  shaped Ranged false (cleanse_with true false (fallback_html opts alt (normalize_intrange c0))).
Proof.
  intros ([t Hty] & [l Hl]).
  destruct c0 as [v0 h0 m0 cp0 mn0 mx0 mk0 ha0 cs0 ty0].
  cbn [value type cssClass] in *. subst.
  remember (normalize_intrange _) as d0 eqn:Hd0.
  remember (cleanse_with true false (fallback_html opts alt d0)) as c1 eqn:Hc1.
  unfold normalize_intrange in Hd0. cbv beta iota delta [read value] in Hd0.
  destruct v0 as [[| |b|n|s|tm|src|items|cls]|].
  4: destruct (isNaN n) eqn:En.
  6: destruct (intrange_exec s) as [[g1 [g3|]]|] eqn:En;
    try (destruct (intrange_exec_digits _ _ _ En) as [Hg1 Hg3]).
  all: reduce_in Hd0; kept; subst d0; reduce_in Hc1; kept; subst c1.
  all: shape_goal.
  all: eexists _, _; repeat split; try reflexivity;
    repeat match goal with Hm : _ \/ _ |- _ => destruct Hm as [Hm | ->] end; done.
Qed.

Lemma shape_str alt c0 :
  typed c0 ->
  shaped TextKey false (cleanse_with false false (fallback_html opts alt (normalize_str c0))).
Proof.
  intros ([t Hty] & [l Hl]).
  destruct c0 as [v0 h0 m0 cp0 mn0 mx0 mk0 ha0 cs0 ty0].
  cbn [value type cssClass] in *. subst.
  remember (normalize_str _) as d0 eqn:Hd0.
  remember (cleanse_with false false (fallback_html opts alt d0)) as c1 eqn:Hc1.
  unfold normalize_str in Hd0. cbv beta iota delta [read value] in Hd0.
  destruct v0 as [[| |b|n|s|tm|src|items|cls]|].
  4: destruct (isNaN n) eqn:En.
  all: reduce_in Hd0; kept; subst d0; reduce_in Hc1; kept; subst c1.
  all: shape_goal.
Qed.

Lemma shape_version alt c0 :
  typed c0 ->
  shaped TextKey false
    (cleanse_with false false (fallback_html opts alt (normalize_version c0))).
Proof.
  intros ([t Hty] & [l Hl]).
  destruct c0 as [v0 h0 m0 cp0 mn0 mx0 mk0 ha0 cs0 ty0].
  cbn [value type cssClass] in *. subst.
  remember (normalize_version _) as d0 eqn:Hd0.
  remember (cleanse_with false false (fallback_html opts alt d0)) as c1 eqn:Hc1.
  unfold normalize_version in Hd0. cbv beta iota delta [read value] in Hd0.
  destruct v0 as [[| |b|n|s|tm|src|items|cls]|].
  4: destruct (lt (int 0) n) eqn:En.
  all: reduce_in Hd0; kept; subst d0; reduce_in Hc1; kept; subst c1.
  all: shape_goal.
Qed.

Ltac reduce2_in H :=
  cbv beta iota zeta delta
  [set_value set_html set_match set_cmp set_cmpMin set_cmpMax set_mask set_cssClass set_type
   value html match_ cmp cmpMin cmpMax mask htmlAlt cssClass type
   push_class cleanse_with fallback_html bad_range bad_scalar html_text read negb
   typeOf String.eqb Ascii.eqb Bool.eqb orb andb] in H.

Lemma shape_ip alt c0 :
  typed c0 ->
  shaped Ranged false (cleanse_with true true (fallback_html opts alt (normalize_ip c0))).
Proof.
  intros ([t Hty] & [l Hl]).
  destruct c0 as [v0 h0 m0 cp0 mn0 mx0 mk0 ha0 cs0 ty0].
  cbn [value type cssClass] in *. subst.
  remember (normalize_ip _) as d0 eqn:Hd0.
  remember (cleanse_with true true (fallback_html opts alt d0)) as c1 eqn:Hc1.
  unfold normalize_ip in Hd0. cbv beta iota delta [read value] in Hd0.
  destruct v0 as [[| |b|n|s|tm|src|items|cls]|].
  5: { cbv zeta in Hd0.
       match type of Hd0 with
       | context [if nonzero ?x then _ else _] => destruct (nonzero x) eqn:Ez
       end;
       destruct mk0 as [mk|]; try destruct (isNaN_value mk) eqn:Emk.
       all: do 3 (reduce2_in Hd0; kept; rewrite ?Ez, ?Emk in Hd0).
       all: subst d0; reduce_in Hc1; kept; subst c1.
       all: shape_goal.
       all: eexists _, _; repeat split; try reflexivity;
         repeat match goal with Hm : _ \/ _ |- _ => destruct Hm as [Hm | ->] end; done. }
  all: reduce_in Hd0; kept; subst d0; reduce_in Hc1; kept; subst c1.
  all: shape_goal.
  all: eexists _, _; repeat split; try reflexivity; done.
Qed.

Ltac reduce3_in H :=
  cbv beta iota zeta delta
  [set_value set_html set_match set_cmp set_cmpMin set_cmpMax set_mask set_cssClass set_type
   value html match_ cmp cmpMin cmpMax mask htmlAlt cssClass type
   push_class cleanse_with fallback_html bad_range bad_scalar html_text read negb
   bind is_string] in H.

Lemma shape_date alt fmt c0 :
  typed c0 ->
  match normalize_date opts fmt c0 with
  | Done d0 => shaped NumberKey false (cleanse_with false false (fallback_html opts alt d0))
  | Thrown e => e = "RangeError: Invalid time value"
  end.
Proof.
  intros ([t Hty] & [l Hl]).
  destruct c0 as [v0 h0 m0 cp0 mn0 mx0 mk0 ha0 cs0 ty0].
  cbn [value type cssClass] in *. subst.
  destruct (normalize_date opts fmt _) as [d0|e] eqn:Hd0.
  1: remember (cleanse_with false false (fallback_html opts alt d0)) as c1 eqn:Hc1.
  all: unfold normalize_date in Hd0; cbv beta iota delta [read value] in Hd0.
  all: destruct v0 as [[| |b|n|s|tm|src|items|cls]|].
  all: try (destruct (lt (int 0) n) eqn:En).
  all: try (destruct (isNaN (date_parse (if is_ymd s then s +:+ "T12:00:00Z" else s))) eqn:En).
  all: try (destruct (isNaN tm) eqn:En).
  all: try (destruct h0 as [[| | | | hs | | | |]|]).
  all: reduce3_in Hd0.
  all: try match type of Hd0 with
    | context [formatDate ?o ?d ?f] =>
    let Ef := fresh "Ef" in
    destruct (formatDate o d f) as [text|err] eqn:Ef; reduce3_in Hd0
    end.
  all: try discriminate.
  all: try (injection Hd0 as Hd0; symmetry in Hd0; kept; subst d0; reduce_in Hc1; kept;
            subst c1; shape_goal).
  all: injection Hd0 as <-.
  all: unfold formatDate in Ef; repeat case_match; congruence.
Qed.

Lemma cleanse_cleanse_with col c :
  cleanse col c
  = cleanse_with (type_is col "intrange" || type_is col "ip") (type_is col "ip") c.
Proof. reflexivity. Qed.

End Shape.

Local Transparent keep_string keep_number toUpperCase fallback_choice.

(** The shape of the key of a column, by its declared type. *)
Definition key_shape_of (col : column) : key_shape :=
  if type_is col "int" then NumberKey
  else if type_is col "intrange" || type_is col "ip" then Ranged
  else if type_is col "date" then NumberKey
  else TextKey.

(** What [normalizeValue] promises about the cell of a column. *)
Definition normalised (col : column) (c : cell) : Prop :=
  shaped (key_shape_of col) (type_is col "int") c
  /\ (type_is col "ip" = false -> mask c = None).

Lemma normalize_cell_shape `{Host} opts col c0 :
  typed c0 ->
  match normalize_cell opts col c0 with
  | Done c => normalised col c
  | Thrown e => type_is col "date" = true /\ e = "RangeError: Invalid time value"
  end.
Proof.
  intros Hc0. rewrite normalize_cell_unfold. unfold normalised, key_shape_of, type_is.
  destruct (col_type col) as [t|].
  - destruct (String.eqb_spec t "int") as [E|N1].
    { subst. cbn. split; [by apply shape_int|done]. }
    destruct (String.eqb_spec t "intrange") as [E|N2].
    { subst. cbn. split; [by apply shape_intrange|done]. }
    destruct (String.eqb_spec t "ip") as [E|N3].
    { subst. cbn. split; [by apply shape_ip|done]. }
    destruct (String.eqb_spec t "date") as [E|N4].
    { subst. cbn [orb].
      pose proof (shape_date opts (col_htmlAlt col) (col_dateFormat col) c0 Hc0) as Hd.
      by destruct (normalize_date opts (col_dateFormat col) c0). }
    destruct (String.eqb_spec t "version") as [E|N5].
    { subst. cbn. split; [by apply shape_version|done]. }
    cbn. split; [by apply shape_str|done].
  - cbn. split; [by apply shape_str|done].
Qed.

(** X8.  Whatever the row holds under the key of the column,
    [normalizeValue] leaves a cell there whose [html] is a string,
    whose [cssClass] is an array and whose [match] is a string (on an
    [int] column it can be the Number under [cmp]); on an [intrange] or
    [ip] column the cell has Number bounds other than [NaN] and no
    [cmp], on the others a [cmp] (a Number on [int] and [date], a string
    otherwise) and no bounds; [mask] is only left on an [ip] column.
    The one exception it can end with is that of formatting an invalid
    date, on a [date] column. *)
Theorem normalizeValue_shape `{Host} (opts : options) (row : gmap string slot)
    (col : column) :
  match normalizeValue opts row col with
  | Done row' => exists c, row' = <[col_key col := Obj c]> row /\ normalised col c
  | Thrown e => type_is col "date" = true /\ e = "RangeError: Invalid time value"
  end.
Proof.
  unfold normalizeValue.
  pose proof (normalize_cell_shape opts col _ (prepare_typed (row !! col_key col))) as Hc.
  destruct (normalize_cell opts col (prepare (row !! col_key col))) as [c|e]; [|done].
  cbn [bind]. eauto.
Qed.

(** The exception does occur: the Number [Infinity] on a [date] column
    whose cell brings no [html] of its own. *)
Example normalizeValue_invalid_date :
  normalizeValue (H := Build_Host (fun _ => "") (fun _ => NaN) (fun _ => "")
                        (fun _ => true) (fun _ _ => false) (fun _ => NaN)
                        (fun t => t) (fun t => t) None
                        (fun t => if isNaN t then None else Some "1970-01-01"))
    Sample.no_options {[ "seen" := Raw (VNum PInf) ]} (Sample.col "seen" (Some "date"))
  = Thrown "RangeError: Invalid time value".
Proof. reflexivity. Qed.



End ShapeFacts.

(** ** Sorting what preRenderBody has normalised *)

Module PrepareFacts.
Import JsString Js Common FilterSort Main SortFacts SortKeyFacts ShapeFacts DisplayFacts.

Lemma foldl_thrown `{Host} opts e table :
  foldl (fun acc column => let! row := acc in normalizeValue opts row column)
    (Thrown e) table = Thrown e.
Proof. by induction table. Qed.

Lemma normalize_row_cons `{Host} opts col table row row' :
  normalize_row opts (col :: table) row = Done row' ->
  exists r1, normalizeValue opts row col = Done r1 /\ normalize_row opts table r1 = Done row'.
Proof.
  unfold normalize_row. cbn [foldl bind].
  destruct (normalizeValue opts row col) as [r1|e]; [eauto|].
  by rewrite foldl_thrown.
Qed.

Lemma normalizeValue_other `{Host} opts row col r1 k :
  normalizeValue opts row col = Done r1 -> k <> col_key col -> r1 !! k = row !! k.
Proof.
  unfold normalizeValue. destruct (normalize_cell _ _ _); [|done]. cbn [bind].
  intros [= <-] Hk. by rewrite lookup_insert_ne.
Qed.

Lemma normalize_row_other `{Host} opts table : forall row row' k,
    normalize_row opts table row = Done row' ->
    k ∉ (col_key <$> table) -> row' !! k = row !! k.
Proof.
  induction table as [|col table IH]; intros row row' k.
  - by intros [= <-].
  - intros (r1 & H1 & Hrest)%normalize_row_cons Hk. rewrite fmap_cons in Hk.
    apply not_elem_of_cons in Hk as [Hk1 Hk2].
    by rewrite (IH _ _ _ Hrest Hk2), (normalizeValue_other _ _ _ _ _ H1 Hk1).
Qed.

(** After the columns of a table with distinct keys have been
    normalised, the row has under each key a cell as its column
    promises. *)
Lemma normalize_row_cells `{Host} opts table : forall row row' col,
    NoDup (col_key <$> table) ->
    normalize_row opts table row = Done row' ->
    col ∈ table ->
    exists c, row' !! col_key col = Some (Obj c) /\ normalised col c.
Proof.
  induction table as [|col0 table IH]; intros row row' col Hnd Hrow Hcol.
  - by apply elem_of_nil in Hcol.
  - rewrite fmap_cons in Hnd. apply NoDup_cons in Hnd as [Hfresh Hnd].
    apply normalize_row_cons in Hrow as (r1 & H1 & Hrest).
    apply elem_of_cons in Hcol as [->|Hcol]; [|by eapply IH].
    rewrite (normalize_row_other _ _ _ _ _ Hrest Hfresh).
    unfold normalizeValue in H1.
    pose proof (normalize_cell_shape opts col0 _ (prepare_typed (row !! col_key col0))) as Hc.
    destruct (normalize_cell opts col0 (prepare (row !! col_key col0))) as [c|e]; [|done].
    cbn [bind] in H1. injection H1 as <-. exists c. by rewrite lookup_insert_eq.
Qed.

Lemma normalize_rows_cells `{Host} opts table : forall data data' i row' col,
    NoDup (col_key <$> table) ->
    normalize_rows opts table data = Done data' ->
    data' !! i = Some row' -> col ∈ table ->
    exists c, row' !! col_key col = Some (Obj c) /\ normalised col c.
Proof.
  induction data as [|row data IH]; intros data' i row' col Hnd; cbn [normalize_rows].
  - by intros [= <-].
  - destruct (normalize_row opts table row) as [r|] eqn:Hr; [|done]. cbn [bind].
    destruct (normalize_rows opts table data) as [d|] eqn:Hd; [|done]. cbn [bind].
    intros [= <-] Hi Hcol. destruct i as [|i]; cbn in Hi.
    + injection Hi as <-. by eapply normalize_row_cells.
    + by eapply IH.
Qed.

Lemma entry_cell_cells data i (row : gmap string slot) k c :
  Z.of_nat i < 1048576 -> data !! i = Some row -> row !! k = Some (Obj c) ->
  entry_cell (cells_of <$> data) k (Z.of_nat i) = Some c.
Proof.
  intros Hi Hrow Hc. unfold entry_cell. rewrite unhide_small by lia.
  rewrite Nat2Z.id, list_lookup_fmap, Hrow. cbn. unfold cells_of.
  by rewrite lookup_omap, Hc.
Qed.

(** The entries of [initial_display] name the rows, in their order. *)
Lemma initial_display_entries {A} (data : list A) e :
  e ∈ initial_display data -> exists i row, e = Z.of_nat i /\ data !! i = Some row.
Proof.
  unfold initial_display. intros (i & -> & Hi)%list_elem_of_fmap.
  apply elem_of_seq in Hi. destruct (lookup_lt_is_Some_2 data i) as [row Hrow]; [lia|].
  eauto.
Qed.

(** Sorting entries whose cells all carry both bounds *)
Lemma sort_ranged `{Host} (data : list (gmap string cell)) (colKey : string)
    (order : bool) (display : list Z) :
  Forall (ranged data colKey) display ->
  exists sorted,
  sortData data colKey order display = Done sorted
  /\ sorted ≡ₚ display
  /\ StronglySorted (before data colKey order) sorted.
Proof.
  intros Hranged.
  set (cmp := fun a b => three_way order (bound data colKey order a) (bound data colKey order b)).
  exists (sort_by cmp display). split; [|split].
  - unfold sortData. apply sort_rows_pure. intros x y Hx Hy.
    rewrite Forall_forall in Hranged. by apply compare_rows_ranged; apply Hranged.
  - apply sort_by_perm.
  - apply (sort_by_sorted cmp (before data colKey order) (ranged data colKey)); [| | |done].
    + intros x y z _ Hy _. unfold before. destruct order; intros Hxy Hyz.
      * eapply leb_trans; eauto using bound_not_NaN.
      * eapply leb_trans; eauto using bound_not_NaN.
    + intros x y _ _. unfold cmp, three_way, before, leb.
      destruct order; repeat case_match; simpl; try lia; try done.
    + intros x y _ _. unfold cmp, three_way, before.
      destruct order; repeat case_match; try lia; intros _; by apply lt_asym.
Qed.

(** X9.  Once [preRenderBody] has normalised the rows of a table with
    distinct column keys (at most 2^20 rows), sorting that has never
    been done before succeeds on every [intrange], [ip], [str] and
    [version] column, whatever the raw values were: [sortData] returns
    the same entries, ordered by the bound of the direction on the
    first two and by the text under [cmp] on the others. *)
Theorem sortData_after_normalising `{Host} (opts : options) (table : list column)
    (raw data : list (gmap string slot)) (col : column) (order : bool) :
  NoDup (col_key <$> table) ->
  Z.of_nat (length raw) <= 1048576 ->
  normalize_rows opts table raw = Done data ->
  col ∈ table ->
  key_shape_of col <> NumberKey ->
  exists sorted,
  sortData (cells_of <$> data) (col_key col) order (initial_display data) = Done sorted
  /\ sorted ≡ₚ initial_display data
  /\ match key_shape_of col with
     | Ranged => StronglySorted (before (cells_of <$> data) (col_key col) order) sorted
     | _ => StronglySorted (in_order (cells_of <$> data) (col_key col) order) sorted
     end.
Proof.
  intros Hnd Hlen Hdata Hcol Hshape.
  assert (length data = length raw) as Hlen'.
  { clear -Hdata. revert data Hdata.
    induction raw as [|row raw IH]; intros data; cbn [normalize_rows].
    - by intros [= <-].
    - destruct (normalize_row opts table row); [|done]. cbn [bind].
      destruct (normalize_rows opts table raw); [|done]. cbn [bind].
      intros [= <-]. cbn [length]. by rewrite (IH _ eq_refl). }
  assert (forall e, e ∈ initial_display data ->
            exists c, entry_cell (cells_of <$> data) (col_key col) e = Some c
                      /\ normalised col c) as Hcells.
  { intros e (i & row & -> & Hrow)%initial_display_entries.
    destruct (normalize_rows_cells opts table raw data i row col Hnd Hdata Hrow Hcol)
      as (c & Hc & Hn).
    exists c. split; [|done]. eapply entry_cell_cells; [|done..].
    apply lookup_lt_Some in Hrow. lia. }
  destruct (key_shape_of col) eqn:Hk; [| done|].
  - destruct (sort_ranged (cells_of <$> data) (col_key col) order (initial_display data))
      as (sorted & Hs & Hp & Hsorted); [|by exists sorted].
    apply Forall_forall. intros e He. destruct (Hcells e He) as (c & Hc & [Hn _]).
    unfold shaped in Hn. rewrite Hk in Hn.
    destruct Hn as (_ & _ & _ & _ & lo & hi & ? & ? & ? & ?).
    by exists c, lo, hi.
  - assert (Forall (keyed Texts (cells_of <$> data) (col_key col)) (initial_display data))
      as Hkeyed; [|eexists; split; [by apply (sortData_key_cmp Texts)|];
                   split; [apply sort_by_perm|by apply (key_cmp_sorted Texts)]].
    apply Forall_forall. intros e He. destruct (Hcells e He) as (c & Hc & [Hn _]).
    unfold shaped in Hn. rewrite Hk in Hn.
    destruct Hn as (_ & _ & _ & ? & ? & s & ?).
    exists c, (VStr s). repeat split; try done. by exists s.
Qed.

(** Two raw rows: one with a port range, one with nothing usable. *)
Definition sample_raw : list (gmap string slot) :=
  [ {[ "label" := Raw (VStr "web"); "src" := Raw (VStr "10.1.2.3/24");
       "ports" := Raw (VStr "80-443") ]};
    {[ "label" := Raw VNull; "ports" := Obj emptyCell ]} ].

Lemma sortData_after_normalising_witness :
  exists data sorted,
  normalize_rows (H := Sample.plain_host) Sample.no_options Sample.table sample_raw
  = Done data
  /\ sortData (H := Sample.plain_host) (cells_of <$> data) "ports" true (initial_display data)
     = Done sorted
  /\ sorted ≡ₚ initial_display data.
Proof.
  destruct (normalize_rows (H := Sample.plain_host) Sample.no_options Sample.table sample_raw)
    as [data|] eqn:Hdata; [|by vm_compute in Hdata].
  destruct (sortData_after_normalising (H := Sample.plain_host) Sample.no_options
              Sample.table sample_raw data (Sample.col "ports" (Some "intrange")) true)
    as (sorted & Hs & Hp & _).
  - by apply (bool_decide_unpack _).
  - cbn. lia.
  - exact Hdata.
  - by repeat constructor.
  - by vm_compute.
  - by exists data, sorted.
Defined.

(** The loop of [preRenderBody] a second time, as on every change of
    view: the cell without a usable label gets its class [bad-value]
    once more. *)
Example preRenderBody_again :
  exists data data2 c1 c2,
  normalize_rows (H := Sample.plain_host) Sample.no_options Sample.table sample_raw = Done data
  /\ normalize_rows (H := Sample.plain_host) Sample.no_options Sample.table data = Done data2
  /\ data !! 1%nat ≫= (.!! "label") = Some (Obj c1)
  /\ cssClass c1 = Some (VArray [VStr "bad-value"])
  /\ data2 !! 1%nat ≫= (.!! "label") = Some (Obj c2)
  /\ cssClass c2 = Some (VArray [VStr "bad-value"; VStr "bad-value"]).
Proof.
  destruct (normalize_rows (H := Sample.plain_host) Sample.no_options Sample.table sample_raw)
    as [data|] eqn:Hdata; [|by vm_compute in Hdata].
  destruct (normalize_rows (H := Sample.plain_host) Sample.no_options Sample.table data)
    as [data2|] eqn:Hdata2.
  2: { vm_compute in Hdata. injection Hdata as <-. by vm_compute in Hdata2. }
  vm_compute in Hdata. injection Hdata as <-.
  vm_compute in Hdata2. injection Hdata2 as <-.
  eexists _, _, _, _. split; [reflexivity|]. split; [reflexivity|].
  split; [vm_compute; reflexivity|]. split; [reflexivity|].
  split; [vm_compute; reflexivity|]. reflexivity.
Qed.

End PrepareFacts.

(** ** Addresses and masks *)

Module AddressFacts.
Import JsString Js Common FilterSort FilterFacts.

Lemma int_inj x y : int x = int y -> x = y.
Proof. unfold int, inject_Z. by intros [= ->]. Qed.

Lemma lt_int x y : lt (int x) (int y) = (x <? y).
Proof.
  unfold lt, int, Qle_bool, inject_Z. cbn [Qnum Qden].
  rewrite !Z.mul_1_r. destruct (Z.leb_spec y x), (Z.ltb_spec x y); try done; lia.
Qed.

(** X10.  Every dotted quad of octets is converted to its 32-bit number, and
    two of them to the same number only when they are the same address. *)
Theorem ip2long_octets (a b c d a' b' c' d' : Z) :
  octet a -> octet b -> octet c -> octet d ->
  octet a' -> octet b' -> octet c' -> octet d' ->
  ip2long (dotted a b c d) = int (a * 2 ^ 24 + b * 2 ^ 16 + c * 2 ^ 8 + d)
  /\ 0 <= a * 2 ^ 24 + b * 2 ^ 16 + c * 2 ^ 8 + d < 2 ^ 32
  /\ (ip2long (dotted a b c d) = ip2long (dotted a' b' c' d') ->
      a = a' /\ b = b' /\ c = c' /\ d = d').
Proof.
  unfold octet. intros Ha Hb Hc Hd Ha' Hb' Hc' Hd'.
  rewrite !ip2long_dotted by done. split; [done|]. split; [lia|].
  intros Heq%int_inj. lia.
Qed.

Lemma ip2long_octets_witness :
  ip2long "10.1.2.3" = int 167838211
  /\ (ip2long "10.1.2.3" = ip2long "10.1.2.3" -> 10 = 10 /\ 1 = 1 /\ 2 = 2 /\ 3 = 3).
Proof.
  assert (octet 10 /\ octet 1 /\ octet 2 /\ octet 3) as (H10 & H1 & H2 & H3)
    by (unfold octet; lia).
  destruct (ip2long_octets 10 1 2 3 10 1 2 3 H10 H1 H2 H3 H10 H1 H2 H3) as (Hv & _ & Hi).
  split; [exact Hv|exact Hi].
Defined.

(** X11.  [cidr2long] answers the mask with that many leading one bits for a
    suffix from 1 to 31, and the mask of a single host for every other
    integer, the suffix 0 included, and for [NaN]. *)
Theorem cidr2long_mask (n : Z) :
  cidr2long (int n)
  = VNum (int (if (0 <? n) && (n <? 32) then 2 ^ 32 - 2 ^ (32 - n) else 4294967295))
  /\ cidr2long NaN = VNum (int 4294967295).
Proof.
  split; [|done]. unfold cidr2long. rewrite !lt_int.
  destruct ((0 <? n) && (n <? 32)) eqn:Hn; [|done].
  apply andb_true_iff in Hn as [H0%Z.ltb_lt H32%Z.ltb_lt].
  cbn [int inject_Z Qnum Qden Z.eqb Pos.eqb].
  assert (n ∈ seqZ 1 31) as Hin by (apply elem_of_seqZ; lia).
  cbn in Hin.
  repeat (apply elem_of_cons in Hin as [->|Hin]); [..|by apply elem_of_nil in Hin];
    reflexivity.
Qed.

End AddressFacts.

(** ** Networks *)

Module NetworkFacts.
Import JsString Js Common FilterSort Main NormaliseFacts FilterFacts DisplayFacts ShapeFacts
  AddressFacts TextFacts.

(** *** The bits of a masked address *)

Lemma testbit_below x i : 0 <= x < 2 ^ 32 -> 32 <= i -> Z.testbit x i = false.
Proof.
  intros Hx Hi. rewrite <- (Z.mod_small x (2 ^ 32)) by lia.
  apply Z.mod_pow2_bits_high. lia.
Qed.

Lemma testbit_mask k i :
  0 <= k <= 31 -> 0 <= i -> Z.testbit (2 ^ 32 - 2 ^ k) i = (k <=? i) && (i <? 32).
Proof.
  intros Hk Hi.
  replace (2 ^ 32 - 2 ^ k) with (Z.ones (32 - k) * 2 ^ k).
  2: { rewrite Z.ones_equiv, Z.mul_pred_l, <- Z.pow_add_r by lia.
       replace (32 - k + k) with 32 by lia. lia. }
  destruct (Z.leb_spec k i).
  - rewrite Z.mul_pow2_bits by lia. destruct (Z.ltb_spec i 32).
    + apply Z.ones_spec_low. lia.
    + apply Z.ones_spec_high. lia.
  - rewrite Z.mul_pow2_bits_low by lia. done.
Qed.

Lemma testbit_floor x k i :
  0 <= k -> 0 <= i -> Z.testbit (x / 2 ^ k * 2 ^ k) i = (k <=? i) && Z.testbit x i.
Proof.
  intros Hk Hi. destruct (Z.leb_spec k i).
  - rewrite Z.mul_pow2_bits, Z.div_pow2_bits by lia. cbn [andb]. f_equal. lia.
  - by rewrite Z.mul_pow2_bits_low by lia.
Qed.

(** [(x & m) >>> 0] for a mask of leading ones: the address with its
    low bits cleared. *)
Lemma masked_low x k :
  0 <= x < 2 ^ 32 -> 0 <= k <= 31 ->
  Z.land (int32 x) (int32 (2 ^ 32 - 2 ^ k)) mod 2 ^ 32 = x / 2 ^ k * 2 ^ k.
Proof.
  intros Hx Hk. apply Z.bits_inj'. intros i Hi. rewrite testbit_floor by lia.
  destruct (Z.ltb_spec i 32).
  - rewrite Z.mod_pow2_bits_low, Z.land_spec, !testbit_int32, testbit_mask by lia.
    replace (i <? 32) with true by lia. rewrite andb_true_r. apply andb_comm.
  - rewrite Z.mod_pow2_bits_high, (testbit_below x i) by lia. by rewrite andb_false_r.
Qed.

(** [(x | ~m) >>> 0]: the address with its low bits set. *)
Lemma masked_high x k :
  0 <= x < 2 ^ 32 -> 0 <= k <= 31 ->
  Z.lor (int32 x) (Z.lnot (int32 (2 ^ 32 - 2 ^ k))) mod 2 ^ 32
  = x / 2 ^ k * 2 ^ k + (2 ^ k - 1).
Proof.
  intros Hx Hk.
  replace (2 ^ k - 1) with (Z.ones k) by (rewrite Z.ones_equiv; lia).
  assert (Z.land (x / 2 ^ k * 2 ^ k) (Z.ones k) = 0) as Hland.
  { apply Z.bits_inj'. intros i Hi. rewrite Z.land_spec, testbit_floor, Z.bits_0 by lia.
    destruct (Z.leb_spec k i); [|done].
    rewrite Z.ones_spec_high by lia. apply andb_false_r. }
  rewrite <- Z.add_lor_land, Hland, Z.add_0_r.
  apply Z.bits_inj'. intros i Hi. rewrite Z.lor_spec, testbit_floor by lia.
  destruct (Z.ltb_spec i 32).
  - rewrite Z.mod_pow2_bits_low, Z.lor_spec, Z.lnot_spec, !testbit_int32, testbit_mask by lia.
    replace (i <? 32) with true by lia. rewrite andb_true_r.
    destruct (Z.leb_spec k i).
    + rewrite Z.ones_spec_high by lia. cbn [negb andb]. by rewrite !orb_false_r.
    + rewrite Z.ones_spec_low by lia. cbn [negb andb]. by rewrite !orb_true_r.
  - rewrite Z.mod_pow2_bits_high, (testbit_below x i), Z.ones_spec_high by lia.
    by rewrite andb_false_r.
Qed.

(** *** The address expression on a dotted quad *)

(** The text does not go on with a digit. *)
Definition no_digit_ahead (r : string) : Prop :=
  match r with
  | String ch _ => is_digit ch = false
  | EmptyString => True
  end.

Lemma span_digits_app d r :
  digits_only d = true -> no_digit_ahead r -> span_digits (d +:+ r) = (d, r).
Proof.
  induction d as [|c d IH]; intros Hd Hr.
  - destruct r as [|ch r]; [done|].
    change ("" +:+ String ch r) with (String ch r).
    cbn [span_digits no_digit_ahead] in *. by rewrite Hr.
  - cbn [digits_only] in Hd. apply andb_true_iff in Hd as [Hc Hd].
    change (String c d +:+ r) with (String c (d +:+ r)). cbn [span_digits].
    by rewrite Hc, IH.
Qed.

Definition short_number (d : string) : bool :=
  digits_only d && (1 <=? String.length d)%nat && (String.length d <=? 3)%nat.

Lemma digits_1_3_app d r :
  short_number d = true -> no_digit_ahead r -> digits_1_3 (d +:+ r) = Some (d, r).
Proof.
  unfold short_number. intros [[Hd H1]%andb_true_iff H3]%andb_true_iff Hr.
  unfold digits_1_3. rewrite span_digits_app by done.
  destruct d as [|c1 [|c2 [|c3 [|c4 d]]]]; done.
Qed.

Lemma digits_upto3_app d r :
  short_number d = true -> no_digit_ahead r -> digits_upto3 (d +:+ r) = Some (d, r).
Proof.
  unfold short_number. intros [[Hd H1]%andb_true_iff H3]%andb_true_iff Hr.
  unfold digits_upto3. rewrite span_digits_app by done.
  destruct d as [|c1 [|c2 [|c3 [|c4 d]]]]; done.
Qed.

Lemma short_number_octet a : octet a -> short_number (decimal a) = true.
Proof.
  intros Ha%octet_in.
  assert (forallb (fun a => short_number (decimal a)) octets = true) as Hall
    by (vm_compute; reflexivity).
  rewrite forallb_forall in Hall. apply Hall. by apply list_elem_of_In.
Qed.

Lemma octet_dot_app a r :
  octet a -> octet_dot (decimal a +:+ "." +:+ r) = Some (decimal a +:+ ".", r).
Proof.
  intros Ha. unfold octet_dot. by rewrite digits_1_3_app by (done || by apply short_number_octet).
Qed.

Lemma quad_here_dotted a b c d r :
  octet a -> octet b -> octet c -> octet d -> no_digit_ahead r ->
  quad_here (dotted a b c d +:+ r) = Some (dotted a b c d, r).
Proof.
  intros Ha Hb Hc Hd Hr. unfold quad_here, dotted.
  rewrite !append_assoc, !octet_dot_app by done.
  rewrite digits_1_3_app by (done || by apply short_number_octet).
  by rewrite !append_assoc.
Qed.

Lemma ip_exec_here s addr r :
  quad_here s = Some (addr, r) ->
  ip_exec s = match trimStart r with
              | String "/" m => Some (addr, mask_here m)
              | _ => Some (addr, None)
              end.
Proof. intros Hq. destruct s; cbn [ip_exec]; by rewrite Hq. Qed.

Definition prefix_lengths : list Z := seqZ 0 33.

Lemma prefix_length_text n :
  0 <= n <= 32 ->
  mask_here (decimal n) = Some (decimal n)
  /\ includes "." (decimal n) = false
  /\ parseInt (decimal n) = int n.
Proof.
  intros Hn. assert (n ∈ prefix_lengths) as Hin by (apply elem_of_seqZ; lia).
  revert Hin. clear Hn. revert n. apply Forall_forall.
  unfold prefix_lengths.
  cbv [seqZ Z.to_nat Pos.to_nat Pos.iter_op Init.Nat.add seq fmap list_fmap Z.of_nat Z.add].
  repeat constructor; vm_compute; done.
Qed.

Lemma ip_exec_prefix a b c d n :
  octet a -> octet b -> octet c -> octet d -> 0 <= n <= 32 ->
  ip_exec (dotted a b c d +:+ "/" +:+ decimal n)
  = Some (dotted a b c d, Some (decimal n)).
Proof.
  intros Ha Hb Hc Hd Hn.
  rewrite (ip_exec_here _ (dotted a b c d) ("/" +:+ decimal n)).
  - change (trimStart ("/" +:+ decimal n)) with (String "/" (decimal n)).
    by destruct (prefix_length_text n Hn) as (-> & _).
  - by apply quad_here_dotted.
Qed.

Lemma ip_exec_plain a b c d :
  octet a -> octet b -> octet c -> octet d ->
  ip_exec (dotted a b c d) = Some (dotted a b c d, None).
Proof.
  intros Ha Hb Hc Hd.
  rewrite (ip_exec_here _ (dotted a b c d) "").
  - done.
  - rewrite <- (quad_here_dotted a b c d "") by done. f_equal.
    clear. induction (dotted a b c d) as [|ch s IH]; [done|].
    change (String ch s = String ch (s +:+ "")). by f_equal.
Qed.


(** *** The bounds of a network *)

Lemma trunc_int x : trunc (int x) = x.
Proof. unfold trunc, int, inject_Z. cbn [Qnum Qden]. apply Z.quot_1_r. Qed.

Lemma ToInt32_int x : ToInt32 (int x) = int32 x.
Proof. unfold ToInt32. by rewrite trunc_int. Qed.

Section Network.
Context `{Host} (opts : options).

Lemma fallback_html_bounds alt c :
  cmpMin (fallback_html opts alt c) = cmpMin c
  /\ cmpMax (fallback_html opts alt c) = cmpMax c
  /\ mask (fallback_html opts alt c) = mask c.
Proof.
  unfold fallback_html, push_class.
  destruct (read (html c)); try done.
  cbn [cssClass set_match set_html]. by destruct (cssClass c) as [[]|].
Qed.

Lemma normalize_ip_bounds c0 s :
  value c0 = Some (VStr s) -> cmpMin c0 = None -> cmpMax c0 = None -> mask c0 = None ->
  let matches := ip_exec s in
  let ipAddr := match matches with Some (addr, _) => ip2long addr | None => int 0 end in
  let maskStr := match matches with Some (_, Some m) => m | _ => "32" end in
  let ipMask := if includes "." maskStr then VNum (ip2long maskStr)
                else cidr2long (parseInt maskStr) in
  cmpMin (normalize_ip c0) = Some (VNum (ushr0 (bitand (VNum ipAddr) ipMask)))
  /\ cmpMax (normalize_ip c0) = Some (VNum (ushr0 (Z.lor (ToInt32 ipAddr) (bitnot ipMask))))
  /\ mask (normalize_ip c0) = Some ipMask.
Proof.
  intros Hv Hmin Hmax Hmask matches ipAddr maskStr ipMask.
  destruct c0 as [v0 h0 m0 cp0 mn0 mx0 mk0 ha0 cs0 ty0].
  cbn [value cmpMin cmpMax mask] in Hv, Hmin, Hmax, Hmask. subst v0 mn0 mx0 mk0.
  unfold normalize_ip. cbn [read value]. fold matches. fold ipAddr. fold maskStr. fold ipMask.
  cbv zeta. destruct (nonzero ipAddr); [done|].
  unfold push_class. cbn [cssClass set_mask set_cmpMax set_cmpMin set_match set_html].
  by destruct cs0 as [[]|].
Qed.

(** An address with or without a prefix length, as the data writes it *)
Definition network_text (a b c d : Z) (len : option Z) : string :=
  match len with
  | Some n => dotted a b c d +:+ "/" +:+ decimal n
  | None => dotted a b c d
  end.

(** The number of low bits the mask leaves free *)
Definition host_bits (len : option Z) : Z :=
  match len with
  | Some n => if (0 <? n) && (n <? 32) then 32 - n else 0
  | None => 0
  end.

Definition prefix_length (len : option Z) : Prop :=
  match len with Some n => 0 <= n <= 32 | None => True end.

Lemma ip_exec_network a b c d len :
  octet a -> octet b -> octet c -> octet d -> prefix_length len ->
  ip_exec (network_text a b c d len) = Some (dotted a b c d, decimal <$> len).
Proof.
  intros Ha Hb Hc Hd Hlen. destruct len as [n|].
  - by apply ip_exec_prefix.
  - by apply ip_exec_plain.
Qed.

Lemma network_mask len :
  prefix_length len ->
  (let maskStr := match decimal <$> len with Some m => m | None => "32" end in
   if includes "." maskStr then VNum (ip2long maskStr) else cidr2long (parseInt maskStr))
  = VNum (int (2 ^ 32 - 2 ^ host_bits len)).
Proof.
  intros Hlen. destruct len as [n|]; [|done]. cbn [prefix_length] in Hlen.
  assert (n ∈ prefix_lengths) as Hin by (apply elem_of_seqZ; lia).
  revert Hin. clear Hlen. revert n. apply Forall_forall.
  unfold prefix_lengths.
  cbv [seqZ Z.to_nat Pos.to_nat Pos.iter_op Init.Nat.add seq fmap list_fmap Z.of_nat Z.add].
  repeat constructor.
Qed.

Lemma host_bits_range len : 0 <= host_bits len <= 31.
Proof.
  destruct len as [n|]; cbn; [|lia].
  destruct (Z.ltb_spec 0 n), (Z.ltb_spec n 32); cbn; lia.
Qed.

Lemma network_cell (col : column) (a b c d : Z) (len : option Z) :
  octet a -> octet b -> octet c -> octet d -> prefix_length len ->
  type_is col "ip" = true ->
  let k := host_bits len in
  let first := (a * 2 ^ 24 + b * 2 ^ 16 + c * 2 ^ 8 + d) / 2 ^ k * 2 ^ k in
  exists cl,
    normalize_cell opts col (prepare (Some (Raw (VStr (network_text a b c d len))))) = Done cl
    /\ cmpMin cl = Some (VNum (int first))
    /\ cmpMax cl = Some (VNum (int (first + (2 ^ k - 1))))
    /\ mask cl = Some (VNum (int (2 ^ 32 - 2 ^ k))).
Proof.
  intros Ha Hb Hc Hd Hlen Hip k first. rewrite normalize_cell_unfold.
  assert (type_is col "int" = false /\ type_is col "intrange" = false) as [-> ->].
  { unfold type_is in *. destruct (col_type col) as [t|]; [|done].
    apply String.eqb_eq in Hip as ->. done. }
  rewrite Hip. cbn [bind].
  eexists. split; [reflexivity|].
  unfold cleanse_with. cbn [orb negb].
  change (cmpMin (set_cmp None ?x)) with (cmpMin x).
  change (cmpMax (set_cmp None ?x)) with (cmpMax x).
  change (mask (set_cmp None ?x)) with (mask x).
  destruct (fallback_html_bounds (col_htmlAlt col)
    (normalize_ip (prepare (Some (Raw (VStr (network_text a b c d len))))))) as (-> & -> & ->).
  destruct (normalize_ip_bounds (prepare (Some (Raw (VStr (network_text a b c d len)))))
    (network_text a b c d len)) as (-> & -> & ->); try done.
  rewrite ip_exec_network by done.
  rewrite network_mask, ip2long_dotted by done.
  unfold bitand, bitnot. cbn [ToNumber]. rewrite !ToInt32_int.
  pose proof (host_bits_range len).
  assert (0 <= a * 2 ^ 24 + b * 2 ^ 16 + c * 2 ^ 8 + d < 2 ^ 32) by (unfold octet in *; lia).
  unfold ushr0. by rewrite masked_low, masked_high.
Qed.

(** X12.  On an [ip] column, a cell written as a dotted quad of octets,
    alone or followed by a slash and a prefix length from 0 to 32, gets
    the first address of the network as [cmpMin], its last address as
    [cmpMax] and the network mask as [mask]; the prefix length 0 counts
    as 32, like a missing one. *)
Theorem normalizeValue_network (row : gmap string slot) (col : column)
    (a b c d : Z) (len : option Z) :
  octet a -> octet b -> octet c -> octet d -> prefix_length len ->
  type_is col "ip" = true ->
  row !! col_key col = Some (Raw (VStr (network_text a b c d len))) ->
  let k := host_bits len in
  let first := (a * 2 ^ 24 + b * 2 ^ 16 + c * 2 ^ 8 + d) / 2 ^ k * 2 ^ k in
  exists cl,
    normalizeValue opts row col = Done (<[col_key col := Obj cl]> row)
    /\ cmpMin cl = Some (VNum (int first))
    /\ cmpMax cl = Some (VNum (int (first + (2 ^ k - 1))))
    /\ mask cl = Some (VNum (int (2 ^ 32 - 2 ^ k))).
Proof.
  intros Ha Hb Hc Hd Hlen Hip Hrow k first.
  destruct (network_cell col a b c d len Ha Hb Hc Hd Hlen Hip) as (cl & Hcl & Hbounds).
  exists cl. split; [|exact Hbounds].
  unfold normalizeValue. by rewrite Hrow, Hcl.
Qed.

Lemma eqb_int x y : eqb (int x) (int y) = (x =? y).
Proof.
  unfold eqb, int, Qeq_bool, inject_Z. cbn [Qnum Qden]. by rewrite !Z.mul_1_r.
Qed.

Lemma same_block x y k :
  0 <= k ->
  (x / 2 ^ k * 2 ^ k =? y / 2 ^ k * 2 ^ k)
  = (x / 2 ^ k * 2 ^ k <=? y) && (y <=? x / 2 ^ k * 2 ^ k + (2 ^ k - 1)).
Proof.
  intros Hk. assert (0 < 2 ^ k) as Hpos by (apply Z.pow_pos_nonneg; lia).
  pose proof (Z.div_mod y (2 ^ k) ltac:(lia)) as Hy.
  pose proof (Z.mod_pos_bound y (2 ^ k) Hpos) as Hr.
  destruct (Z.eqb_spec (x / 2 ^ k * 2 ^ k) (y / 2 ^ k * 2 ^ k)) as [E|N].
  - symmetry. apply andb_true_iff. split; [apply Z.leb_le|apply Z.leb_le]; lia.
  - symmetry. apply andb_false_iff.
    destruct (Z.leb_spec (x / 2 ^ k * 2 ^ k) y) as [Hle|]; [|by left]. right.
    apply Z.leb_gt.
    assert (x / 2 ^ k <> y / 2 ^ k) as Hne by (intros E; apply N; by rewrite E).
    assert (x / 2 ^ k < y / 2 ^ k) by nia. nia.
Qed.

(** X13.  The test [field @= address] of the evaluator, on a row whose cell
    was normalised from an address or a network: it answers whether
    the address of the literal lies in the network of the row, from its
    first address to its last. *)
Theorem subnet_test (row row' : gmap string slot) (col : column)
    (a b c d : Z) (len : option Z) (data : list (gmap string cell)) (rowID : Z)
    (p q r s : Z) :
  octet a -> octet b -> octet c -> octet d -> prefix_length len ->
  type_is col "ip" = true ->
  row !! col_key col = Some (Raw (VStr (network_text a b c d len))) ->
  normalizeValue opts row col = Done row' ->
  0 <= rowID -> data !! Z.to_nat rowID = Some (cells_of row') ->
  octet p -> octet q -> octet r -> octet s ->
  let k := host_bits len in
  let first := (a * 2 ^ 24 + b * 2 ^ 16 + c * 2 ^ 8 + d) / 2 ^ k * 2 ^ k in
  let address := p * 2 ^ 24 + q * 2 ^ 16 + r * 2 ^ 8 + s in
  eval_operator data rowID "@=" (VStr (col_key col)) (VNum (ip2long (dotted p q r s)))
  = Done (VBool ((first <=? address) && (address <=? first + (2 ^ k - 1)))).
Proof.
  intros Ha Hb Hc Hd Hlen Hip Hrow Hnorm HrowID Hdata Hp Hq Hr Hs k first address.
  destruct (network_cell col a b c d len Ha Hb Hc Hd Hlen Hip) as (cl & Hcl & Hmin & _ & Hmask).
  unfold normalizeValue in Hnorm. rewrite Hrow, Hcl in Hnorm. cbn [bind] in Hnorm.
  injection Hnorm as <-.
  assert (cell_at data rowID (VStr (col_key col)) = Done cl) as Hcell.
  { unfold cell_at. destruct (Z.ltb_spec rowID 0); [lia|]. rewrite Hdata. cbn [ToString].
    unfold cells_of. by rewrite lookup_omap, lookup_insert_eq. }
  unfold eval_operator. cbn [String.eqb Ascii.eqb Bool.eqb orb]. rewrite Hcell. cbn [bind].
  rewrite Hmin, Hmask, ip2long_dotted by done. cbn [read].
  unfold bitand. cbn [ToNumber]. rewrite !ToInt32_int. unfold ushr0.
  pose proof (host_bits_range len).
  assert (0 <= address < 2 ^ 32) by (unfold address, octet in *; lia).
  rewrite masked_low by (done || lia). cbn [strict_eq]. rewrite eqb_int.
  fold address. fold k. do 2 f_equal. apply same_block. lia.
Qed.

End Network.

Lemma normalizeValue_network_witness :
  exists cl,
    normalizeValue (H := Sample.plain_host) Sample.no_options
      {[ "src" := Raw (VStr "10.1.2.77/24") ]} (Sample.col "src" (Some "ip"))
    = Done (<["src" := Obj cl]> {[ "src" := Raw (VStr "10.1.2.77/24") ]})
    /\ cmpMin cl = Some (VNum (int 167838208))
    /\ cmpMax cl = Some (VNum (int 167838463))
    /\ mask cl = Some (VNum (int 4294967040)).
Proof.
  apply (normalizeValue_network (H := Sample.plain_host) Sample.no_options
           {[ "src" := Raw (VStr "10.1.2.77/24") ]} (Sample.col "src" (Some "ip"))
           10 1 2 77 (Some 24)).
  1-4: unfold octet; lia.
  - cbn. lia.
  - reflexivity.
  - reflexivity.
Defined.

Lemma subnet_test_witness :
  exists row',
  normalizeValue (H := Sample.plain_host) Sample.no_options
    {[ "src" := Raw (VStr "10.1.2.77/24") ]} (Sample.col "src" (Some "ip")) = Done row'
  /\ eval_operator (H := Sample.plain_host) [cells_of row'] 0 "@=" (VStr "src")
       (VNum (ip2long "10.1.2.200"))
     = Done (VBool true)
  /\ eval_operator (H := Sample.plain_host) [cells_of row'] 0 "@=" (VStr "src")
       (VNum (ip2long "10.1.3.1"))
     = Done (VBool false).
Proof.
  destruct (normalizeValue (H := Sample.plain_host) Sample.no_options
              {[ "src" := Raw (VStr "10.1.2.77/24") ]} (Sample.col "src" (Some "ip")))
    as [row'|] eqn:Hn; [|by vm_compute in Hn].
  exists row'. split; [done|]. split.
  - apply (subnet_test (H := Sample.plain_host) Sample.no_options
             {[ "src" := Raw (VStr "10.1.2.77/24") ]} row' (Sample.col "src" (Some "ip"))
             10 1 2 77 (Some 24) [cells_of row'] 0 10 1 2 200);
      try (unfold octet; lia); try reflexivity; try done; try (cbn; lia).
  - apply (subnet_test (H := Sample.plain_host) Sample.no_options
             {[ "src" := Raw (VStr "10.1.2.77/24") ]} row' (Sample.col "src" (Some "ip"))
             10 1 2 77 (Some 24) [cells_of row'] 0 10 1 3 1);
      try (unfold octet; lia); try reflexivity; try done; try (cbn; lia).
Defined.

End NetworkFacts.

(** ** The order of version hashes *)

Module VersionOrderFacts.
Import JsString JsStringFacts Js Common Version VersionFacts SortKeyFacts TextFacts.

(** *** The scan of dotted groups *)

(** A character that is neither a dot nor a dash *)
Definition plain_char (c : ascii) : bool :=
  negb (Ascii.eqb c ".") && negb (Ascii.eqb c "-").

Fixpoint plain_group (g : string) : bool :=
  match g with
  | EmptyString => true
  | String c g' => plain_char c && plain_group g'
  end.

(** The groups with dots between them *)
Fixpoint join_dots (gs : list string) : string :=
  match gs with
  | [] => ""
  | g :: rest =>
      match rest with
      | [] => g
      | _ :: _ => g +:+ "." +:+ join_dots rest
      end
  end.

(** The six-character blocks of the groups, one after the other *)
Fixpoint dumps (gs : list string) : string :=
  match gs with
  | [] => ""
  | g :: rest => dump g +:+ dumps rest
  end.

Lemma length_dumps gs : String.length (dumps gs) = (6 * length gs)%nat.
Proof.
  induction gs as [|g gs IH]; [done|]. cbn [dumps length].
  rewrite length_append, length_dump, IH. lia.
Qed.

Lemma dumps_app gs hs : dumps (gs ++ hs) = dumps gs +:+ dumps hs.
Proof.
  induction gs as [|g gs IH]; [done|]. cbn [dumps app]. by rewrite IH, append_assoc.
Qed.

Lemma scan_group g : forall h grp rest,
  (String.length h < 36)%nat -> plain_group g = true ->
  scan_chars (Scan h grp) (g +:+ rest) = scan_chars (Scan h (grp +:+ g)) rest.
Proof.
  induction g as [|c g IH]; intros h grp rest Hh Hg.
  - by rewrite append_nil_r.
  - cbn [plain_group] in Hg. apply andb_true_iff in Hg as [Hc Hg].
    unfold plain_char in Hc. apply andb_true_iff in Hc as [Hdot Hdash].
    change (String c g +:+ rest) with (String c (g +:+ rest)). cbn [scan_chars].
    assert (step (Scan h grp) c = Scan h (grp +:+ String c "")) as ->.
    { unfold step. cbn [hash group]. change hl with 36%nat.
      destruct (Nat.ltb_spec (String.length h) 36); [|lia].
      destruct (Ascii.eqb c "."); [done|]. by destruct (Ascii.eqb c "-"). }
    rewrite IH by done. by rewrite append_assoc.
Qed.

Lemma join_dots_cons g gs g' :
  join_dots (g :: gs ++ [g']) = g +:+ "." +:+ join_dots (gs ++ [g']).
Proof. cbn [join_dots]. by destruct gs. Qed.

Lemma scan_join gs : forall h g rest,
  Forall (fun g => plain_group g = true) (gs ++ [g]) ->
  (String.length h + 6 * length gs < 36)%nat ->
  scan_chars (Scan h "") (join_dots (gs ++ [g]) +:+ rest)
  = scan_chars (Scan (h +:+ dumps gs) g) rest.
Proof.
  induction gs as [|g' gs IH]; intros h g rest Hok Hlen.
  - cbn [app join_dots dumps]. rewrite append_nil_r.
    apply Forall_inv in Hok. rewrite scan_group by (done || lia). done.
  - change ((g' :: gs) ++ [g]) with (g' :: gs ++ [g]) in *.
    apply Forall_cons in Hok as [Hg' Hok]. cbn [length] in Hlen.
    rewrite join_dots_cons, !append_assoc, scan_group by (done || lia).
    change ("." +:+ ?x) with (String "."%char x). cbn [scan_chars].
    assert (step (Scan h ("" +:+ g')) "." = Scan (h +:+ dump g') "") as ->.
    { unfold step. cbn [hash group]. change hl with 36%nat.
      destruct (Nat.ltb_spec (String.length h) 36); [done|lia]. }
    rewrite IH by (done || rewrite length_append, length_dump; lia).
    cbn [dumps]. by rewrite append_assoc.
Qed.

(** The closing of a hash that holds whole groups *)
Definition closing (gs : list string) (g : string) : string :=
  if (length gs <? 5)%nat
  then padEnd hl padChrLo (dumps (gs ++ [g])) +:+ repeat padChrHi padAlph
       +:+ repeat padChrLo padNum
  else dumps (gs ++ [g]) +:+ dump g.

Lemma finish_groups gs g :
  (length gs <= 5)%nat -> finish (Scan (dumps gs) g) = closing gs g.
Proof.
  intros Hlen. unfold finish, closing. cbn [hash group].
  rewrite !dumps_app. cbn [dumps]. rewrite !append_nil_r.
  change hl with 36%nat. change hlFull with 44%nat.
  change padAlph with 2%nat. change padNum with 6%nat.
  destruct (Nat.ltb_spec (String.length (dumps gs)) 36) as [_|Hge];
    [|rewrite length_dumps in Hge; lia].
  destruct (Nat.ltb_spec (String.length (dumps gs +:+ dump g)) 36) as [Hlt|Hge];
    [rewrite length_append, length_dumps, length_dump in Hlt
    |rewrite length_append, length_dumps, length_dump in Hge].
  - destruct (Nat.ltb_spec (length gs) 5); [|lia].
    match goal with |- context [(String.length ?x <? 44)%nat] =>
      assert (String.length x = 44%nat) as ->
    end; [|done].
    rewrite !length_append, length_padEnd, length_append, length_dumps, length_dump,
      !length_repeat. lia.
  - destruct (Nat.ltb_spec (length gs) 5); [lia|].
    rewrite length_append, length_dumps, length_dump.
    destruct (Nat.ltb_spec (6 * length gs + 6) 44); [done|lia].
Qed.

Lemma version2hash_text `{Host} s : version2hash (VStr s) = hash_of_string s.
Proof. by destruct s. Qed.

Lemma hash_groups `{Host} (gs : list string) (g : string) :
  (length gs <= 5)%nat ->
  Forall (fun g => plain_group g = true) (gs ++ [g]) ->
  version2hash (VStr (join_dots (gs ++ [g]))) = closing gs g.
Proof.
  intros Hlen Hok. rewrite version2hash_text. unfold hash_of_string.
  rewrite <- (append_nil_r (join_dots (gs ++ [g]))), (scan_join gs "" g "") by (done || cbn; lia).
  cbn [scan_chars]. change ("" +:+ dumps gs) with (dumps gs). by apply finish_groups.
Qed.

(** X14.  For a version of one to six dot-separated groups with no dash,
    [version2hash] writes each group cut to six characters and padded
    with spaces on the left; up to five groups are followed by spaces up
    to 36 characters, two tildes and six spaces (44 characters), while
    with six groups the sixth block is written once more instead (42
    characters). *)
Theorem version2hash_groups `{Host} (gs : list string) (g : string) :
  (length gs <= 5)%nat ->
  Forall (fun g => plain_group g = true) (gs ++ [g]) ->
  version2hash (VStr (join_dots (gs ++ [g])))
  = if (length gs <? 5)%nat
    then padEnd hl padChrLo (dumps (gs ++ [g])) +:+ repeat padChrHi padAlph
         +:+ repeat padChrLo padNum
    else dumps (gs ++ [g]) +:+ dump g.
Proof.
  intros Hlen Hok. rewrite version2hash_text. unfold hash_of_string.
  rewrite <- (append_nil_r (join_dots (gs ++ [g]))), (scan_join gs "" g "") by (done || cbn; lia).
  cbn [scan_chars]. change ("" +:+ dumps gs) with (dumps gs).
  rewrite finish_groups by done. reflexivity.
Qed.

Lemma version2hash_groups_witness :
  version2hash (H := Sample.plain_host) (VStr "1.13.7")
  = "     1    13     7                  ~~      ".
Proof.
  apply (version2hash_groups (H := Sample.plain_host) ["1"; "13"] "7").
  - cbn. lia.
  - by repeat constructor.
Defined.

(** *** The order of blocks *)

(** Every character stands above the space. *)
Fixpoint above_space (g : string) : bool :=
  match g with
  | EmptyString => true
  | String c g' => (code " " <? code c)%N && above_space g'
  end.

(** A group that a block holds whole *)
Definition fits (g : string) : Prop :=
  (String.length g <= 6)%nat /\ above_space g = true.

(** The shorter group first, groups of one length as text *)
Definition group_ltb (g h : string) : bool :=
  (String.length g <? String.length h)%nat
  || ((String.length g =? String.length h)%nat && ltb g h).

Lemma ltb_padded n : forall m g h,
  (n + String.length g = m + String.length h)%nat ->
  above_space g = true -> above_space h = true ->
  ltb (repeat " " n +:+ g) (repeat " " m +:+ h) = group_ltb g h.
Proof.
  unfold group_ltb. induction n as [|n IH]; intros [|m] g h Hlen Hg Hh; cbn [repeat].
  - change ("" +:+ ?x) with x. cbn [Nat.add] in Hlen. rewrite Hlen, Nat.ltb_irrefl, Nat.eqb_refl.
    done.
  - change ("" +:+ ?x) with x. change (String ?c ?a +:+ ?x) with (String c (a +:+ x)).
    destruct g as [|c g]; [cbn in Hlen; lia|].
    cbn [above_space] in Hg. apply andb_true_iff in Hg as [Hc%N.ltb_lt _].
    cbn [ltb]. destruct (N.ltb_spec (code c) (code " ")); [lia|].
    destruct (N.ltb_spec (code " ") (code c)); [|lia].
    cbn [String.length] in *.
    destruct (Nat.ltb_spec (S (String.length g)) (String.length h)); [lia|].
    destruct (Nat.eqb_spec (S (String.length g)) (String.length h)); [lia|done].
  - change ("" +:+ ?x) with x. change (String ?c ?a +:+ ?x) with (String c (a +:+ x)).
    destruct h as [|c h]; [cbn in Hlen; lia|].
    cbn [above_space] in Hh. apply andb_true_iff in Hh as [Hc%N.ltb_lt _].
    cbn [ltb]. destruct (N.ltb_spec (code " ") (code c)); [|lia].
    cbn [String.length] in *.
    destruct (Nat.ltb_spec (String.length g) (S (String.length h))); [done|lia].
  - change (String ?c ?a +:+ ?x) with (String c (a +:+ x)).
    cbn [ltb]. rewrite N.ltb_irrefl. apply IH; [lia|done..].
Qed.

Lemma ltb_dump g h : fits g -> fits h -> ltb (dump g) (dump h) = group_ltb g h.
Proof.
  intros [Hg Hg'] [Hh Hh']. unfold dump, padStart. change padNum with 6%nat.
  rewrite !prefix_all by done. apply ltb_padded; [lia|done..].
Qed.

Lemma group_ltb_irrefl g : group_ltb g g = false.
Proof. unfold group_ltb. by rewrite Nat.ltb_irrefl, ltb_irrefl, andb_false_r. Qed.

Lemma group_ltb_total g h : group_ltb g h = false -> group_ltb h g = false -> g = h.
Proof.
  unfold group_ltb. intros [H1 H2]%orb_false_iff [H3 H4]%orb_false_iff.
  apply Nat.ltb_ge in H1, H3.
  assert (String.length g = String.length h) as Hlen by lia.
  rewrite Hlen, Nat.eqb_refl in *. by apply ltb_total.
Qed.

Lemma group_ltb_asym g h : group_ltb g h = true -> group_ltb h g = false.
Proof.
  unfold group_ltb. intros [H1%Nat.ltb_lt|[H1%Nat.eqb_eq H2]%andb_true_iff]%orb_true_iff.
  - destruct (Nat.ltb_spec (String.length h) (String.length g)); [lia|].
    destruct (Nat.eqb_spec (String.length h) (String.length g)); [lia|done].
  - rewrite H1, Nat.ltb_irrefl, Nat.eqb_refl. by apply ltb_asym.
Qed.

(** Group by group, the first difference deciding; a version that
    another one continues comes first. *)
Fixpoint version_ltb (gs hs : list string) : bool :=
  match gs, hs with
  | [], [] => false
  | [], _ :: _ => true
  | _ :: _, [] => false
  | g :: gs', h :: hs' =>
      if group_ltb g h then true
      else if group_ltb h g then false
      else version_ltb gs' hs'
  end.

Lemma version_ltb_irrefl gs : version_ltb gs gs = false.
Proof. induction gs as [|g gs IH]; [done|]. cbn. by rewrite group_ltb_irrefl. Qed.

Lemma ltb_dumps gs : forall hs x y,
  length gs = length hs -> Forall fits gs -> Forall fits hs ->
  ltb (dumps gs +:+ x) (dumps hs +:+ y)
  = if bool_decide (gs = hs) then ltb x y else version_ltb gs hs.
Proof.
  induction gs as [|g gs IH]; intros [|h hs] x y Hlen Hgs Hhs; try done.
  apply Forall_cons in Hgs as [Hg Hgs]. apply Forall_cons in Hhs as [Hh Hhs].
  cbn [dumps version_ltb]. rewrite !append_assoc, ltb_app by (by rewrite !length_dump).
  rewrite ltb_dump by done.
  destruct (group_ltb g h) eqn:Hgh.
  { assert (g <> h) by (intros ->; by rewrite group_ltb_irrefl in Hgh).
    rewrite bool_decide_eq_false_2 by congruence.
    destruct (String.eqb_spec (dump g) (dump h)) as [E|]; [|done].
    rewrite <- ltb_dump, E, ltb_irrefl in Hgh by done. done. }
  destruct (group_ltb h g) eqn:Hhg.
  { assert (g <> h) by (intros ->; by rewrite group_ltb_irrefl in Hhg).
    rewrite bool_decide_eq_false_2 by congruence.
    destruct (String.eqb_spec (dump g) (dump h)) as [E|]; [|done].
    rewrite <- ltb_dump, E, ltb_irrefl in Hhg by done. done. }
  assert (g = h) as -> by (by apply group_ltb_total).
  rewrite String.eqb_refl, IH by (done || cbn in Hlen; lia).
  destruct (decide (gs = hs)) as [->|Hne].
  - by rewrite !bool_decide_eq_true_2.
  - rewrite !bool_decide_eq_false_2 by congruence. done.
Qed.

(** *** Versions of different lengths *)

Definition pad6 (gs : list string) : list string := gs ++ replicate (6 - length gs) "".

Lemma dumps_blank n : dumps (replicate n "") = repeat " " (6 * n).
Proof.
  induction n as [|n IH]; [done|]. cbn [replicate dumps]. rewrite IH.
  replace (6 * S n)%nat with (6 + 6 * n)%nat by lia. by rewrite repeat_add.
Qed.

Lemma padEnd_dumps gs :
  (length gs <= 6)%nat -> padEnd hl padChrLo (dumps gs) = dumps (pad6 gs).
Proof.
  intros Hlen. unfold padEnd, pad6. rewrite dumps_app, dumps_blank, length_dumps.
  change hl with 36%nat. do 2 f_equal. lia.
Qed.

Definition group_ok (g : string) : Prop :=
  plain_group g = true /\ (1 <= String.length g <= 6)%nat /\ above_space g = true.

Lemma group_ok_fits g : group_ok g -> fits g.
Proof. intros (_ & ? & ?). split; [lia|done]. Qed.

Lemma fits_pad6 gs : Forall group_ok gs -> Forall fits (pad6 gs).
Proof.
  intros Hgs. unfold pad6. apply Forall_app. split.
  - eapply Forall_impl; [exact Hgs|]. apply group_ok_fits.
  - apply Forall_replicate. split; [cbn; lia|done].
Qed.

Lemma group_ltb_blank g : group_ok g -> group_ltb "" g = true /\ group_ltb g "" = false.
Proof.
  intros (_ & Hlen & _). unfold group_ltb. destruct g as [|c g]; [cbn in Hlen; lia|done].
Qed.

Lemma version_ltb_pad gs : forall hs n m,
  Forall group_ok gs -> Forall group_ok hs ->
  (length gs + n = length hs + m)%nat ->
  version_ltb (gs ++ replicate n "") (hs ++ replicate m "") = version_ltb gs hs.
Proof.
  induction gs as [|g gs IH]; intros [|h hs] n m Hgs Hhs Hlen.
  - cbn in Hlen. subst. cbn [app]. apply version_ltb_irrefl.
  - apply Forall_cons in Hhs as [Hh _]. cbn in Hlen. destruct n as [|n]; [lia|].
    cbn [version_ltb app replicate]. by destruct (group_ltb_blank h Hh) as [-> _].
  - apply Forall_cons in Hgs as [Hg _]. cbn in Hlen. destruct m as [|m]; [lia|].
    cbn [version_ltb app replicate]. by destruct (group_ltb_blank g Hg) as [-> ->].
  - apply Forall_cons in Hgs as [Hg Hgs]. apply Forall_cons in Hhs as [Hh Hhs].
    cbn [version_ltb app]. rewrite IH by (done || cbn in Hlen; lia). done.
Qed.

Lemma pad_inj gs : forall hs n m,
  Forall group_ok gs -> Forall group_ok hs ->
  gs ++ replicate n "" = hs ++ replicate m "" -> gs = hs.
Proof.
  induction gs as [|g gs IH]; intros [|h hs] n m Hgs Hhs Heq; [done|..].
  - apply Forall_cons in Hhs as [(_ & Hh & _) _]. destruct n; cbn in Heq; [done|].
    injection Heq as <- _. cbn in Hh. lia.
  - apply Forall_cons in Hgs as [(_ & Hg & _) _]. destruct m; cbn in Heq; [done|].
    injection Heq as -> _. cbn in Hg. lia.
  - apply Forall_cons in Hgs as [_ Hgs]. apply Forall_cons in Hhs as [_ Hhs].
    cbn in Heq. injection Heq as -> Heq. f_equal. by eapply IH.
Qed.

(** What follows the 36 characters of the groups *)
Definition tail_of (gs : list string) : string :=
  if (length gs <? 6)%nat then repeat padChrHi padAlph +:+ repeat padChrLo padNum
  else dump (List.last gs "").

Lemma hash_of_groups `{Host} gs :
  (1 <= length gs <= 6)%nat -> Forall group_ok gs ->
  version2hash (VStr (join_dots gs)) = dumps (pad6 gs) +:+ tail_of gs.
Proof.
  intros Hlen Hgs. destruct (exists_last (l := gs)) as (init & g & ->).
  { intros ->. cbn in Hlen. lia. }
  rewrite length_app in Hlen. cbn [length] in Hlen.
  rewrite hash_groups.
  2: lia.
  2: { eapply Forall_impl; [exact Hgs|]. by intros ? (? & _). }
  unfold closing, tail_of. rewrite List.last_last, length_app. cbn [length].
  destruct (Nat.ltb_spec (length init) 5), (Nat.ltb_spec (length init + 1) 6); try lia.
  - by rewrite padEnd_dumps by (rewrite length_app; cbn; lia).
  - unfold pad6. rewrite length_app. cbn [length].
    replace (6 - (length init + 1))%nat with 0%nat by lia. cbn [replicate].
    by rewrite app_nil_r.
Qed.

(** The hashes of two versions, as written by [hash_of_groups] *)
Lemma ltb_hashes (gs hs : list string) :
  (1 <= length gs <= 6)%nat -> (1 <= length hs <= 6)%nat ->
  Forall group_ok gs -> Forall group_ok hs ->
  ltb (dumps (pad6 gs) +:+ tail_of gs) (dumps (pad6 hs) +:+ tail_of hs)
  = version_ltb gs hs.
Proof.
  intros Hlg Hlh Hgs Hhs.
  rewrite ltb_dumps; [| unfold pad6; rewrite !length_app, !length_replicate; lia
                      | by apply fits_pad6..].
  destruct (decide (pad6 gs = pad6 hs)) as [Heq|Hne].
  - rewrite bool_decide_eq_true_2 by done.
    apply pad_inj in Heq as ->; [|done..]. by rewrite ltb_irrefl, version_ltb_irrefl.
  - rewrite bool_decide_eq_false_2 by done. apply version_ltb_pad; [done..|lia].
Qed.

(** X15.  Two versions of one to six dot-separated groups, each group of
    one to six characters above the space and without a dash, are
    hashed in the order of their groups: the first group that differs
    decides, the shorter group standing first and groups of one length
    in the order of their text, and a version stands before every
    version that continues it. *)
Theorem version2hash_compare `{Host} (gs hs : list string) :
  (1 <= length gs <= 6)%nat -> (1 <= length hs <= 6)%nat ->
  Forall group_ok gs -> Forall group_ok hs ->
  ltb (version2hash (VStr (join_dots gs))) (version2hash (VStr (join_dots hs)))
  = version_ltb gs hs.
Proof.
  intros Hlg Hlh Hgs Hhs. rewrite !hash_of_groups by done. by apply ltb_hashes.
Qed.

Lemma version2hash_compare_witness :
  ltb (version2hash (H := Sample.plain_host) (VStr "1.9"))
      (version2hash (H := Sample.plain_host) (VStr "1.10.rc"))
  = true.
Proof.
  apply (version2hash_compare (H := Sample.plain_host) ["1"; "9"] ["1"; "10"; "rc"]).
  1, 2: cbn; lia.
  all: repeat first [apply List.Forall_cons | apply List.Forall_nil].
  all: repeat split; first [reflexivity | cbn; lia].
Defined.

End VersionOrderFacts.

(** ** Versions of numbers *)

Module VersionNumberFacts.
Import JsString JsStringFacts Js Common Version VersionFacts SortKeyFacts TextFacts
  VersionOrderFacts.

(** *** Decimal numerals as lists of digits *)

Local Open Scope N_scope.

Fixpoint digits (u : Decimal.uint) : list N :=
  match u with
  | Decimal.Nil => []
  | Decimal.D0 l => 0 :: digits l
  | Decimal.D1 l => 1 :: digits l
  | Decimal.D2 l => 2 :: digits l
  | Decimal.D3 l => 3 :: digits l
  | Decimal.D4 l => 4 :: digits l
  | Decimal.D5 l => 5 :: digits l
  | Decimal.D6 l => 6 :: digits l
  | Decimal.D7 l => 7 :: digits l
  | Decimal.D8 l => 8 :: digits l
  | Decimal.D9 l => 9 :: digits l
  end.

Definition digit_char (d : N) : ascii := ascii_of_N (48 + d).

Fixpoint text (ds : list N) : string :=
  match ds with
  | [] => EmptyString
  | d :: ds' => String (digit_char d) (text ds')
  end.

(** The number that the digits write after [acc] *)
Fixpoint value (ds : list N) (acc : N) : N :=
  match ds with
  | [] => acc
  | d :: ds' => value ds' (10 * acc + d)
  end.

Fixpoint lexb (ds es : list N) : bool :=
  match ds, es with
  | d :: ds', e :: es' =>
      if d <? e then true else if e <? d then false else lexb ds' es'
  | _, _ => false
  end.

Definition digit (d : N) : Prop := d < 10.

(** No leading zero, but for the numeral 0 *)
Definition canonical (ds : list N) : Prop :=
  match ds with
  | [] => False
  | [_] => True
  | d :: _ => d <> 0
  end.

Lemma text_digits u : NilEmpty.string_of_uint u = text (digits u).
Proof. induction u as [|u IH|u IH|u IH|u IH|u IH|u IH|u IH|u IH|u IH|u IH]; cbn; by f_equal. Qed.

Lemma digits_digit u : Forall digit (digits u).
Proof.
  induction u as [|u IH|u IH|u IH|u IH|u IH|u IH|u IH|u IH|u IH|u IH]; cbn [digits];
    constructor; try done; unfold digit; lia.
Qed.

Lemma value_acc_digits l : forall acc, Npos (Pos.of_uint_acc l acc) = value (digits l) (Npos acc).
Proof.
  induction l as [|u IH|u IH|u IH|u IH|u IH|u IH|u IH|u IH|u IH|u IH]; intros acc;
    cbn [Pos.of_uint_acc digits value]; [done|rewrite IH; f_equal; lia..].
Qed.

Lemma value_digits u : Pos.of_uint u = value (digits u) 0.
Proof.
  induction u as [|u IH|u IH|u IH|u IH|u IH|u IH|u IH|u IH|u IH|u IH];
    cbn [Pos.of_uint digits value]; [done|done|by rewrite value_acc_digits..].
Qed.

Lemma value_acc ds : forall acc, value ds acc = acc * 10 ^ N.of_nat (length ds) + value ds 0.
Proof.
  induction ds as [|d ds IH]; intros acc; cbn [value length].
  - rewrite N.pow_0_r. lia.
  - rewrite IH, (IH (10 * 0 + d)), Nat2N.inj_succ, N.pow_succ_r'. lia.
Qed.

Lemma value_bound ds : Forall digit ds -> value ds 0 < 10 ^ N.of_nat (length ds).
Proof.
  induction 1 as [|d ds Hd _ IH]; cbn [value length].
  - rewrite N.pow_0_r. lia.
  - rewrite value_acc, Nat2N.inj_succ, N.pow_succ_r'. unfold digit in Hd. nia.
Qed.

Lemma value_low ds :
  canonical ds -> (2 <= length ds)%nat -> 10 ^ N.of_nat (length ds - 1) <= value ds 0.
Proof.
  destruct ds as [|d [|e ds]]; cbn [length canonical]; [lia..|]. intros Hd _.
  cbn [value]. rewrite value_acc. cbn [length].
  replace (S (S (length ds)) - 1)%nat with (S (length ds)) by lia.
  rewrite Nat2N.inj_succ, N.pow_succ_r'.
  assert (0 < 10 ^ N.of_nat (length ds)) by (apply N.neq_0_lt_0, N.pow_nonzero; lia).
  nia.
Qed.

Lemma lexb_value ds : forall es acc,
  length ds = length es -> Forall digit ds -> Forall digit es ->
  (value ds acc <? value es acc) = lexb ds es.
Proof.
  induction ds as [|d ds IH]; intros [|e es] acc Hlen Hds Hes; try done.
  - cbn. apply N.ltb_irrefl.
  - apply Forall_cons in Hds as [Hd Hds]. apply Forall_cons in Hes as [He Hes].
    cbn [length] in Hlen. cbn [value lexb].
    pose proof (value_bound ds Hds) as Bd. pose proof (value_bound es Hes) as Be.
    replace (length es) with (length ds) in Be by lia.
    destruct (N.ltb_spec d e) as [Hde|Hde].
    { rewrite (value_acc ds), (value_acc es). replace (length es) with (length ds) by lia.
      apply N.ltb_lt. nia. }
    destruct (N.ltb_spec e d) as [Hed|Hed].
    { rewrite (value_acc ds), (value_acc es). replace (length es) with (length ds) by lia.
      apply N.ltb_ge. nia. }
    assert (d = e) as -> by lia. apply IH; [lia|done..].
Qed.

(** Canonical numerals are ordered as their numbers: the shorter first,
    those of one length digit by digit. *)
Lemma numeral_order ds es :
  canonical ds -> canonical es -> Forall digit ds -> Forall digit es ->
  ((length ds <? length es)%nat || ((length ds =? length es)%nat && lexb ds es))
  = (value ds 0 <? value es 0).
Proof.
  intros Cd Ce Hds Hes.
  assert (forall a b, canonical a -> canonical b -> Forall digit a ->
            (length a < length b)%nat -> value a 0 < value b 0) as Hshort.
  { intros a b Ca Cb Ha Hab. pose proof (value_bound a Ha).
    assert (1 <= length a)%nat by (destruct a; [done|cbn; lia]).
    pose proof (value_low b Cb ltac:(lia)).
    assert (10 ^ N.of_nat (length a) <= 10 ^ N.of_nat (length b - 1)).
    { apply N.pow_le_mono_r; lia. }
    lia. }
  destruct (Nat.ltb_spec (length ds) (length es)) as [Hlt|Hge]; cbn [orb].
  { symmetry. apply N.ltb_lt. by apply Hshort. }
  destruct (Nat.eqb_spec (length ds) (length es)) as [Heq|Hne]; cbn [andb].
  { symmetry. by apply lexb_value. }
  symmetry. apply N.ltb_ge. apply N.lt_le_incl. apply Hshort; [done..|lia].
Qed.

(** *** The text of a numeral *)

Lemma length_text ds : String.length (text ds) = length ds.
Proof. induction ds as [|d ds IH]; [done|]. cbn [text String.length length]. by rewrite IH. Qed.

Lemma code_digit_char d : digit d -> code (digit_char d) = 48 + d.
Proof.
  unfold digit, code, digit_char. intros Hd. apply N_ascii_embedding. lia.
Qed.

Lemma ltb_text ds : forall es,
  length ds = length es -> Forall digit ds -> Forall digit es ->
  ltb (text ds) (text es) = lexb ds es.
Proof.
  induction ds as [|d ds IH]; intros [|e es] Hlen Hds Hes; try done.
  apply Forall_cons in Hds as [Hd Hds]. apply Forall_cons in Hes as [He Hes].
  cbn [text ltb lexb]. rewrite !code_digit_char by done.
  destruct (N.ltb_spec d e), (N.ltb_spec (48 + d) (48 + e)); try lia; try done.
  destruct (N.ltb_spec e d), (N.ltb_spec (48 + e) (48 + d)); try lia; try done.
  apply IH; [cbn in Hlen; lia|done..].
Qed.

Lemma group_ltb_text ds es :
  Forall digit ds -> Forall digit es ->
  group_ltb (text ds) (text es)
  = ((length ds <? length es)%nat || ((length ds =? length es)%nat && lexb ds es)).
Proof.
  intros Hds Hes. unfold group_ltb. rewrite !length_text.
  destruct (Nat.ltb_spec (length ds) (length es)); [done|]. cbn [orb].
  destruct (Nat.eqb_spec (length ds) (length es)); [|done]. cbn [andb].
  by apply ltb_text.
Qed.

Lemma text_plain ds :
  Forall digit ds -> plain_group (text ds) = true /\ above_space (text ds) = true.
Proof.
  induction 1 as [|d ds Hd _ [IH1 IH2]]; [done|]. cbn [text plain_group above_space].
  rewrite IH1, IH2, !andb_true_r. pose proof (code_digit_char d Hd) as Hc.
  unfold digit in Hd. split.
  - unfold plain_char.
    destruct (Ascii.eqb_spec (digit_char d) ".") as [E|_];
      [rewrite E in Hc; change (code ".") with 46 in Hc; lia|].
    destruct (Ascii.eqb_spec (digit_char d) "-") as [E|_];
      [rewrite E in Hc; change (code "-") with 45 in Hc; lia|].
    done.
  - apply N.ltb_lt. rewrite Hc. change (code " ") with 32. lia.
Qed.

(** The digits that [decimal] writes for a number that is not negative *)
Definition numeral (x : Z) : list N :=
  match x with
  | Zpos p => digits (Pos.to_uint p)
  | _ => [0]
  end.

Lemma decimal_numeral x :
  (0 <= x)%Z ->
  decimal x = text (numeral x) /\ canonical (numeral x) /\ Forall digit (numeral x)
  /\ value (numeral x) 0 = Z.to_N x.
Proof.
  intros Hx. destruct x as [|p|p]; [|clear Hx|lia].
  - repeat split; try done. by repeat constructor.
  - unfold numeral, decimal. cbn [Z.to_int NilZero.string_of_int].
    pose proof (DecimalPos.Unsigned.to_uint_nonnil p) as Hnil.
    pose proof (DecimalPos.Unsigned.to_uint_nonzero p) as Hzero.
    pose proof (DecimalPos.Unsigned.of_to p) as Hof.
    pose proof (DecimalPos.Unsigned.to_of (Pos.to_uint p)) as Hto.
    rewrite Hof in Hto. cbn [N.to_uint] in Hto.
    split; [|split; [|split]].
    + unfold NilZero.string_of_uint. rewrite <- text_digits.
      by destruct (Pos.to_uint p).
    + destruct (Pos.to_uint p) as [|u|u|u|u|u|u|u|u|u|u] eqn:E; try done;
        try (cbn [digits canonical]; by destruct (digits u)).
      exfalso. unfold Decimal.unorm in Hto.
      destruct (Decimal.nzhead (Decimal.D0 u)) eqn:Hnz;
        first [ by apply Hzero
              | by eapply (DecimalFacts.nzhead_nonzero (Decimal.D0 u));
                rewrite Hnz; symmetry; exact Hto
              | discriminate Hto ].
    + apply digits_digit.
    + by rewrite <- value_digits, Hof.
Qed.

Lemma decimal_order x y :
  (0 <= x)%Z -> (0 <= y)%Z -> group_ltb (decimal x) (decimal y) = (x <? y)%Z.
Proof.
  intros Hx Hy.
  destruct (decimal_numeral x Hx) as (-> & Cx & Dx & Vx).
  destruct (decimal_numeral y Hy) as (-> & Cy & Dy & Vy).
  rewrite group_ltb_text, numeral_order, Vx, Vy by done.
  destruct (N.ltb_spec (Z.to_N x) (Z.to_N y)), (Z.ltb_spec x y); try done; lia.
Qed.

Lemma decimal_group_ok x : (0 <= x < 10 ^ 6)%Z -> group_ok (decimal x).
Proof.
  intros [Hx Hlt]. destruct (decimal_numeral x Hx) as (-> & Cx & Dx & Vx).
  destruct (text_plain (numeral x) Dx) as [Hp Ha].
  split; [done|]. split; [|done]. rewrite length_text. split.
  - destruct (numeral x); [done|cbn; lia].
  - destruct (Nat.le_gt_cases (length (numeral x)) 6) as [|Hlong]; [done|].
    pose proof (value_low (numeral x) Cx ltac:(lia)) as Hlow.
    assert (10 ^ 6 <= 10 ^ N.of_nat (length (numeral x) - 1)).
    { apply N.pow_le_mono_r; lia. }
    lia.
Qed.

Local Close Scope N_scope.

(** *** Versions written with numbers *)

(** Number by number, the first difference deciding *)
Fixpoint numbers_ltb (xs ys : list Z) : bool :=
  match xs, ys with
  | [], [] => false
  | [], _ :: _ => true
  | _ :: _, [] => false
  | x :: xs', y :: ys' =>
      if x <? y then true else if y <? x then false else numbers_ltb xs' ys'
  end.

Definition group_number (x : Z) : Prop := 0 <= x < 10 ^ 6.

Lemma version_ltb_decimal xs : forall ys,
  Forall group_number xs -> Forall group_number ys ->
  version_ltb (decimal <$> xs) (decimal <$> ys) = numbers_ltb xs ys.
Proof.
  induction xs as [|x xs IH]; intros [|y ys] Hxs Hys; try done.
  apply Forall_cons in Hxs as [[Hx _] Hxs]. apply Forall_cons in Hys as [[Hy _] Hys].
  rewrite !fmap_cons. cbn [version_ltb numbers_ltb].
  rewrite !decimal_order by done. by rewrite IH.
Qed.

(** X16.  Versions written as one to six numbers below a million with dots
    between them are hashed in the order of their numbers: the text
    order of the hashes is the order in which the first number that
    differs decides, a version standing before those that continue it. *)
Theorem version2hash_numbers `{Host} (xs ys : list Z) :
  (1 <= length xs <= 6)%nat -> (1 <= length ys <= 6)%nat ->
  Forall group_number xs -> Forall group_number ys ->
  ltb (version2hash (VStr (join_dots (decimal <$> xs))))
      (version2hash (VStr (join_dots (decimal <$> ys))))
  = numbers_ltb xs ys.
Proof.
  intros Hlx Hly Hxs Hys.
  assert (forall zs, Forall group_number zs -> Forall group_ok (decimal <$> zs)) as Hok.
  { intros zs Hzs. apply Forall_fmap. eapply Forall_impl; [exact Hzs|].
    intros ?. apply decimal_group_ok. }
  rewrite !hash_of_groups by (rewrite ?length_fmap; auto).
  rewrite ltb_hashes by (rewrite ?length_fmap; auto). by apply version_ltb_decimal.
Qed.

Lemma version2hash_numbers_witness :
  ltb (version2hash (H := Sample.plain_host) (VStr "1.2.3"))
      (version2hash (H := Sample.plain_host) (VStr "1.13.0"))
  = true.
Proof.
  apply (version2hash_numbers (H := Sample.plain_host) [1; 2; 3] [1; 13; 0]).
  1, 2: cbn; lia.
  all: repeat first [apply List.Forall_cons | apply List.Forall_nil].
  all: unfold group_number; lia.
Defined.

End VersionNumberFacts.

(** ** Versions with a suffix *)

Module VersionSuffixFacts.
Import JsString JsStringFacts Js Common Version VersionFacts SortKeyFacts TextFacts
  VersionOrderFacts.

(** The text begins with a character below the tilde. *)
Definition low_head (r : string) : Prop :=
  match r with
  | String c _ => (code c < code padChrHi)%N
  | EmptyString => False
  end.

(** A suffix that is empty or begins with a character that is no digit
    and stands below the tilde *)
Definition suffix_text (s : string) : Prop :=
  match s with
  | String c _ => is_digit c = false /\ (code c < code padChrHi)%N
  | EmptyString => True
  end.

(** Where the scan stands after the dash and a first character *)
Definition after_dash (B : string) (st : scan) : Prop :=
  (hash st = B /\ low_head (group st))
  \/ exists x, hash st = B +:+ x /\ String.length x = 2%nat /\ low_head x.

Lemma low_head_app r x : low_head r -> low_head (r +:+ x).
Proof. by destruct r. Qed.

Lemma low_head_cut r n c : low_head r -> low_head (padEnd (S n) c (prefix (S n) r)).
Proof. destruct r; [done|]. intros Hr. unfold padEnd. by apply low_head_app. Qed.

Lemma low_head_dump r : low_head r -> low_head (dump r).
Proof.
  intros Hr. unfold dump, padStart. change padNum with 6%nat.
  destruct (6 - String.length (prefix 6 r))%nat eqn:E.
  - destruct r; [done|]. exact Hr.
  - cbn [repeat]. change (String ?c ?a +:+ ?x) with (String c (a +:+ x)).
    cbn [low_head]. change (code padChrLo) with 32%N. change (code padChrHi) with 126%N. lia.
Qed.

Lemma step_after_dash B st c :
  String.length B = 36%nat -> after_dash B st -> after_dash B (step st c).
Proof.
  intros HB [[Hh Hg]|(x & Hh & Hx & Hlow)]; unfold step; rewrite Hh.
  - rewrite HB. change hl with 36%nat. change hlExt with 38%nat. cbn [Nat.ltb Nat.leb].
    destruct (_ || _).
    + left. split; [done|]. by apply low_head_app.
    + right. exists (padEnd padAlph padChrHi (prefix padAlph (group st))).
      split; [done|]. split; [apply length_cut_padEnd|]. by apply low_head_cut.
  - rewrite length_append, HB, Hx. change hl with 36%nat. change hlExt with 38%nat.
    cbn [Nat.add Nat.ltb Nat.leb]. right. exists x. by repeat split.
Qed.

Lemma scan_after_dash B s : forall st,
  String.length B = 36%nat -> after_dash B st -> after_dash B (scan_chars st s).
Proof.
  induction s as [|c s IH]; intros st HB Hst; [done|]. cbn [scan_chars].
  apply IH; [done|]. by apply step_after_dash.
Qed.

Lemma finish_after_dash B st :
  String.length B = 36%nat -> after_dash B st ->
  exists R, finish st = B +:+ R /\ low_head R.
Proof.
  intros HB [[Hh Hg]|(x & Hh & Hx & Hlow)]; unfold finish; rewrite Hh.
  - change hl with 36%nat. change hlFull with 44%nat. cbv zeta.
    rewrite HB. cbn [Nat.ltb Nat.leb]. rewrite HB. cbn [Nat.ltb Nat.leb].
    exists (dump (group st)). split; [done|]. by apply low_head_dump.
  - change hl with 36%nat. change hlFull with 44%nat. cbv zeta.
    rewrite length_append, HB, Hx. cbn [Nat.add Nat.ltb Nat.leb].
    rewrite length_append, HB, Hx. cbn [Nat.add Nat.ltb Nat.leb].
    exists (x +:+ dump (group st)). split; [by rewrite append_assoc|]. by apply low_head_app.
Qed.

Lemma finish_suffix B s :
  String.length B = 36%nat -> suffix_text s ->
  exists R, finish (scan_chars (Scan B "") s) = B +:+ R /\ low_head R.
Proof.
  intros HB Hs. destruct s as [|c s].
  - exists (dump ""). split; [|done]. unfold finish. cbn [scan_chars hash group].
    change hl with 36%nat. change hlFull with 44%nat.
    rewrite HB. cbn [Nat.ltb Nat.leb]. rewrite HB. done.
  - destruct Hs as [Hc Hlow]. cbn [scan_chars].
    apply finish_after_dash, scan_after_dash; try done.
    left. unfold step. cbn [hash group]. change hl with 36%nat. change hlExt with 38%nat.
    rewrite HB. cbn [Nat.ltb Nat.leb].
    assert ((code c <? code "0")%N || (code "9" <? code c)%N = true) as ->.
    { unfold is_digit in Hc. change (code "0") with 48%N. change (code "9") with 57%N.
      destruct (N.leb_spec 48 (code c)), (N.leb_spec (code c) 57); try done.
      - apply orb_true_iff. right. apply N.ltb_lt. lia.
      - apply orb_true_iff. left. apply N.ltb_lt. lia.
      - apply orb_true_iff. left. apply N.ltb_lt. lia. }
    done.
Qed.

Lemma ltb_low_head B R :
  low_head R -> ltb (B +:+ R) (B +:+ repeat padChrHi padAlph +:+ repeat padChrLo padNum) = true.
Proof.
  intros HR. rewrite ltb_app, String.eqb_refl by done.
  destruct R as [|c R]; [done|]. cbn [low_head] in HR. cbn [padAlph repeat].
  change (String ?c ?a +:+ ?x) with (String c (a +:+ x)). cbn [ltb].
  by destruct (N.ltb_spec (code c) (code padChrHi)); [|lia].
Qed.

Lemma hash_suffix `{Host} (gs : list string) (g s : string) :
  (length gs <= 4)%nat ->
  Forall (fun g => plain_group g = true) (gs ++ [g]) ->
  version2hash (VStr (join_dots (gs ++ [g]) +:+ "-" +:+ s))
  = finish (scan_chars (Scan (padEnd hl padChrLo (dumps (gs ++ [g]))) "") s).
Proof.
  intros Hlen Hok. rewrite version2hash_text. unfold hash_of_string.
  rewrite (scan_join gs "" g) by (done || cbn; lia).
  change ("-" +:+ s) with (String "-"%char s). cbn [scan_chars]. do 2 f_equal.
  unfold step. change ("" +:+ dumps gs) with (dumps gs). cbn [hash group].
  rewrite length_append, length_dumps, length_dump. change hl with 36%nat.
  destruct (Nat.ltb_spec (6 * length gs) 36); [|lia].
  change (Ascii.eqb "-" ".") with false. change (Ascii.eqb "-" "-") with true.
  cbv beta iota zeta.
  destruct (Nat.ltb_spec (6 * length gs + 6) 36); [|lia].
  rewrite dumps_app. cbn [dumps]. by rewrite append_nil_r.
Qed.

(** X17.  A version of one to five dot-separated groups followed by a dash
    and a suffix that is empty or begins with a character that is no
    digit and stands below the tilde (a letter, for one) is hashed
    before the same version without the dash, whatever the rest of the
    suffix holds. *)
Theorem version2hash_suffix_first `{Host} (gs : list string) (g s : string) :
  (length gs <= 4)%nat ->
  Forall (fun g => plain_group g = true) (gs ++ [g]) ->
  suffix_text s ->
  ltb (version2hash (VStr (join_dots (gs ++ [g]) +:+ "-" +:+ s)))
      (version2hash (VStr (join_dots (gs ++ [g]))))
  = true.
Proof.
  intros Hlen Hok Hs. rewrite hash_suffix, hash_groups by (done || lia).
  unfold closing. destruct (Nat.ltb_spec (length gs) 5); [|lia].
  destruct (finish_suffix (padEnd hl padChrLo (dumps (gs ++ [g]))) s) as (R & -> & HR);
    [|done|by apply ltb_low_head].
  rewrite length_padEnd, length_dumps, length_app. cbn [length]. change hl with 36%nat. lia.
Qed.

Lemma version2hash_suffix_first_witness :
  ltb (version2hash (H := Sample.plain_host) (VStr "1.13.7-rc1"))
      (version2hash (H := Sample.plain_host) (VStr "1.13.7"))
  = true.
Proof.
  apply (version2hash_suffix_first (H := Sample.plain_host) ["1"; "13"] "7" "rc1").
  - cbn. lia.
  - by repeat constructor.
  - split; [reflexivity|]. by vm_compute.
Defined.

End VersionSuffixFacts.


(** ** Ranges of numbers *)

Module RangeFacts.
Import JsString Js Common FilterSort Main NormaliseFacts FilterFacts ShapeFacts AddressFacts
  TextFacts NetworkFacts VersionNumberFacts.

(** *** Reading a numeral *)

Lemma digit_val_digit_char d :
  digit d -> digit_val 10 (digit_char d) = Some (Z.of_N d).
Proof.
  unfold digit. intros Hd.
  assert (d ∈ [0; 1; 2; 3; 4; 5; 6; 7; 8; 9]%N) as Hin.
  { destruct d as [|p]; [apply list_elem_of_here|].
    do 10 (destruct p as [p|p|]; try lia; try (by repeat constructor)). }
  repeat (apply elem_of_cons in Hin as [->|Hin]); [..|by apply elem_of_nil in Hin];
    reflexivity.
Qed.

Lemma is_digit_digit_char d : digit d -> is_digit (digit_char d) = true.
Proof.
  intros Hd. unfold is_digit. rewrite code_digit_char by done. unfold digit in Hd.
  apply andb_true_iff. split; apply N.leb_le; lia.
Qed.

Lemma digits_only_text ds : Forall digit ds -> digits_only (text ds) = true.
Proof.
  induction 1 as [|d ds Hd _ IH]; [done|]. cbn [text digits_only].
  by rewrite is_digit_digit_char, IH.
Qed.

Lemma digits_text ds : forall acc cnt,
  Forall digit ds -> 0 <= acc ->
  Js.digits 10 acc cnt (text ds)
  = (Z.of_N (value ds (Z.to_N acc)), (cnt + length ds)%nat, "").
Proof.
  induction ds as [|d ds IH]; intros acc cnt Hds Hacc.
  - cbn [text Js.digits value length]. rewrite Z2N.id by done. do 2 f_equal. lia.
  - apply Forall_cons in Hds as [Hd Hds]. cbn [text Js.digits value length].
    rewrite digit_val_digit_char, IH by (done || lia).
    replace (Z.to_N (acc * 10 + Z.of_N d)) with (10 * Z.to_N acc + d)%N by lia.
    do 2 f_equal. lia.
Qed.

(** [parseInt] reads back the number that [decimal] wrote. *)
Lemma parseInt_number x : 0 <= x -> parseInt (decimal x) = int x.
Proof.
  intros Hx. destruct (decimal_numeral x Hx) as (E & Cx & Dx & Vx). rewrite E.
  destruct (numeral x) as [|d ds] eqn:En; [done|].
  change (text (d :: ds)) with (String (digit_char d) (text ds)).
  rewrite parseInt_decimal by (by apply (digits_only_text (d :: ds))).
  change (String (digit_char d) (text ds)) with (text (d :: ds)).
  rewrite digits_text by done. cbn [length Nat.add]. change (Z.to_N 0) with 0%N.
  rewrite Vx. f_equal. lia.
Qed.

(** *** The range expression *)

(** A separator: one character or more, none of them a digit *)
Fixpoint separator_tail (sep : string) : bool :=
  match sep with
  | EmptyString => true
  | String c sep' => negb (is_digit c) && separator_tail sep'
  end.

Definition separator (sep : string) : Prop := sep <> "" /\ separator_tail sep = true.

(** A number, alone or followed by a separator and a second number *)
Definition range_text (a : Z) (sep : string) (b : option Z) : string :=
  match b with
  | Some b => decimal a +:+ sep +:+ decimal b
  | None => decimal a
  end.

Lemma decimal_digits x :
  0 <= x ->
  digits_only (decimal x) = true
  /\ exists c d, decimal x = String c d /\ is_digit c = true.
Proof.
  intros Hx. destruct (decimal_numeral x Hx) as (-> & Cx & Dx & _).
  split; [by apply digits_only_text|].
  destruct (numeral x) as [|d ds]; [done|]. apply Forall_cons in Dx as [Hd _].
  exists (digit_char d), (text ds). split; [done|]. by apply is_digit_digit_char.
Qed.

Lemma span_nondigits_app sep r :
  separator_tail sep = true ->
  match r with String c _ => is_digit c = true | EmptyString => True end ->
  span_nondigits (sep +:+ r) = (sep, r).
Proof.
  intros Hsep Hr. induction sep as [|c sep IH].
  - change ("" +:+ r) with r. destruct r as [|c r]; [done|]. cbn [span_nondigits].
    by rewrite Hr.
  - cbn [separator_tail] in Hsep. apply andb_true_iff in Hsep as [Hc%negb_true_iff Hsep].
    change (String c sep +:+ r) with (String c (sep +:+ r)). cbn [span_nondigits].
    by rewrite Hc, IH.
Qed.

Lemma span_digits_whole d : digits_only d = true -> span_digits d = (d, "").
Proof.
  intros Hd. rewrite <- (append_nil_r d) at 1. by apply span_digits_app.
Qed.

Lemma intrange_exec_texts A B sep :
  digits_only A = true -> A <> "" ->
  match B with Some t => digits_only t = true /\ t <> "" | None => True end ->
  separator sep ->
  intrange_exec (match B with Some t => A +:+ sep +:+ t | None => A end) = Some (A, B).
Proof.
  intros HA HAne HB [Hne Hsep]. unfold intrange_exec.
  destruct A as [|ca da]; [done|]. pose proof HA as HA'. cbn [digits_only] in HA'.
  apply andb_true_iff in HA' as [Hca _].
  assert (forall x, span_nondigits (String ca da +:+ x) = ("", String ca da +:+ x)) as Hfront.
  { intros x. change (String ca da +:+ x) with (String ca (da +:+ x)).
    cbn [span_nondigits]. by rewrite Hca. }
  destruct B as [t|].
  - destruct HB as [Ht Htne]. destruct t as [|cb db]; [done|].
    pose proof Ht as Ht'. cbn [digits_only] in Ht'. apply andb_true_iff in Ht' as [Hcb _].
    rewrite Hfront. rewrite span_digits_app; [|done|].
    2: { destruct sep as [|c sep]; [done|]. cbn [separator_tail] in Hsep.
         change (String c sep +:+ ?x) with (String c (sep +:+ x)). cbn [no_digit_ahead].
         by apply andb_true_iff in Hsep as [?%negb_true_iff _]. }
    rewrite span_nondigits_app by done. rewrite span_digits_whole by done.
    by destruct sep.
  - rewrite <- (append_nil_r (String ca da)) at 1. rewrite Hfront, append_nil_r.
    rewrite span_digits_whole by done. done.
Qed.

Lemma intrange_exec_range a sep b :
  0 <= a -> match b with Some b => 0 <= b | None => True end -> separator sep ->
  intrange_exec (range_text a sep b) = Some (decimal a, decimal <$> b).
Proof.
  intros Ha Hb Hsep. destruct (decimal_digits a Ha) as (Hda & ca & da & Ea & _).
  destruct b as [b|]; cbn [range_text fmap option_fmap option_map].
  - destruct (decimal_digits b Hb) as (Hdb & cb & db & Eb & _).
    apply (intrange_exec_texts (decimal a) (Some (decimal b)) sep); try done.
    + by rewrite Ea.
    + split; [done|]. by rewrite Eb.
  - apply (intrange_exec_texts (decimal a) None sep); try done. by rewrite Ea.
Qed.

(** *** The bounds of a range and the order tests *)

Section Range.
Context `{Host} (opts : options).

Lemma normalize_intrange_bounds c0 s g1 g3 :
  Common.value c0 = Some (VStr s) -> cmpMin c0 = None -> cmpMax c0 = None ->
  intrange_exec s = Some (g1, g3) ->
  cmpMin (normalize_intrange c0) = Some (VNum (parseInt g1))
  /\ cmpMax (normalize_intrange c0)
     = Some (VNum (match g3 with Some g => parseInt g | None => parseInt g1 end)).
Proof.
  intros Hv Hmin Hmax Hexec. destruct c0 as [v0 h0 m0 cp0 mn0 mx0 mk0 ha0 cs0 ty0].
  cbn [Common.value cmpMin cmpMax] in Hv, Hmin, Hmax. subst v0 mn0 mx0.
  unfold normalize_intrange. cbn [read Common.value]. rewrite Hexec. done.
Qed.

Lemma range_cell (col : column) (a : Z) (sep : string) (b : option Z) :
  0 <= a -> match b with Some b => 0 <= b | None => True end -> separator sep ->
  type_is col "intrange" = true ->
  exists cl,
    normalize_cell opts col (prepare (Some (Raw (VStr (range_text a sep b))))) = Done cl
    /\ cmpMin cl = Some (VNum (int a))
    /\ cmpMax cl = Some (VNum (int (default a b))).
Proof.
  intros Ha Hb Hsep Hcol. rewrite normalize_cell_unfold.
  assert (type_is col "int" = false /\ type_is col "ip" = false) as [-> Hip].
  { unfold type_is in *. destruct (col_type col) as [t|]; [|done].
    apply String.eqb_eq in Hcol as ->. done. }
  rewrite Hcol, Hip. cbn [bind orb].
  eexists. split; [reflexivity|].
  unfold cleanse_with. cbn [negb].
  change (cmpMin (set_mask None (set_cmp None ?x))) with (cmpMin x).
  change (cmpMax (set_mask None (set_cmp None ?x))) with (cmpMax x).
  destruct (fallback_html_bounds opts (col_htmlAlt col)
    (normalize_intrange (prepare (Some (Raw (VStr (range_text a sep b))))))) as (-> & -> & _).
  destruct (normalize_intrange_bounds (prepare (Some (Raw (VStr (range_text a sep b)))))
              (range_text a sep b) (decimal a) (decimal <$> b)) as [-> ->]; try done.
  { by apply intrange_exec_range. }
  rewrite parseInt_number by done. split; [done|].
  destruct b as [b|]; cbn [fmap option_fmap option_map default]; [|done].
  by rewrite parseInt_number.
Qed.

(** X18.  The order tests of the evaluator on a row whose [intrange] cell was
    written as a number, alone or followed by a separator and a second
    number, all of them integers a double holds exactly: [field > n]
    answers whether the first number is above [n], [field < n] whether
    the second one (the first when it is alone) is below [n]. *)
Theorem range_order_test (row row' : gmap string slot) (col : column)
    (a : Z) (sep : string) (b : option Z) (data : list (gmap string cell))
    (rowID n : Z) :
  0 <= a < 2 ^ 53 -> match b with Some b => 0 <= b < 2 ^ 53 | None => True end ->
  - 2 ^ 53 <= n <= 2 ^ 53 -> separator sep ->
  type_is col "intrange" = true ->
  row !! col_key col = Some (Raw (VStr (range_text a sep b))) ->
  normalizeValue opts row col = Done row' ->
  0 <= rowID -> data !! Z.to_nat rowID = Some (cells_of row') ->
  eval_operator data rowID ">" (VStr (col_key col)) (VNum (int n)) = Done (VBool (n <? a))
  /\ eval_operator data rowID "<" (VStr (col_key col)) (VNum (int n))
     = Done (VBool (default a b <? n)).
Proof.
  intros [Ha _] Hb _ Hsep Hcol Hrow Hnorm HrowID Hdata.
  assert (match b with Some b => 0 <= b | None => True end) as Hb'.
  { destruct b; [lia|done]. }
  destruct (range_cell col a sep b Ha Hb' Hsep Hcol) as (cl & Hcl & Hmin & Hmax).
  unfold normalizeValue in Hnorm. rewrite Hrow, Hcl in Hnorm. cbn [bind] in Hnorm.
  injection Hnorm as <-.
  assert (cell_at data rowID (VStr (col_key col)) = Done cl) as Hcell.
  { unfold cell_at. destruct (Z.ltb_spec rowID 0); [lia|]. rewrite Hdata. cbn [ToString].
    unfold cells_of. by rewrite lookup_omap, lookup_insert_eq. }
  unfold eval_operator. cbn [String.eqb Ascii.eqb Bool.eqb orb]. rewrite Hcell. cbn [bind].
  rewrite Hmin, Hmax. rewrite !bool_decide_eq_true_2 by eauto. cbn [read less ToNumber].
  by rewrite !lt_int.
Qed.

End Range.

Lemma range_order_test_witness :
  exists row',
  normalizeValue (H := Sample.plain_host) Sample.no_options
    {[ "ports" := Raw (VStr "80-443") ]} (Sample.col "ports" (Some "intrange")) = Done row'
  /\ eval_operator (H := Sample.plain_host) [cells_of row'] 0 ">" (VStr "ports") (VNum (int 50))
     = Done (VBool true)
  /\ eval_operator (H := Sample.plain_host) [cells_of row'] 0 "<" (VStr "ports") (VNum (int 50))
     = Done (VBool false).
Proof.
  destruct (normalizeValue (H := Sample.plain_host) Sample.no_options
              {[ "ports" := Raw (VStr "80-443") ]} (Sample.col "ports" (Some "intrange")))
    as [row'|] eqn:Hn; [|by vm_compute in Hn].
  exists row'. split; [done|].
  apply (range_order_test (H := Sample.plain_host) Sample.no_options
           {[ "ports" := Raw (VStr "80-443") ]} row' (Sample.col "ports" (Some "intrange"))
           80 "-" (Some 443) [cells_of row'] 0 50);
    try lia; try reflexivity; try done.
Defined.

End RangeFacts.

(** ** Filters made by a click *)

Module ClickFacts.
Import JsString JsStringFacts Js Common FilterSort FilterFacts SortFacts TextFacts
  TokenizerFacts ParserFacts LanguageFacts Main.

(** *** Characters *)

Lemma word_not_space c : is_word c = true -> is_space c = false.
Proof. destruct c as [[] [] [] [] [] [] [] []]; vm_compute; congruence. Qed.

Lemma word_not_operator c : is_word c = true -> operator_like c = false.
Proof. destruct c as [[] [] [] [] [] [] [] []]; vm_compute; congruence. Qed.

Lemma operator_like_cases c :
  operator_like c = false ->
  is_space c = false
  /\ c <> "<"%char /\ c <> ">"%char /\ c <> "("%char /\ c <> ")"%char
  /\ c <> "!"%char /\ c <> "="%char /\ c <> "~"%char /\ c <> "@"%char.
Proof.
  destruct c as [[] [] [] [] [] [] [] []]; vm_compute; intros Hc; try discriminate;
    repeat split; congruence.
Qed.

(** *** Cutting a text at a known place *)

Lemma drop_app s r : drop (String.length s) (s +:+ r) = r.
Proof. induction s as [|c s IH]; [by destruct r|]. exact IH. Qed.

Lemma prefix_app s r : prefix (String.length s) (s +:+ r) = s.
Proof.
  induction s as [|c s IH]; [by destruct r|].
  change (String c (prefix (String.length s) (s +:+ r)) = String c s). by f_equal.
Qed.

Lemma word_chars_app a b : word_chars (a +:+ b) = word_chars a && word_chars b.
Proof.
  induction a as [|c a IH]; [done|].
  change (is_word c && word_chars (a +:+ b) = is_word c && word_chars a && word_chars b).
  by rewrite IH, andb_assoc.
Qed.

Lemma word_chars_rev_app s1 : forall s2,
  word_chars (String.rev_app s1 s2) = word_chars s1 && word_chars s2.
Proof.
  induction s1 as [|c s1 IH]; intros s2; [done|]. cbn [String.rev_app word_chars].
  rewrite IH. cbn [word_chars]. by destruct (is_word c), (word_chars s1), (word_chars s2).
Qed.

Lemma rev_app_not_empty s1 : forall s2, s2 <> "" -> String.rev_app s1 s2 <> "".
Proof. induction s1 as [|c s1 IH]; intros s2 Hs2; [done|]. by apply IH. Qed.

Lemma last_char_word s :
  word_chars s = true -> s <> "" -> word_at (last_char s) = true.
Proof.
  intros Hs Hne. unfold last_char, String.rev.
  pose proof (word_chars_rev_app s "") as Hrev. rewrite Hs in Hrev.
  destruct (String.rev_app s "") as [|c r] eqn:E.
  - destruct s as [|c s]; [done|]. cbn [String.rev_app] in E.
    by apply rev_app_not_empty in E.
  - cbn [word_chars andb] in Hrev. cbn [word_at]. by apply andb_true_iff in Hrev as [-> _].
Qed.

Lemma word_chars_prefix n : forall s, word_chars s = true -> word_chars (prefix n s) = true.
Proof.
  induction n as [|n IH]; intros [|c s] Hs; try done.
  cbn [word_chars prefix] in *. apply andb_true_iff in Hs as [-> Hs]. by apply IH.
Qed.

Lemma prefix_app_short n : forall s r,
  (n <= String.length s)%nat -> prefix n (s +:+ r) = prefix n s.
Proof.
  induction n as [|n IH]; intros [|c s] r Hn; cbn [String.length] in Hn; try done; try lia.
  change (String c (prefix n (s +:+ r)) = String c (prefix n s)). f_equal. apply IH. lia.
Qed.

Lemma head_drop_word n : forall s r,
  word_chars s = true -> (n < String.length s)%nat ->
  word_at (head_char (drop n (s +:+ r))) = true.
Proof.
  induction n as [|n IH]; intros [|c s] r Hs Hn; cbn [String.length] in Hn; try lia;
    cbn [word_chars] in Hs; apply andb_true_iff in Hs as [Hc Hs].
  - done.
  - change (String c s +:+ r) with (String c (s +:+ r)). cbn [drop]. apply IH; [done|lia].
Qed.

Lemma word_prefix_app s x r :
  word_chars s = true -> is_word x = false ->
  word_prefix (s +:+ String x r) = String.length s.
Proof.
  intros Hs Hx. induction s as [|c s IH]; cbn [word_chars] in Hs.
  - change (word_prefix (String x r) = 0%nat). cbn [word_prefix]. by rewrite Hx.
  - apply andb_true_iff in Hs as [Hc Hs].
    change (String c s +:+ String x r) with (String c (s +:+ String x r)).
    cbn [word_prefix String.length]. by rewrite Hc, IH.
Qed.

Lemma starts_with_refl ci s r : starts_with ci s (s +:+ r) = true.
Proof.
  induction s as [|c s IH]; [done|].
  change (String c s +:+ r) with (String c (s +:+ r)). cbn [starts_with].
  rewrite IH. by destruct ci; rewrite Ascii.eqb_refl.
Qed.

(** *** The key at the front *)

(** White space and then an operator character. *)
Definition then_operator (r : string) : Prop :=
  exists o r', r = String " " (String o r') /\ is_word o = false /\ is_space o = false.

Lemma boundary_after s r :
  identifier s = true -> then_operator r ->
  spaces_then_boundary (String.length s) (s +:+ r) = Some 0%nat.
Proof.
  intros Hs (o & r' & -> & Ho & Ho'). unfold spaces_then_boundary.
  rewrite drop_app, prefix_app. cbn [spaces]. change (is_space " ") with true.
  cbn [spaces]. rewrite Ho'. cbn [drop head_char word_at Nat.ltb Nat.leb andb].
  rewrite Ho. cbn [andb].
  rewrite last_char_word; [done|by apply identifier_word_chars|].
  intros ->. done.
Qed.

Lemma boundary_inside n s r :
  word_chars s = true -> (1 <= n < String.length s)%nat ->
  spaces_then_boundary n (s +:+ r) = None.
Proof.
  intros Hs Hn. unfold spaces_then_boundary.
  pose proof (head_drop_word n s r Hs ltac:(lia)) as Hhead.
  destruct (drop n (s +:+ r)) as [|c rest] eqn:E; [done|].
  cbn [head_char word_at] in Hhead. cbn [spaces]. rewrite (word_not_space c Hhead).
  cbn [Nat.ltb Nat.leb andb head_char word_at]. rewrite Hhead.
  rewrite prefix_app_short by lia.
  rewrite last_char_word; [done|by apply word_chars_prefix|].
  destruct n; [lia|]. destruct s; [cbn in Hn; lia|done].
Qed.

Lemma first_word_key W field r :
  Forall (fun k => identifier k = true) W -> field ∈ W -> then_operator r ->
  first_word W (field +:+ r) = Some (String.length field).
Proof.
  intros HW Hin Hr. induction HW as [|t W Ht HW IH]; [by apply elem_of_nil in Hin|].
  assert (identifier field = true) as Hf.
  { apply elem_of_cons in Hin as [->|Hin]; [done|]. rewrite Forall_forall in HW. auto. }
  cbn [first_word]. destruct (starts_with true t (field +:+ r)) eqn:Hstart.
  - pose proof (starts_with_word_prefix t _ (identifier_word_chars t Ht) Hstart) as Hle.
    destruct Hr as (o & r' & -> & Ho & Ho').
    rewrite word_prefix_app in Hle by (by apply identifier_word_chars || done).
    pose proof (identifier_length t Ht).
    destruct (decide (String.length t = String.length field)) as [E|N].
    + rewrite E, boundary_after by (done || by exists o, r'). f_equal. lia.
    + rewrite boundary_inside by (by apply identifier_word_chars || lia).
      apply IH. apply elem_of_cons in Hin as [->|Hin]; [done|]. exact Hin.
  - apply IH. apply elem_of_cons in Hin as [->|Hin]; [|done].
    by rewrite starts_with_refl in Hstart.
Qed.

(** *** Where no symbol stands *)

(** The text begins with a character that no symbol begins with, and
    not with [NOT(]. *)
Definition plain_start (s : string) : Prop :=
  exists c s', s = String c s' /\ operator_like c = false /\ c <> dquote
               /\ starts_with false "NOT(" s = false.

Lemma match_nonWords_plain s : plain_start s -> match_nonWords all_symbols s = None.
Proof.
  intros (c & s' & -> & Hc & Hq & Hnot). unfold match_nonWords.
  destruct (operator_like_cases c Hc) as (Hsp & H1 & H2 & H3 & H4 & H5 & H6 & H7 & H8).
  cbn [spaces]. rewrite Hsp. cbn [drop quoted].
  destruct (Ascii.eqb_spec c dquote) as [|_]; [done|].
  change (all_symbols ++ ["!("; "NOT("; ")"; "("])
    with ["=="; "!="; "!~"; "@="; "="; "~"; "<"; ">"; "!("; "NOT("; ")"; "("].
  cbn [first_literal]. rewrite Hnot. cbn [starts_with].
  repeat match goal with
    | |- context [Ascii.eqb ?x c] =>
        destruct (Ascii.eqb_spec x c) as [E|_]; [by symmetry in E|]
    end.
  done.
Qed.

Lemma plain_start_key field r :
  identifier field = true -> then_operator r -> plain_start (field +:+ r).
Proof.
  intros Hf (o & r' & -> & Ho & _).
  pose proof (identifier_word_chars field Hf) as Hw.
  destruct field as [|c1 field]; [done|]. cbn [word_chars] in Hw.
  apply andb_true_iff in Hw as [Hc1 Hw].
  exists c1, (field +:+ String " " (String o r')). split; [done|].
  split; [by apply word_not_operator|]. split; [by intros ->|].
  change (String c1 field +:+ ?x) with (String c1 (field +:+ x)). cbn [starts_with].
  destruct field as [|c2 [|c3 [|c4 field]]];
    repeat change (String ?c ?a +:+ ?x) with (String c (a +:+ x));
    change ("" +:+ ?x) with x; cbn [starts_with];
    rewrite ?andb_false_r; try done.
  cbn [word_chars] in Hw.
  apply andb_true_iff in Hw as [_ [_ [Hc4 _]%andb_true_iff]%andb_true_iff].
  destruct (Ascii.eqb_spec "(" c4) as [<-|_]; [done|]. by rewrite !andb_false_r.
Qed.

Lemma consume_key W field r :
  Forall (fun k => identifier k = true) W -> field ∈ W -> then_operator r ->
  consume W all_symbols (field +:+ r) = String.length field.
Proof.
  intros HW Hin Hr.
  assert (identifier field = true) as Hf by (rewrite Forall_forall in HW; auto).
  unfold consume. rewrite match_nonWords_plain by (by apply plain_start_key).
  unfold match_words.
  assert (word_at (head_char (field +:+ r)) = true) as ->.
  { pose proof (identifier_word_chars field Hf) as Hw.
    destruct field as [|c field]; [done|]. cbn [word_chars] in Hw.
    change (String c field +:+ r) with (String c (field +:+ r)). cbn [head_char word_at].
    by apply andb_true_iff in Hw as [-> _]. }
  by rewrite first_word_key.
Qed.

(** *** The operator *)

Lemma consume_operator W (alt : bool) lit :
  spaces lit = 0%nat ->
  consume W all_symbols ((if alt then " ~ " else " = ") +:+ lit) = 3%nat.
Proof.
  intros Hlit. unfold consume, match_nonWords.
  change (all_symbols ++ ["!("; "NOT("; ")"; "("])
    with ["=="; "!="; "!~"; "@="; "="; "~"; "<"; ">"; "!("; "NOT("; ")"; "("].
  destruct alt.
  - change (" ~ " +:+ lit) with (String " " (String "~" (String " " lit))).
    cbn [spaces]. change (is_space " ") with true. change (is_space "~") with false.
    cbn [drop quoted]. change (Ascii.eqb "~" dquote) with false.
    cbn [first_literal starts_with]. cbn [Ascii.eqb Bool.eqb andb String.length drop spaces].
    change (is_space " ") with true. cbn [spaces]. by rewrite Hlit.
  - change (" = " +:+ lit) with (String " " (String "=" (String " " lit))).
    cbn [spaces]. change (is_space " ") with true. change (is_space "=") with false.
    cbn [drop quoted]. change (Ascii.eqb "=" dquote) with false.
    cbn [first_literal starts_with]. cbn [Ascii.eqb Bool.eqb andb String.length drop spaces].
    change (is_space " ") with true. cbn [spaces]. by rewrite Hlit.
Qed.

(** *** The literal *)

(** No double quote in the text *)
Fixpoint no_quote (s : string) : bool :=
  match s with
  | EmptyString => true
  | String c s' => negb (Ascii.eqb c dquote) && no_quote s'
  end.

Lemma until_quote_closing value r :
  no_quote value = true ->
  until_quote (value +:+ String dquote r) = Some (S (String.length value)).
Proof.
  induction value as [|c value IH]; intros Hv.
  - done.
  - cbn [no_quote] in Hv. apply andb_true_iff in Hv as [Hc Hv].
    change (String c value +:+ ?x) with (String c (value +:+ x)). cbn [until_quote].
    apply negb_true_iff in Hc. rewrite Hc, IH by done. done.
Qed.

Lemma drop_all s : drop (String.length s) s = "".
Proof. rewrite <- (append_nil_r s) at 2. apply drop_app. Qed.

Lemma prefix_whole s : prefix (String.length s) s = s.
Proof. rewrite <- (append_nil_r s) at 2. apply prefix_app. Qed.

Lemma consume_quoted W value :
  no_quote value = true ->
  consume W all_symbols (in_quotes value) = String.length (in_quotes value).
Proof.
  intros Hv.
  assert (String.length (in_quotes value) = S (S (String.length value))) as Hlen.
  { unfold in_quotes. cbn [String.length]. rewrite length_append. cbn [String.length]. lia. }
  assert (quoted (in_quotes value) = Some (String.length (in_quotes value))) as Hq.
  { rewrite Hlen. unfold in_quotes. cbn [quoted].
    by rewrite Ascii.eqb_refl, until_quote_closing by done. }
  assert (spaces (in_quotes value) = 0%nat) as Hsp by done.
  unfold consume, match_nonWords. rewrite Hsp. cbn [drop]. rewrite Hq, drop_all.
  cbn [spaces]. lia.
Qed.

(** The text holds no white space, no parenthesis and no other
    character of an operator. *)
Definition bare (value : string) : Prop := value <> "" /\ has_special value = false.

Lemma span_unquoted_bare value :
  has_special value = false -> span_unquoted value = String.length value.
Proof.
  induction value as [|c value IH]; [done|]. cbn [has_special].
  intros [Hc Hv]%orb_false_iff. cbn [span_unquoted String.length].
  destruct (operator_like_cases c Hc) as (-> & _ & _ & H3 & H4 & _).
  destruct (Ascii.eqb_spec c "(") as [|_]; [done|].
  destruct (Ascii.eqb_spec c ")") as [|_]; [done|].
  cbn [orb]. by rewrite IH.
Qed.

Lemma plain_start_bare value :
  bare value -> no_quote value = true -> plain_start value.
Proof.
  intros [Hne Hs] Hq. destruct value as [|c value]; [done|].
  cbn [has_special] in Hs. apply orb_false_iff in Hs as [Hc Hs].
  cbn [no_quote] in Hq. apply andb_true_iff in Hq as [Hq _].
  exists c, value. split; [done|]. split; [done|].
  split; [intros ->; by rewrite Ascii.eqb_refl in Hq|].
  cbn [starts_with].
  destruct value as [|c2 [|c3 [|c4 value]]]; cbn [starts_with]; rewrite ?andb_false_r; try done.
  cbn [has_special] in Hs.
  apply orb_false_iff in Hs as [_ [_ [Hc4 _]%orb_false_iff]%orb_false_iff].
  destruct (operator_like_cases c4 Hc4) as (_ & _ & _ & H3 & _).
  destruct (Ascii.eqb_spec "(" c4) as [E|_]; [by symmetry in E|]. by rewrite !andb_false_r.
Qed.

(** The word expression finds no key or logical operator at the front
    of the text, or the text is one as a whole. *)
Definition no_word_inside (W : list string) (value : string) : Prop :=
  match_words W value = None \/ match_words W value = Some (String.length value).

Lemma consume_bare W value :
  bare value -> no_quote value = true -> no_word_inside W value ->
  consume W all_symbols value = String.length value.
Proof.
  intros Hb Hq Hw. unfold consume.
  rewrite match_nonWords_plain by (by apply plain_start_bare).
  destruct Hw as [-> | ->]; [|done].
  destruct Hb as [Hne Hs]. unfold match_unquoted.
  assert (spaces value = 0%nat) as ->.
  { destruct value as [|c value]; [done|]. cbn [has_special] in Hs.
    apply orb_false_iff in Hs as [Hc _].
    destruct (operator_like_cases c Hc) as (Hsp & _). cbn [spaces]. by rewrite Hsp. }
  cbn [drop]. rewrite span_unquoted_bare by done.
  destruct value; [done|]. cbn [String.length]. done.
Qed.

(** *** What trimming keeps *)

Fixpoint last_visible (s : string) : bool :=
  match s with
  | EmptyString => false
  | String c s' =>
      match s' with
      | EmptyString => negb (is_space c)
      | String _ _ => last_visible s'
      end
  end.

Lemma trimEnd_keep s : last_visible s = true -> trimEnd s = s.
Proof.
  induction s as [|c s IH]; [done|]. cbn [last_visible trimEnd].
  destruct s as [|c' s].
  - intros Hc%negb_true_iff. cbn [trimEnd]. by rewrite Hc.
  - intros Hs. rewrite (IH Hs). done.
Qed.

Lemma trim_keep c s :
  is_space c = false -> last_visible (String c s) = true -> trim (String c s) = String c s.
Proof.
  intros Hc Hs. unfold trim. cbn [trimStart]. rewrite Hc. by apply trimEnd_keep.
Qed.

Lemma last_visible_app s c :
  is_space c = false -> last_visible (s +:+ String c "") = true.
Proof.
  intros Hc. induction s as [|x s IH].
  - change ("" +:+ ?r) with r. cbn [last_visible]. by rewrite Hc.
  - change (String x s +:+ ?r) with (String x (s +:+ r)). cbn [last_visible].
    destruct (s +:+ String c "") eqn:E; [by destruct s|done].
Qed.

(** No white space in the text *)
Fixpoint solid (s : string) : bool :=
  match s with
  | EmptyString => true
  | String c s' => negb (is_space c) && solid s'
  end.

Lemma last_visible_solid s : solid s = true -> s <> "" -> last_visible s = true.
Proof.
  induction s as [|c s IH]; [done|]. cbn [solid last_visible].
  intros [Hc Hs]%andb_true_iff _. destruct s; [done|]. by apply IH.
Qed.

Lemma trim_solid s : solid s = true -> trim s = s.
Proof.
  intros Hs. destruct s as [|c s]; [done|]. apply trim_keep.
  - cbn [solid] in Hs. by apply andb_true_iff in Hs as [?%negb_true_iff _].
  - by apply last_visible_solid.
Qed.

Lemma solid_word s : word_chars s = true -> solid s = true.
Proof.
  induction s as [|c s IH]; [done|]. cbn [word_chars solid].
  intros [Hc Hs]%andb_true_iff. by rewrite (word_not_space c Hc), IH.
Qed.

Lemma solid_bare s : has_special s = false -> solid s = true.
Proof.
  induction s as [|c s IH]; [done|]. cbn [has_special solid].
  intros [Hc Hs]%orb_false_iff. destruct (operator_like_cases c Hc) as (-> & _).
  by rewrite IH.
Qed.

Lemma last_visible_append a b : b <> "" -> last_visible (a +:+ b) = last_visible b.
Proof.
  intros Hb. induction a as [|x a IH]; [done|].
  change (String x a +:+ b) with (String x (a +:+ b)). cbn [last_visible].
  destruct (a +:+ b) eqn:E; [|done]. destruct a; [|done]. by destruct b.
Qed.

Lemma trim_in_quotes value : trim (in_quotes value) = in_quotes value.
Proof.
  unfold in_quotes. apply trim_keep; [done|]. cbn [last_visible].
  destruct (value +:+ String dquote "") eqn:E; [by destruct value|].
  rewrite <- E. by apply last_visible_app.
Qed.

(** *** The tokens of a created filter *)

Lemma scan_turn fuel W N s :
  s <> "" ->
  scan (S fuel) W N s
  = option_map (cons (trim (prefix (consume W N s) s)))
      (scan fuel W N (drop (consume W N s) s)).
Proof. by destruct s. Qed.

(** The literal as [createFilter] writes it *)
Definition written (value : string) : string :=
  if String.eqb value "" || has_special value then in_quotes value else value.

(** The operator of the click *)
Definition chosen (event : modifiers) : string := if altKey event then "~" else "=".

(** A text without line feed and carriage return *)
Fixpoint one_line (s : string) : bool :=
  match s with
  | EmptyString => true
  | String c s' => negb (Ascii.eqb c "010" || Ascii.eqb c "013") && one_line s'
  end.

Lemma input_value_one_line s : one_line s = true -> input_value s = s.
Proof.
  induction s as [|c s IH]; [done|]. cbn [one_line input_value].
  intros [Hc Hs]%andb_true_iff. apply negb_true_iff in Hc. rewrite Hc. by rewrite IH.
Qed.

Lemma one_line_app a b : one_line (a +:+ b) = one_line a && one_line b.
Proof.
  induction a as [|c a IH]; [done|].
  change (String c a +:+ b) with (String c (a +:+ b)). cbn [one_line].
  by rewrite IH, andb_assoc.
Qed.

Lemma one_line_word s : word_chars s = true -> one_line s = true.
Proof.
  induction s as [|c s IH]; [done|]. cbn [word_chars one_line].
  intros [Hc Hs]%andb_true_iff. rewrite (IH Hs), andb_true_r.
  destruct c as [[] [] [] [] [] [] [] []]; vm_compute in Hc |- *; congruence.
Qed.

Lemma one_line_written value : one_line value = true -> one_line (written value) = true.
Proof.
  intros Hv. unfold written. destruct (String.eqb value "" || has_special value); [|done].
  unfold in_quotes. change (String dquote ?x) with (String dquote "" +:+ x).
  by rewrite !one_line_app, Hv.
Qed.

Lemma createFilter_plain field value event input :
  ctrlKey event || shiftKey event = false \/ input = "" ->
  word_chars field = true -> one_line value = true ->
  createFilter field value event input
  = field +:+ (if altKey event then " ~ " else " = ") +:+ written value.
Proof.
  intros Hev Hfield Hvalue.
  assert (input_value (field +:+ (if altKey event then " ~ " else " = ") +:+ written value)
          = field +:+ (if altKey event then " ~ " else " = ") +:+ written value) as Hkept.
  { apply input_value_one_line.
    rewrite !one_line_app, (one_line_word field Hfield), (one_line_written value Hvalue).
    by destruct (altKey event). }
  assert (field +:+ (if altKey event then " ~ " else " = ")
          +:+ (if String.eqb value "" || has_special value then String dquote "" else "")
          +:+ value
          +:+ (if String.eqb value "" || has_special value then String dquote "" else "")
          = field +:+ (if altKey event then " ~ " else " = ") +:+ written value) as Hfilter.
  { unfold written, in_quotes. destruct (String.eqb value "" || has_special value); [done|].
    change ("" +:+ ?x) with x. by rewrite append_nil_r. }
  unfold createFilter. cbv zeta. rewrite Hfilter.
  destruct Hev as [Hev| ->].
  - apply orb_false_iff in Hev as [-> ->]. done.
  - change (String.eqb "" "") with true. cbv iota. change ("" +:+ ?x) with x.
    by destruct (ctrlKey event), (shiftKey event).
Qed.

(** The created text has nothing to trim. *)
Lemma trim_created field value (alt : bool) :
  identifier field = true ->
  trim (field +:+ (if alt then " ~ " else " = ") +:+ written value)
  = field +:+ (if alt then " ~ " else " = ") +:+ written value.
Proof.
  intros Hf. unfold identifier in Hf. apply andb_true_iff in Hf as [Hne Hw].
  destruct field as [|c field]; [done|]. cbn [word_chars] in Hw.
  apply andb_true_iff in Hw as [Hc _].
  change (String c field +:+ ?x) with (String c (field +:+ x)).
  apply trim_keep; [by apply word_not_space|].
  change (String c (field +:+ ?x)) with (String c field +:+ x).
  assert (written value <> "" /\ last_visible (written value) = true) as [Hwne Hlast].
  { unfold written. destruct (String.eqb value "" || has_special value) eqn:E.
    - split; [done|]. unfold in_quotes. cbn [last_visible].
      destruct (value +:+ String dquote "") eqn:E2; [by destruct value|].
      rewrite <- E2. by apply last_visible_app.
    - apply orb_false_iff in E as [Hv%String.eqb_neq Hs]. split; [done|].
      apply last_visible_solid; [by apply solid_bare|done]. }
  rewrite last_visible_append; [rewrite last_visible_append; done|].
  destruct alt; by destruct (written value).
Qed.

Lemma getTokens_created W field value (alt : bool) :
  Forall (fun k => identifier k = true) W -> field ∈ W ->
  no_quote value = true ->
  (String.eqb value "" || has_special value = false -> no_word_inside W value) ->
  getTokens (field +:+ (if alt then " ~ " else " = ") +:+ written value) W all_symbols
  = Some [field; if alt then "~" else "="; written value].
Proof.
  intros HW Hin Hq Hw.
  assert (identifier field = true) as Hf by (rewrite Forall_forall in HW; auto).
  assert (written value <> "" /\ spaces (written value) = 0%nat
          /\ consume W all_symbols (written value) = String.length (written value)
          /\ trim (written value) = written value) as (Hne & Hsp & Hcons & Htrim).
  { unfold written. destruct (String.eqb value "" || has_special value) eqn:E.
    - split; [done|]. split; [done|]. split; [by apply consume_quoted|apply trim_in_quotes].
    - apply orb_false_iff in E as [Hv%String.eqb_neq Hs]. specialize (Hw eq_refl).
      split; [done|]. split; [|split].
      + destruct value as [|c value]; [done|]. cbn [has_special] in Hs.
        apply orb_false_iff in Hs as [Hc _].
        destruct (operator_like_cases c Hc) as (Hc' & _). cbn [spaces]. by rewrite Hc'.
      + by apply consume_bare.
      + by apply trim_solid, solid_bare. }
  assert (then_operator ((if alt then " ~ " else " = ") +:+ written value)) as Hop.
  { destruct alt.
    - exists "~"%char, (String " " (written value)). done.
    - exists "="%char, (String " " (written value)). done. }
  unfold getTokens. destruct W as [|w W']; [by apply elem_of_nil in Hin|].
  change all_symbols with ("==" :: List.tl all_symbols) at 1.
  cbv iota. change ("==" :: List.tl all_symbols) with all_symbols.
  set (W := w :: W') in *.
  rewrite !length_append.
  assert (String.length (if alt then " ~ " else " = ") = 3%nat) as -> by (by destruct alt).
  pose proof (identifier_length field Hf) as Hlen.
  destruct (String.length field) as [|n] eqn:En; [lia|]. cbn [Nat.add].
  rewrite scan_turn by (destruct field; [done|discriminate]).
  rewrite consume_key, prefix_app, drop_app by done.
  rewrite trim_solid by (apply solid_word; by apply identifier_word_chars).
  replace (n + S (S (S (String.length (written value)))))%nat
    with (S (S (n + String.length (written value) + 1)))%nat by lia.
  rewrite scan_turn by (by destruct alt).
  rewrite consume_operator by done.
  assert (prefix 3 ((if alt then " ~ " else " = ") +:+ written value)
          = (if alt then " ~ " else " = ")) as -> by (by destruct alt).
  assert (drop 3 ((if alt then " ~ " else " = ") +:+ written value) = written value) as ->
    by (by destruct alt).
  assert (trim (if alt then " ~ " else " = ") = (if alt then "~" else "=")) as ->
    by (by destruct alt).
  rewrite scan_turn by done. rewrite Hcons, prefix_whole, drop_all, Htrim.
  by destruct (n + String.length (written value) + 1)%nat.
Qed.

(** *** The filter of a click *)

Lemma substring_front value r :
  String.substring 0 (String.length value) (value +:+ r) = value.
Proof.
  induction value as [|c value IH]; [by destruct r|].
  change (String c value +:+ r) with (String c (value +:+ r)).
  cbn [String.length String.substring]. by rewrite IH.
Qed.

Lemma unquote_in_quotes value :
  substring 1 (Z.of_nat (String.length (in_quotes value)) - 1) (in_quotes value) = value.
Proof.
  unfold substring, in_quotes. cbn [String.length]. rewrite length_append. cbn [String.length].
  cbv zeta.
  replace (Z.max 0 (Z.min 1 (Z.of_nat (S (String.length value + 1))))) with 1 by lia.
  replace (Z.max 0 (Z.min (Z.of_nat (S (String.length value + 1)) - 1)
                      (Z.of_nat (S (String.length value + 1)))))
    with (Z.of_nat (String.length value) + 1) by lia.
  replace (Z.min 1 (Z.of_nat (String.length value) + 1)) with 1 by lia.
  replace (Z.max 1 (Z.of_nat (String.length value) + 1))
    with (Z.of_nat (String.length value) + 1) by lia.
  replace (Z.to_nat (Z.of_nat (String.length value) + 1 - 1)) with (String.length value) by lia.
  change (Z.to_nat 1) with 1%nat. cbn [String.substring]. apply substring_front.
Qed.

Section Filter.
Context `{Host}.

Lemma converted_equal m field value :
  is_Some (m !! field) -> no_quote value = true ->
  converted m "=" field (written value) = Some (VStr (toUpperCase value)).
Proof.
  intros Hm Hq. unfold converted, check_operator. cbn [idx token].
  rewrite bool_decide_eq_true_2 by done. cbn [negb andb Z.eqb].
  unfold written. destruct (String.eqb value "" || has_special value) eqn:E.
  - unfold in_quotes at 1. rewrite Ascii.eqb_refl, unquote_in_quotes. cbn [idx token]. done.
  - apply orb_false_iff in E as [Hv%String.eqb_neq _].
    destruct value as [|c value]; [done|]. cbn [no_quote] in Hq.
    apply andb_true_iff in Hq as [Hc%negb_true_iff _]. rewrite Hc. done.
Qed.

(** Whether the cell of the entry under [field] has the text as its
    [match], letter case apart. *)
Definition matches (data : list (gmap string cell)) (field value : string) (e : Z) : bool :=
  match entry_cell data field e with
  | Some c => strict_eq (read (match_ c)) (VStr (toUpperCase value))
  | None => false
  end.

Lemma operator_like_upper c : operator_like (upper_char c) = operator_like c.
Proof. destruct c as [[] [] [] [] [] [] [] []]; reflexivity. Qed.

Lemma has_special_upper value : has_special (toUpperCase value) = has_special value.
Proof.
  induction value as [|c value IH]; [done|]. cbn [toUpperCase has_special].
  by rewrite operator_like_upper, IH.
Qed.

Lemma plain_bare value :
  has_special value = false -> is_op (toUpperCase value) = false -> plain value = true.
Proof.
  intros Hs Hop. unfold plain, operand_token. rewrite Hop. cbn [negb andb].
  destruct (is_opening value) eqn:E1.
  { apply is_opening_cases in E1 as [ -> | [ -> | -> ] ]; discriminate Hs. }
  destruct (String.eqb_spec value ")") as [->|_]; [discriminate Hs|].
  destruct (String.eqb_spec (toUpperCase value) "NOT(") as [E|_].
  { rewrite <- has_special_upper, E in Hs. discriminate Hs. }
  destruct (String.eqb_spec value "!") as [->|_]; [discriminate Hs|]. done.
Qed.

Lemma has_special_word s : word_chars s = true -> has_special s = false.
Proof.
  induction s as [|c s IH]; [done|]. cbn [word_chars has_special].
  intros [Hc Hs]%andb_true_iff. by rewrite (word_not_operator c Hc), IH.
Qed.

Lemma plain_written value :
  is_op (toUpperCase value) = false -> plain (written value) = true.
Proof.
  intros Hop. unfold written.
  destruct (String.eqb value "" || has_special value) eqn:E; [done|].
  apply orb_false_iff in E as [_ Hs]. by apply plain_bare.
Qed.

Lemma typeMap_field table st field :
  state_ok table st -> field ∈ col_key <$> table -> field <> "__proto__" ->
  is_Some ((if bool_decide (typeMap st = ∅) then fill_typeMap table (typeMap st)
            else typeMap st) !! field).
Proof.
  intros Hst Hin Hproto.
  assert (forall m0, is_Some (fill_typeMap table m0 !! field)) as Hfill.
  { intros m0. destruct (fill_typeMap table m0 !! field) eqn:E; [done|].
    apply fill_typeMap_lookup_None in E as [_ [E|E]]; done. }
  destruct Hst as ([Hm|Hm] & _).
  - rewrite bool_decide_eq_true_2 by done. apply Hfill.
  - case_bool_decide; [apply Hfill|]. rewrite Hm. apply Hfill.
Qed.

Lemma key_in_words table field :
  field ∈ col_key <$> table -> field ∈ all_words table.
Proof.
  intros Hin. unfold all_words. rewrite sort_by_perm. apply elem_of_app. by left.
Qed.

(** The cell text can be written after the operator and read back: it
    holds no double quote and no line break (the filter input drops
    those) and, when it is written without quotes, no key or logical
    operator is found at its front. *)
Definition writable (table : list column) (value : string) : Prop :=
  no_quote value = true /\ one_line value = true
  /\ (String.eqb value "" || has_special value = false ->
      no_word_inside (all_words table) value).

(** The click replaces the text of the filter input. *)
Definition replaces (event : modifiers) (input : string) : Prop :=
  ctrlKey event || shiftKey event = false \/ input = "".

(** X19.  The text that the filter input holds after a click on a cell is
    cut into the key of the column, the operator and the text of the
    cell, in quotes when [createFilter] put it so. *)
Theorem createFilter_tokens (table : list column) (field value : string)
    (event : modifiers) (input : string) :
  Forall (fun c => identifier (col_key c) = true) table ->
  field ∈ col_key <$> table ->
  writable table value ->
  replaces event input ->
  getTokens (createFilter field value event input) (all_words table) all_symbols
  = Some [field; chosen event; written value].
Proof.
  intros Hkeys Hin (Hq & Hline & Hw) Hev.
  assert (identifier field = true) as Hf.
  { apply list_elem_of_fmap in Hin as (c & -> & Hc). rewrite Forall_forall in Hkeys. auto. }
  rewrite createFilter_plain by (done || by apply identifier_word_chars).
  apply getTokens_created; [by apply all_words_identifiers|by apply key_in_words|done..].
Qed.

(** The text of the cell does not become an operator of the
    evaluator once it is in upper case. *)
Definition harmless (value : string) : Prop :=
  is_op (toUpperCase value) = false /\ toUpperCase value <> "!".

(** X20.  Applying the text that the filter input holds after a plain click
    on a cell shows exactly the rows whose cell of that column has the
    text of the clicked cell as its [match], letter case apart, and
    hides the others. *)
Theorem createFilter_filters (table : list column) (data : list (gmap string cell))
    (st : state) (field value : string) (event : modifiers) (input : string) :
  Forall (fun c => identifier (col_key c) = true) table ->
  state_ok table st ->
  field ∈ col_key <$> table -> is_op (toUpperCase field) = false ->
  field <> "__proto__" ->
  writable table value -> harmless value ->
  altKey event = false -> replaces event input ->
  Forall (fun e => is_Some (entry_cell data field e)) (display st) ->
  exists st',
  filterRows table data (createFilter field value event input) st
  = Some (st', Done (VBool true))
  /\ display st'
     = (fun e => if matches data field value e then unhide e else hide e) <$> display st.
Proof.
  intros Hkeys Hst Hin Hfop Hproto (Hq & Hline & Hw) [Hop Hbang] Halt Hev Hcells.
  assert (identifier field = true) as Hf.
  { apply list_elem_of_fmap in Hin as (c & -> & Hc). rewrite Forall_forall in Hkeys. auto. }
  unfold filterRows.
  rewrite createFilter_plain, Halt by (done || by apply identifier_word_chars).
  rewrite (trim_created field value false Hf).
  set (f := Test field "=" (written value)).
  set (m := if bool_decide (typeMap st = ∅) then fill_typeMap table (typeMap st)
            else typeMap st).
  pose proof (typeMap_field table st field Hst Hin Hproto) as Hm. fold m in Hm.
  pose proof (converted_equal m field value Hm Hq) as Hconv.
  assert (accepted m f) as Hacc.
  { cbn [f accepted]. change (toUpperCase "=") with "=". rewrite Hconv.
    split; [apply plain_bare; [apply has_special_word; by apply identifier_word_chars|done]|].
    split; [by apply plain_written|]. split; [done|eauto]. }
  assert (unambiguous m f) as Hun.
  { cbn [f unambiguous]. change (toUpperCase "=") with "=". rewrite Hconv.
    split; [done|]. by apply String.eqb_neq. }
  assert (grouped (expr_of f)) as Hg.
  { cbn [f expr_of grouped level]. change (toUpperCase "=") with "=".
    destruct Hacc as (Hx & Hy & _). unfold plain in Hx, Hy.
    apply andb_true_iff in Hx as [Hx _]. apply andb_true_iff in Hy as [Hy _].
    repeat split; try done. }
  assert (covered data f (display st)) as Hcov.
  { unfold covered. eapply Forall_impl; [exact Hcells|]. intros e He x Hx.
    cbn [f fields] in Hx. by apply list_elem_of_singleton in Hx as ->. }
  unfold filterData.
  destruct (String.eqb_spec (field +:+ " = " +:+ written value) "") as [E|_].
  { destruct field; discriminate. }
  cbn [word nonWord typeMap display].
  rewrite (wordTokens_ok table st Hst), (nonWordTokens_ok table st Hst).
  rewrite (getTokens_created (all_words table) field value false)
    by (by apply all_words_identifiers || by apply key_in_words || done).
  cbn [length Nat.ltb Nat.leb].
  assert (tokensToRPN [field; "="; written value] = Some (postfix (expr_of f))) as ->.
  { unfold tokensToRPN.
    destruct (fold_rpn_grouped (expr_of f) [] [] Hg I) as (P & O & E & Ep & _).
    change (infix (expr_of f)) with [field; "="; written value] in E.
    rewrite E. by rewrite app_nil_r, app_nil_l, Ep. }
  rewrite (checkFilter_compile table (typeMap st) f Hacc). fold m.
  rewrite (runFilter_compile data m f (display st) Hacc Hun Hcov).
  eexists. split; [reflexivity|]. cbn [display].
  apply Forall_fmap_ext_1. eapply Forall_impl; [exact Hcells|]. intros e [c Hc].
  unfold verdict, matches. rewrite Hc. cbn [f holds]. change (toUpperCase "=") with "=".
  rewrite Hconv. unfold eval_operator. cbn [String.eqb Ascii.eqb Bool.eqb orb].
  by rewrite (cell_at_entry _ _ _ _ Hc).
Qed.

End Filter.

Lemma createFilter_tokens_witness :
  getTokens (createFilter "label" "web server" (Modifiers true false false) "")
    (all_words Sample.table) all_symbols
  = Some ["label"; "~"; in_quotes "web server"].
Proof.
  apply (createFilter_tokens Sample.table "label" "web server" (Modifiers true false false) "").
  - by repeat constructor.
  - by apply (bool_decide_unpack _).
  - split; [reflexivity|]. split; [reflexivity|discriminate].
  - by left.
Defined.

Lemma createFilter_filters_witness :
  exists st',
  filterRows (H := Sample.plain_host) Sample.table Sample.data
    (createFilter "label" "dns" (Modifiers false false false) "") (State ∅ [] [] [0; 1; 2])
  = Some (st', Done (VBool true))
  /\ display st' = [1048576; 1; 1048578].
Proof.
  destruct (createFilter_filters (H := Sample.plain_host) Sample.table Sample.data
              (State ∅ [] [] [0; 1; 2]) "label" "dns" (Modifiers false false false) "")
    as (st' & Hf & Hd).
  - by repeat constructor.
  - repeat split; by left.
  - by apply (bool_decide_unpack _).
  - reflexivity.
  - discriminate.
  - split; [reflexivity|]. split; [reflexivity|]. intros _. left. by vm_compute.
  - split; [reflexivity|discriminate].
  - reflexivity.
  - by left.
  - repeat constructor; vm_compute; eauto.
  - exists st'. split; [exact Hf|]. rewrite Hd. by vm_compute.
Defined.

(** The quoting rule of [createFilter] does not see a key at the front
    of the cell text: with a column [dns], the text [dns-1] is written
    without quotes and cut in two. *)
Example createFilter_cut_in_two :
  getTokens (createFilter "label" "dns-1" (Modifiers false false false) "")
    (all_words [Sample.col "label" None; Sample.col "dns" None]) all_symbols
  = Some ["label"; "="; "dns"; "-1"].
Proof. by vm_compute. Qed.

(** A line break in the cell text does not reach the filter: the click
    on a cell with the text [a], a line feed and [b] leaves [label = "ab"]
    in the filter input. *)
Example createFilter_line_break :
  createFilter "label" (String "a" (String "010" "b")) (Modifiers false false false) ""
  = "label = " +:+ in_quotes "ab".
Proof. reflexivity. Qed.

End ClickFacts.

(** ** The loaded files *)

Module LoadFacts.
Import JsString Js Common FilterSort TextFacts ShapeFacts VersionNumberFacts Main.

Lemma append_inj_r (k a b : string) : k +:+ a = k +:+ b -> a = b.
Proof.
  induction k as [|c k IH]; [done|].
  change (String c (k +:+ a) = String c (k +:+ b) -> a = b). intros [= E]. by apply IH.
Qed.

Lemma text_inj ds : forall es,
  Forall digit ds -> Forall digit es -> text ds = text es -> ds = es.
Proof.
  induction ds as [|d ds IH]; intros [|e es] Hds Hes; try done.
  apply Forall_cons in Hds as [Hd Hds]. apply Forall_cons in Hes as [He Hes].
  cbn [text]. intros [= Hc Ht]. f_equal; [|by apply IH].
  apply (f_equal code) in Hc. rewrite !code_digit_char in Hc by done. lia.
Qed.

Lemma decimal_inj x y : 0 <= x -> 0 <= y -> decimal x = decimal y -> x = y.
Proof.
  intros Hx Hy.
  destruct (decimal_numeral x Hx) as (-> & _ & Dx & Vx).
  destruct (decimal_numeral y Hy) as (-> & _ & Dy & Vy).
  intros E%text_inj; [|done..]. rewrite E in Vx. lia.
Qed.

Lemma free_suffix_delete {A} fuel (yaml : gmap string A) key s : forall t,
  0 <= s < t ->
  free_suffix fuel (delete (key +:+ decimal s) yaml) key t = free_suffix fuel yaml key t.
Proof.
  induction fuel as [|fuel IH]; intros t Ht; [done|]. cbn [free_suffix].
  rewrite lookup_delete_ne.
  2: { intros E%append_inj_r%decimal_inj; lia. }
  case_bool_decide; [|done]. apply IH. lia.
Qed.

(** The loop ends within as many turns as [yaml] has keys, one more
    counted, on a suffix whose key is free. *)
Lemma free_suffix_finds {A} fuel : forall (yaml : gmap string A) key s,
  0 <= s -> (size yaml < fuel)%nat ->
  exists n, free_suffix fuel yaml key s = Some n /\ s <= n
            /\ yaml !! (key +:+ decimal n) = None.
Proof.
  induction fuel as [|fuel IH]; intros yaml key s Hs Hfuel; [lia|]. cbn [free_suffix].
  case_bool_decide as Hin.
  - destruct Hin as [v Hv].
    destruct (IH (delete (key +:+ decimal s) yaml) key (s + 1)) as (n & Hn & Hle & Hfree).
    { lia. }
    { pose proof (map_size_delete (key +:+ decimal s) yaml) as Hsize.
      rewrite Hv in Hsize. cbn in Hsize.
      destruct (size yaml) eqn:E; [apply map_size_empty_inv in E; by subst|]. lia. }
    rewrite free_suffix_delete in Hn by lia. exists n. split; [done|]. split; [lia|].
    rewrite lookup_delete_ne in Hfree; [done|].
    intros E%append_inj_r%decimal_inj; lia.
  - exists s. split; [done|]. split; [lia|]. by apply eq_None_not_Some.
Qed.

(** Whether the last character is a digit *)
Fixpoint ends_in_digit (s : string) : bool :=
  match s with
  | EmptyString => false
  | String c EmptyString => is_digit c
  | String _ s' => ends_in_digit s'
  end.

Lemma ends_in_digit_app k t : t <> "" -> ends_in_digit (k +:+ t) = ends_in_digit t.
Proof.
  intros Ht. induction k as [|c k IH]; [done|].
  change (String c k +:+ t) with (String c (k +:+ t)). cbn [ends_in_digit].
  destruct (k +:+ t) eqn:E; [|done]. destruct k; [|done]. by destruct t.
Qed.

Lemma ends_in_digit_digits t :
  t <> "" -> digits_only t = true -> ends_in_digit t = true.
Proof.
  induction t as [|c t IH]; [done|]. intros _. cbn [digits_only ends_in_digit].
  intros [Hc Ht]%andb_true_iff. destruct t as [|c' t]; [done|]. by apply IH.
Qed.

(** A key with a number after it is not [__proto__]. *)
Lemma suffixed_key key n : 0 <= n -> key +:+ decimal n <> "__proto__".
Proof.
  intros Hn E. apply (f_equal ends_in_digit) in E.
  destruct (RangeFacts.decimal_digits n Hn) as (Hd & c & d & Ec & _).
  rewrite ends_in_digit_app, ends_in_digit_digits in E; try done; by rewrite Ec.
Qed.

Lemma store_file_fresh {A} fuel (yaml : gmap string A) (key : string) (data : A) :
  (size yaml < fuel)%nat -> key <> "__proto__" ->
  exists key',
  store_file fuel yaml (key, data) = Some (key', <[key' := data]> yaml)
  /\ yaml !! key' = None
  /\ (yaml !! key = None -> key' = key)
  /\ (key' = key \/ exists n, 1 <= n /\ key' = key +:+ decimal n).
Proof.
  intros Hfuel Hproto. unfold store_file, assign. case_bool_decide as Hin.
  - destruct (free_suffix_finds fuel yaml key 1) as (n & -> & Hn & Hfree); [lia|done|].
    exists (key +:+ decimal n).
    destruct (String.eqb_spec (key +:+ decimal n) "__proto__") as [E|_].
    { by apply suffixed_key in E; [|lia]. }
    split; [done|]. split; [done|]. split; [|eauto].
    intros Hnone. rewrite Hnone in Hin. by destruct Hin.
  - exists key. destruct (String.eqb_spec key "__proto__") as [E|_]; [done|].
    split; [done|]. split; [by apply eq_None_not_Some|]. split; [done|by left].
Qed.

(** X21.  Whatever keys but [__proto__] the loaded files ask for, the loop
    of [init] ends (within as many turns of its inner loop as [yaml]
    ever has keys) and loses nothing: each file gets its own key or that
    key with a number from 1 on after it, the keys are new and all
    different, a first file asking for a free key gets it, every file's
    data is in [yaml] under its key, and what [yaml] held before is
    still there. *)
Theorem init_stores_files {A} (fuel : nat) (yaml : gmap string A)
    (ymlData : list (string * A)) :
  (size yaml + length ymlData <= fuel)%nat ->
  Forall (fun file => file.1 <> "__proto__") ymlData ->
  exists keys yaml',
  store_files fuel yaml ymlData = Some (keys, yaml')
  /\ Forall2 (fun k file => k = file.1 \/ exists n, 1 <= n /\ k = file.1 +:+ decimal n)
       keys ymlData
  /\ NoDup keys
  /\ Forall (fun k => yaml !! k = None) keys
  /\ (forall k, k ∉ keys -> yaml' !! k = yaml !! k)
  /\ (forall i k file, keys !! i = Some k -> ymlData !! i = Some file ->
        yaml' !! k = Some file.2)
  /\ (forall file, head ymlData = Some file -> yaml !! file.1 = None ->
        head keys = Some file.1).
Proof.
  intros Hfuel Hkeys. revert yaml Hfuel.
  induction Hkeys as [|[key data] rest Hkey Hkeys IH]; intros yaml Hfuel.
  - exists [], yaml. cbn [store_files].
    split; [done|]. split; [constructor|]. split; [constructor|]. split; [constructor|].
    split; [done|]. split; [|done]. intros i k file Hk. by rewrite lookup_nil in Hk.
  - cbn [length] in Hfuel.
    destruct (store_file_fresh fuel yaml key data) as (key' & Hstore & Hfree & Hsame & Hform);
      [lia|done|].
    destruct (IH (<[key' := data]> yaml))
      as (keys & yaml' & Hrest & Hlen & Hnd & Hnew & Hold & Hdata & _).
    { rewrite map_size_insert_None by done. lia. }
    exists (key' :: keys), yaml'. cbn [store_files]. rewrite Hstore, Hrest.
    assert (key' ∉ keys) as Hnotin.
    { intros Hin. rewrite Forall_forall in Hnew. specialize (Hnew _ Hin).
      by rewrite lookup_insert_eq in Hnew. }
    split; [done|]. split; [by constructor|]. split; [by constructor|].
    split; [|split; [|split]].
    + constructor; [done|]. eapply Forall_impl; [exact Hnew|]. intros k Hk.
      by apply lookup_insert_None in Hk as [? _].
    + intros k Hk. apply not_elem_of_cons in Hk as [Hne Hk].
      rewrite (Hold k Hk). by apply lookup_insert_ne.
    + intros [|i] k file Hk Hfile; cbn in Hk, Hfile.
      * injection Hk as <-. injection Hfile as <-. rewrite (Hold key' Hnotin).
        by rewrite lookup_insert_eq.
      * by eapply Hdata.
    + intros file [= <-] Hnone. cbn [head fst]. f_equal. by apply Hsame.
Qed.

Lemma init_stores_files_witness :
  exists yaml',
  store_files 4 ({[ "files" := VArray [] ]} : gmap string jsval)
    [("specs", VStr "a"); ("specs", VStr "b"); ("files", VStr "c")]
  = Some (["specs"; "specs1"; "files1"], yaml')
  /\ yaml' !! "specs1" = Some (VStr "b").
Proof.
  destruct (init_stores_files 4 ({[ "files" := VArray [] ]} : gmap string jsval)
              [("specs", VStr "a"); ("specs", VStr "b"); ("files", VStr "c")])
    as (keys & yaml' & Hs & _ & _ & _ & _ & Hdata & _).
  - by vm_compute.
  - by repeat constructor.
  - assert (keys = ["specs"; "specs1"; "files1"]) as ->.
    { vm_compute in Hs. by injection Hs as <- _. }
    exists yaml'. split; [exact Hs|]. by apply (Hdata 1%nat "specs1" ("specs", VStr "b")).
Defined.

(** Two files that ask for [__proto__]: no property is made, the test
    of the loop sees none, and both are given the same key. *)
Example init_proto_files :
  store_files 4 ({[ "files" := VArray [] ]} : gmap string jsval)
    [("__proto__", VStr "a"); ("__proto__", VStr "b")]
  = Some (["__proto__"; "__proto__"], {[ "files" := VArray [] ]}).
Proof. reflexivity. Qed.

End LoadFacts.

(** ** The exported text *)

Module ExportFacts.
Import JsString Js Common FilterSort Main.

Lemma header_columns_skip table visibleCols key :
  key ∉ col_key <$> table ->
  header_columns table (key :: visibleCols) = header_columns table visibleCols.
Proof.
  intros Hkey. unfold header_columns. apply List.filter_ext_in. intros c Hc%list_elem_of_In.
  apply bool_decide_ext. rewrite elem_of_cons. split; [|by right].
  intros [E|?]; [|done]. exfalso. apply Hkey. apply list_elem_of_fmap. eauto.
Qed.

Lemma header_columns_sublist table : forall visibleCols,
  NoDup (col_key <$> table) -> visibleCols `sublist_of` (col_key <$> table) ->
  col_key <$> header_columns table visibleCols = visibleCols.
Proof.
  induction table as [|c table IH]; intros V Hnd Hsub.
  - apply sublist_nil_r in Hsub. by subst.
  - rewrite fmap_cons in Hnd, Hsub. apply NoDup_cons in Hnd as [Hfresh Hnd].
    apply sublist_cons_r in Hsub as [Hsub|(V' & -> & Hsub)].
    + assert (col_key c ∉ V) as Hout.
      { intros Hin. apply Hfresh. by apply (sublist_subseteq _ _ Hsub). }
      change (header_columns (c :: table) V)
        with (if bool_decide (col_key c ∈ V) then c :: header_columns table V
              else header_columns table V).
      rewrite bool_decide_eq_false_2 by done. by apply IH.
    + change (header_columns (c :: table) (col_key c :: V'))
        with (if bool_decide (col_key c ∈ col_key c :: V')
              then c :: header_columns table (col_key c :: V')
              else header_columns table (col_key c :: V')).
      rewrite bool_decide_eq_true_2 by apply list_elem_of_here.
      rewrite fmap_cons, header_columns_skip by done. f_equal. by apply IH.
Qed.

Lemma row_fields_lookup `{Host} data rowID : forall visibleCols fs i colID,
  row_fields data rowID visibleCols = Done fs -> visibleCols !! i = Some colID ->
  exists f, field_text data rowID colID = Done f /\ fs !! i = Some f.
Proof.
  induction visibleCols as [|c V IH]; intros fs i colID Hfs Hi; [by rewrite lookup_nil in Hi|].
  cbn [row_fields] in Hfs.
  destruct (field_text data rowID c) as [f|] eqn:Hf; [|done]. cbn [bind] in Hfs.
  destruct (row_fields data rowID V) as [fs'|] eqn:Hfs'; [|done]. cbn [bind] in Hfs.
  injection Hfs as <-. destruct i as [|i]; cbn in Hi.
  - injection Hi as <-. eauto.
  - by apply (IH fs').
Qed.

(** X22.  When the columns that are laid out follow each other as in the
    table (whose keys are all different), the header row that
    [exportData] writes names them one by one in the order in which
    every body row gives their cells: the header row and the body rows
    are aligned. *)
Theorem exportData_aligned `{Host} (table : list column) (data : list (gmap string cell))
    (visibleCols : list string) :
  NoDup (col_key <$> table) ->
  visibleCols `sublist_of` (col_key <$> table) ->
  col_key <$> header_columns table visibleCols = visibleCols
  /\ forall rowID fs i colID,
       row_fields data rowID visibleCols = Done fs -> visibleCols !! i = Some colID ->
       exists column f,
         header_columns table visibleCols !! i = Some column /\ col_key column = colID
         /\ field_text data rowID colID = Done f /\ fs !! i = Some f.
Proof.
  intros Hnd Hsub. pose proof (header_columns_sublist table visibleCols Hnd Hsub) as Hcols.
  split; [done|]. intros rowID fs i colID Hfs Hi.
  destruct (row_fields_lookup data rowID visibleCols fs i colID Hfs Hi) as (f & Hf & Hfi).
  rewrite <- Hcols in Hi. rewrite list_lookup_fmap in Hi.
  destruct (header_columns table visibleCols !! i) as [column|]; [|done].
  injection Hi as Hkey. by exists column, f.
Qed.

Lemma exportData_aligned_witness :
  col_key <$> header_columns Sample.table ["label"; "ports"] = ["label"; "ports"].
Proof.
  apply (exportData_aligned (H := Sample.plain_host) Sample.table Sample.data
           ["label"; "ports"]).
  - by apply (bool_decide_unpack _).
  - apply sublist_skip, sublist_cons, sublist_skip, sublist_nil.
Defined.

(** Columns laid out in another order than in the table get the header
    of each other's cells. *)
Example exportData_swapped :
  exportData (H := Sample.plain_host) col_key Sample.table Sample.data [1] ["ports"; "label"]
  = Done ("label" +:+ CSVfieldSeparator +:+ "ports" +:+ CSVrecordSeparator
          +:+ "53" +:+ CSVfieldSeparator +:+ "dns").
Proof. by vm_compute. Qed.

End ExportFacts.

(** ** Filters that are turned down *)

Module RejectFacts.
Import JsString Js Common FilterSort FilterFacts.

Lemma run_rows_answers `{Host} data filterRPN display v :
  (run_rows data filterRPN display).2 = Done v ->
  v = VBool true \/ v = VStr "Filter syntax error (4)".
Proof.
  induction display as [|e display IH]; cbn [run_rows].
  - intros [= <-]. by left.
  - destruct (replay data (unhide e) [] filterRPN) as [[|w [|]]|]; cbn [snd];
      try (intros [= <-]; by right); try done.
    destruct (run_rows data filterRPN display). exact IH.
Qed.

Lemma checkFilter_answers `{Host} table m tokens :
  (checkFilter table m tokens).1.1 = VBool true
  \/ exists msg, (checkFilter table m tokens).1.1 = VStr msg.
Proof.
  unfold checkFilter.
  destruct (check_loop _ tokens 0 [] (VStr <$> tokens)) as [[[e|] stack] rpn]; cbn [fst].
  - right. eauto.
  - destruct (length stack =? 1)%nat; [by left|right; eauto].
Qed.

(** X23.  Whenever [filterData] comes back with anything but [true], the
    answer is [false] (no filter, or fewer than three tokens) or the
    message of the dry run, and [display] is as it was: a filter that
    is turned down hides and shows nothing. *)
Theorem filterData_rejected `{Host} (table : list column) (data : list (gmap string cell))
    (text : string) (st st' : state) (v : jsval) :
  filterData table data text st = Some (st', Done v) ->
  v <> VBool true ->
  display st' = display st /\ (v = VBool false \/ exists msg, v = VStr msg).
Proof.
  unfold filterData. intros Hf Hv.
  destruct (String.eqb text ""); [injection Hf as <- <-; by auto|].
  cbn [word nonWord typeMap display] in Hf.
  destruct (getTokens text (wordTokens table st) (nonWordTokens st)) as [tokens|]; [|done].
  destruct (2 <? length tokens)%nat; [|injection Hf as <- <-; by auto].
  destruct (tokensToRPN tokens) as [filterRPN|]; [|done].
  pose proof (checkFilter_answers table (typeMap st) filterRPN) as Hans.
  pose proof (run_rows_no_error4 table (typeMap st) filterRPN) as Hno4.
  destruct (checkFilter table (typeMap st) filterRPN) as [[result rpn] m]. cbn [fst] in Hans.
  destruct Hans as [-> | [msg ->]].
  - specialize (Hno4 rpn m data (display st) eq_refl).
    pose proof (run_rows_answers data rpn (display st)) as Hrun. unfold runFilter in *.
    destruct (run_rows data rpn (display st)) as [display' r]. cbn [snd] in *.
    injection Hf as <- ->. destruct (Hrun v eq_refl) as [-> | ->]; done.
  - injection Hf as <- <-. cbn [display]. eauto.
Qed.

Lemma filterData_rejected_witness :
  exists st',
  filterData (H := Sample.plain_host) Sample.table Sample.data "ports @= 80"
    (State ∅ [] [] [1048576; 1; 2])
  = Some (st', Done (VStr "@= operator can only be used with IP-like fields"))
  /\ display st' = [1048576; 1; 2].
Proof.
  destruct (filterData (H := Sample.plain_host) Sample.table Sample.data "ports @= 80"
              (State ∅ [] [] [1048576; 1; 2])) as [[st' r]|] eqn:Hf; [|by vm_compute in Hf].
  assert (r = Done (VStr "@= operator can only be used with IP-like fields")) as ->.
  { vm_compute in Hf. by injection Hf as _ <-. }
  exists st'. split; [done|].
  by destruct (filterData_rejected (H := Sample.plain_host) _ _ _ _ _ _ Hf) as [-> _].
Defined.

End RejectFacts.
